(** * SwarmSim: the landing-page simulation engine (landing/script.js)

    A shallow embedding of the demo engine: [spawnAll], [stepOnce], [loop]
    and [updateStats], together with the bandwidth-constrained message
    router that the design document describes.

    Numbers.  Positions, velocities and scores are modelled as exact
    rationals ([Q]): there the rounding of IEEE doubles is not modelled.
    The numbers of agents that [spawnAll] computes from the strategy
    proportions depend on that rounding ([Math.round((gp/total)*N)]), and
    they are computed in IEEE-754 binary64 arithmetic ([double]).
    [NaN] occurs as the result of [Number(input.value)], where it is
    [None].
    [Math.hypot] is "implementation-approximated" in ECMAScript and is a
    parameter of the engine; [Math.random] is an oracle: the k-th call made
    by the page returns [Math_random_seq k], and the state counts the calls
    made so far. *)

From Stdlib Require Import String QArith Qround Qminmax Qabs ZArith List Bool Lia Lqa.
From Stdlib Require Import DecimalString Sorting.Sorted Sorting.Permutation.
From Stdlib Require Import SpecFloat.
Import ListNotations.

Local Open Scope Q_scope.

(** ** JavaScript numbers and [Math] *)

Definition Qltb (a b : Q) : bool := negb (Qle_bool b a).

Definition Math_max (a b : Q) : Q := Qmax a b.
Definition Math_min (a b : Q) : Q := Qmin a b.
Definition Math_floor (v : Q) : Z := Qfloor v.
(** [Math.round] rounds to the nearest integer, halves towards +infinity. *)
Definition Math_round (v : Q) : Z := Qfloor (v + (1 # 2)).

(** [const clamp = (v,a,b) => Math.max(a, Math.min(b, v))] *)
Definition clamp (v a b : Q) : Q := Math_max a (Math_min b v).

(** [Number(el.value) || d]: [None] is [NaN]; [NaN] and [0] are falsy. *)
Definition Number_or (v : option Q) (d : Q) : Q :=
  match v with
  | Some q => if Qeq_bool q 0 then d else q
  | None => d
  end.

(** ** IEEE doubles

    The binary64 numbers of JavaScript, with the operations of the
    Standard Library's [SpecFloat] (precision 53, round to nearest, ties
    to even). *)
Definition double : Set := spec_float.

Definition D_add : double -> double -> double := SFadd 53 1024.
Definition D_mul : double -> double -> double := SFmul 53 1024.
Definition D_div : double -> double -> double := SFdiv 53 1024.

(** The double nearest to an integer. *)
Definition D_of_Z (z : Z) : double := binary_normalize 53 1024 z 0 false.

(** The double nearest to a rational [n/d]: the quotient of [|n| * 2^k] by
    [d] has at least 55 bits, and the remainder tells on which side of the
    quotient the number lies. *)
Definition D_of_Q (q : Q) : double :=
  let n := Qnum q in
  let d := Zpos (Qden q) in
  if (n =? 0)%Z then S754_zero false
  else
    let k := Z.max 0 (55 + Z.log2 d - Z.log2 (Z.abs n)) in
    let (m, r) := Z.div_eucl (Z.abs n * 2 ^ k) d in
    binary_round_aux 53 1024 (n <? 0)%Z m (- k)
      (if (r =? 0)%Z then loc_Exact else loc_Inexact (Z.compare (2 * r) d)).

(** The rational that a finite double is, in lowest terms; [None] for
    [Infinity], [-Infinity] and [NaN]. *)
Definition D_value (d : double) : option Q :=
  match d with
  | S754_zero _ => Some 0
  | S754_finite s m e => Some (Qred (inject_Z (if s then Zneg m else Zpos m) * 2 ^ e))
  | _ => None
  end.

Definition D_finite (d : double) : bool :=
  match D_value d with Some _ => true | None => false end.

(** The doubles that JavaScript takes for false: [0], [-0] and [NaN]. *)
Definition D_falsy (d : double) : bool :=
  match d with
  | S754_zero _ | S754_nan => true
  | _ => false
  end.

(** [Number(el.value) || d] as a double, for an integer [d].  A field
    whose rational is no double stands for the double nearest to it, as
    [Number] reads a decimal such as 0.1. *)
Definition Number_or_D (v : option Q) (d : Z) : double :=
  match v with
  | Some q => if D_falsy (D_of_Q q) then D_of_Z d else D_of_Q q
  | None => D_of_Z d
  end.

(** [Math.round] of a finite double, which rounds the number that the
    double is.  [Math.round] returns [Infinity], [-Infinity] and [NaN] as
    they are; no integer stands for them, and [0] is given here. *)
Definition Math_round_D (d : double) : Z :=
  match D_value d with
  | Some q => Math_round q
  | None => 0%Z
  end.

(** [String(n)] for an integer [n]. *)
Definition String_of_Z (n : Z) : string := NilZero.string_of_int (Z.to_int n).
Definition String_of_nat (n : nat) : string := String_of_Z (Z.of_nat n).

(** ** Objects of the simulation *)

Inductive AgentType := greedy | cautious | explorer.

Module Agent.
Record t := mk
  { x : Q; y : Q; vx : Q; vy : Q; type : AgentType; wobble : Q; score : Q }.
Definition with_v (a : t) (vx' vy' : Q) : t :=
  mk (x a) (y a) vx' vy' (type a) (wobble a) (score a).
Definition with_pos (a : t) (x' y' : Q) : t :=
  mk x' y' (vx a) (vy a) (type a) (wobble a) (score a).
Definition with_score (a : t) (s : Q) : t :=
  mk (x a) (y a) (vx a) (vy a) (type a) (wobble a) s.
End Agent.

Module Food.
Record t := mk
  { x : Q; y : Q; value : Q; mobile : bool; vx : Q; vy : Q }.
End Food.

Module Danger.
Record t := mk
  { x : Q; y : Q; severity : Q; mobile : bool; vx : Q; vy : Q }.
End Danger.

(** [dist(a,b)] reads the [x] and [y] properties of any two objects. *)
Class Positioned (A : Type) := { pos_x : A -> Q; pos_y : A -> Q }.
#[export] Instance Positioned_Agent : Positioned Agent.t :=
  {| pos_x := Agent.x; pos_y := Agent.y |}.
#[export] Instance Positioned_Food : Positioned Food.t :=
  {| pos_x := Food.x; pos_y := Food.y |}.
#[export] Instance Positioned_Danger : Positioned Danger.t :=
  {| pos_x := Danger.x; pos_y := Danger.y |}.

(** The labels written by [updateStats]. *)
Record Labels := mkLabels
  { modeLabel : string; tickLabel : string; statAgents : string;
    statFood : string; statDanger : string; statScore : string }.

(** The inputs of the control panel: the number that [Number(el.value)]
    returns for each field, as the rational that it is, and [None] for
    [NaN]. *)
Record Inputs := mkInputs
  { agentCount : option Q; pGreedy : option Q; pCautious : option Q;
    pExplorer : option Q; foodCount : option Q; dangerCount : option Q }.

(** The mutable state of the page: the [let] variables of the closure, the
    labels, and the number of [Math.random()] calls made so far. *)
Record State := mkState
  { agents : list Agent.t; foods : list Food.t; dangers : list Danger.t;
    running : bool; tick : nat; score : Q; ui : Labels; draws : nat }.

(** ** Computations that call [Math.random] *)

Definition Rand (A : Type) : Type := nat -> A * nat.
Definition ret {A} (a : A) : Rand A := fun k => (a, k).
Definition bind {A B} (m : Rand A) (f : A -> Rand B) : Rand B :=
  fun k => let (a, k') := m k in f a k'.

Declare Scope rand_scope.
Delimit Scope rand_scope with rand.
Notation "x <- m ;; f" := (bind m (fun x => f))
  (at level 61, m at next level, right associativity) : rand_scope.

(** [for(let i=0;i<n;i++) out.push(body(i))] *)
Fixpoint for_push {A} (body : nat -> Rand A) (i n : nat) : Rand (list A) :=
  match n with
  | O => ret []
  | S n' => (a <- body i ;; l <- for_push body (S i) n' ;; ret (a :: l))%rand
  end.

(** [arr.splice(i,1)] *)
Definition splice {A} (i : nat) (l : list A) : list A :=
  firstn i l ++ skipn (S i) l.

(** ** The host of the script

    What the engine takes from the browser: [Math.hypot], the outcomes of
    [Math.random()] in the order of the calls, and the size of the canvas
    in CSS pixels ([canvas.width/devicePixelRatio] and
    [canvas.height/devicePixelRatio]) as one call of [spawnAll] or of
    [loop] reads it.  The script is single-threaded: [resize()] runs
    between two such calls, never during one.  The host after a resize is
    [resized], and [historyResized] is a run in which the window is
    resized; [history] is a run in which it is not. *)
Class Host := mkHost
  { Math_hypot : Q -> Q -> Q;
    Math_random_seq : nat -> Q;
    canvasW : Q;
    canvasH : Q }.

Section Engine.

Context {host : Host}.

Definition Math_random : Rand Q := fun k => (Math_random_seq k, S k).

(** [const rand = (min,max) => Math.random()*(max-min)+min] *)
Definition rand (min max : Q) : Rand Q :=
  (r <- Math_random ;; ret (r * (max - min) + min))%rand.

Definition dist {A B} `{Positioned A} `{Positioned B} (a : A) (b : B) : Q :=
  Math_hypot (pos_x a - pos_x b) (pos_y a - pos_y b).

(** *** Spawning *)

Definition newAgent (type : AgentType) : Rand Agent.t :=
  (x <- rand 40 (canvasW - 40) ;;
   y <- rand 40 (canvasH - 40) ;;
   vx <- rand (-0.8) 0.8 ;;
   vy <- rand (-0.8) 0.8 ;;
   w <- Math_random ;;
   ret (Agent.mk x y vx vy type (w * 10) 0))%rand.

(** [i%3===0?10:(i%3===1?6:2)] *)
Definition tier (i : nat) : Q :=
  if Nat.eqb (i mod 3) 0 then 10 else if Nat.eqb (i mod 3) 1 then 6 else 2.

Definition newFood (i : nat) : Rand Food.t :=
  (x <- rand 40 (canvasW - 40) ;;
   y <- rand 40 (canvasH - 40) ;;
   m <- Math_random ;;
   vx <- rand (-0.5) 0.5 ;;
   vy <- rand (-0.5) 0.5 ;;
   ret (Food.mk x y (tier i) (Qltb m 0.3) vx vy))%rand.

Definition newDanger (i : nat) : Rand Danger.t :=
  (x <- rand 40 (canvasW - 40) ;;
   y <- rand 40 (canvasH - 40) ;;
   m <- Math_random ;;
   vx <- rand (-0.6) 0.6 ;;
   vy <- rand (-0.6) 0.6 ;;
   ret (Danger.mk x y (tier i) (Qltb m 0.4) vx vy))%rand.

(** [updateStats()] *)
Definition updateStats (st : State) : State :=
  mkState (agents st) (foods st) (dangers st) (running st) (tick st) (score st)
    (mkLabels
       (if Nat.leb (length (agents st)) 10 then "demo"%string else "data"%string)
       (String_of_nat (tick st))
       (String_of_nat (length (agents st)))
       (String_of_nat (length (foods st)))
       (String_of_nat (length (dangers st)))
       (String_of_Z (Z.max 0 (Math_round (score st)))))
    (draws st).

(** The numbers of agents that [spawnAll] computes from the inputs. *)
Definition agentN (inp : Inputs) : Z :=
  Z.max 1 (Math_floor (Number_or (agentCount inp) 5)).
(** [const total = (gp+cp+ep) || 100], the sum of doubles. *)
Definition mixTotal (inp : Inputs) : double :=
  let s := D_add (D_add (Number_or_D (pGreedy inp) 0) (Number_or_D (pCautious inp) 0))
                 (Number_or_D (pExplorer inp) 0) in
  if D_falsy s then D_of_Z 100 else s.
(** [(gp/total)*N] and [(cp/total)*N], the products of doubles that
    [Math.round] is applied to. *)
Definition greedyShare (inp : Inputs) : double :=
  D_mul (D_div (Number_or_D (pGreedy inp) 0) (mixTotal inp)) (D_of_Z (agentN inp)).
Definition cautiousShare (inp : Inputs) : double :=
  D_mul (D_div (Number_or_D (pCautious inp) 0) (mixTotal inp)) (D_of_Z (agentN inp)).
Definition greedyN (inp : Inputs) : Z := Math_round_D (greedyShare inp).
Definition cautiousN (inp : Inputs) : Z := Math_round_D (cautiousShare inp).
(** [Math.max(0, N-g-c)]; the subtraction of integers is exact in doubles
    below 2^53. *)
Definition explorerN (inp : Inputs) : Z :=
  Z.max 0 (agentN inp - greedyN inp - cautiousN inp).
Definition foodN (inp : Inputs) : Z :=
  Z.max 0 (Math_floor (Number_or (foodCount inp) 9)).
Definition dangerN (inp : Inputs) : Z :=
  Z.max 0 (Math_floor (Number_or (dangerCount inp) 5)).

(** An array holds at most 2^32 - 1 elements. *)
Definition arrayMax : Z := 4294967295.

(** The calls of [spawnAll()] that return: both products are finite and
    none of the three arrays is asked to hold more than [arrayMax]
    elements.  Then every number of [spawnAll] is an integer below 2^34 and
    the arithmetic on them is exact.  For other inputs [push] throws, or a
    loop whose bound is [Infinity] does not end. *)
Definition spawnReturns (inp : Inputs) : bool :=
  D_finite (greedyShare inp) && D_finite (cautiousShare inp)
  && (Z.max 0 (greedyN inp) + Z.max 0 (cautiousN inp) + explorerN inp <=? arrayMax)%Z
  && (foodN inp <=? arrayMax)%Z && (dangerN inp <=? arrayMax)%Z.

(** [spawnAll()]; a [for] loop whose bound is negative runs no iteration.
    The state is the one that the call leaves when it returns
    ([spawnReturns]). *)
Definition spawnAll (inp : Inputs) (st : State) : State :=
  let '(ags, fs, ds, k) :=
    (gs <- for_push (fun _ => newAgent greedy) 0 (Z.to_nat (greedyN inp)) ;;
     cs <- for_push (fun _ => newAgent cautious) 0 (Z.to_nat (cautiousN inp)) ;;
     es <- for_push (fun _ => newAgent explorer) 0 (Z.to_nat (explorerN inp)) ;;
     fs <- for_push newFood 0 (Z.to_nat (foodN inp)) ;;
     ds <- for_push newDanger 0 (Z.to_nat (dangerN inp)) ;;
     ret (gs ++ cs ++ es, fs, ds))%rand (draws st) in
  updateStats (mkState ags fs ds (running st) 0 0 (ui st) k).

(** *** One tick *)

(** The body of [for(const f of foods){ if(f.mobile){ ... } }]. *)
Definition moveFood (f : Food.t) : Food.t :=
  if Food.mobile f then
    let x := Food.x f + Food.vx f in
    let y := Food.y f + Food.vy f in
    let vx := if Qltb x 20 || Qltb (canvasW - 20) x then Food.vx f * -1 else Food.vx f in
    let vy := if Qltb y 20 || Qltb (canvasH - 20) y then Food.vy f * -1 else Food.vy f in
    Food.mk x y (Food.value f) true vx vy
  else f.

Definition moveDanger (d : Danger.t) : Danger.t :=
  if Danger.mobile d then
    let x := Danger.x d + Danger.vx d in
    let y := Danger.y d + Danger.vy d in
    let vx := if Qltb x 20 || Qltb (canvasW - 20) x then Danger.vx d * -1 else Danger.vx d in
    let vy := if Qltb y 20 || Qltb (canvasH - 20) y then Danger.vy d * -1 else Danger.vy d in
    Danger.mk x y (Danger.severity d) true vx vy
  else d.

(** [f.value - dist(a,f)*0.02] *)
Definition foodScore (a : Agent.t) (f : Food.t) : Q :=
  Food.value f - dist a f * 0.02.

(** The loop [for(const f of foods){ const s = ...; if(s>bestScore){ ... } }];
    [None] is the initial [best=null, bestScore=-Infinity], below which no
    number lies. *)
Definition seekBest (a : Agent.t) (fs : list Food.t) : option (Q * Food.t) :=
  fold_left
    (fun acc f =>
       let s := foodScore a f in
       match acc with
       | None => Some (s, f)
       | Some (bestScore, _) => if Qltb bestScore s then Some (s, f) else acc
       end)
    fs None.

(** [for(const d of dangers){ const dd=dist(a,d); if(dd<nd){ nd=dd; near=d; } }];
    [None] is [near=null, nd=Infinity]. *)
Definition nearestDanger (a : Agent.t) (ds : list Danger.t) : option (Q * Danger.t) :=
  fold_left
    (fun acc d =>
       let dd := dist a d in
       match acc with
       | None => Some (dd, d)
       | Some (nd, _) => if Qltb dd nd then Some (dd, d) else acc
       end)
    ds None.

(** [Math.hypot(dx,dy)||1] *)
Definition hypot_or_1 (dx dy : Q) : Q :=
  let m := Math_hypot dx dy in if Qeq_bool m 0 then 1 else m.

Definition steerGreedy (a : Agent.t) (fs : list Food.t) : Agent.t :=
  match seekBest a fs with
  | Some (_, best) =>
      let dx := Food.x best - Agent.x a in
      let dy := Food.y best - Agent.y a in
      let m := hypot_or_1 dx dy in
      Agent.with_v a (Agent.vx a + dx / m * 0.05) (Agent.vy a + dy / m * 0.05)
  | None => a
  end.

(** [if(near && nd<120){ ... }] *)
Definition flee (a : Agent.t) (ds : list Danger.t) : Agent.t :=
  match nearestDanger a ds with
  | Some (nd, near) =>
      if Qltb nd 120 then
        Agent.with_v a (Agent.vx a + (Agent.x a - Danger.x near) * 0.003)
                       (Agent.vy a + (Agent.y a - Danger.y near) * 0.003)
      else a
  | None => a
  end.

(** [if(foods.length){ const any = foods[Math.floor(Math.random()*foods.length)]; ... }];
    since [Math.random()] is below 1 the index is in range, and the
    [None] case of the lookup is not reached. *)
Definition driftToFood (a : Agent.t) (fs : list Food.t) : Rand Agent.t :=
  match fs with
  | [] => ret a
  | _ =>
      (r <- Math_random ;;
       ret (match nth_error fs (Z.to_nat (Math_floor (r * inject_Z (Z.of_nat (length fs))))) with
            | Some any =>
                Agent.with_v a (Agent.vx a + (Food.x any - Agent.x a) * 0.0008)
                               (Agent.vy a + (Food.y any - Agent.y a) * 0.0008)
            | None => a
            end))%rand
  end.

Definition steerCautious (a : Agent.t) (fs : list Food.t) (ds : list Danger.t)
  : Rand Agent.t :=
  driftToFood (flee a ds) fs.

Definition steerExplorer (a : Agent.t) : Rand Agent.t :=
  (rx <- rand (-0.02) 0.02 ;;
   ry <- rand (-0.02) 0.02 ;;
   ret (Agent.with_v a (Agent.vx a + rx) (Agent.vy a + ry)))%rand.

Definition steer (a : Agent.t) (fs : list Food.t) (ds : list Danger.t) : Rand Agent.t :=
  match Agent.type a with
  | greedy => ret (steerGreedy a fs)
  | cautious => steerCautious a fs ds
  | explorer => steerExplorer a
  end.

(** "damp and move", then "bounds". *)
Definition dampMove (a : Agent.t) : Agent.t :=
  let vx := Agent.vx a * 0.98 in
  let vy := Agent.vy a * 0.98 in
  Agent.mk (clamp (Agent.x a + vx) 12 (canvasW - 12)) (clamp (Agent.y a + vy) 12 (canvasH - 12))
           vx vy (Agent.type a) (Agent.wobble a) (Agent.score a).

(** [for(let i=foods.length-1;i>=0;i--){ if(dist(a, foods[i]) < 14){ ... } }]
    with [n = i+1]; the index is below [foods.length], so the [None] case
    of the lookup is not reached. *)
Fixpoint eat (n : nat) (a : Agent.t) (score : Q) (fs : list Food.t)
  : Agent.t * Q * list Food.t :=
  match n with
  | O => (a, score, fs)
  | S i =>
      match nth_error fs i with
      | Some f =>
          if Qltb (dist a f) 14 then
            eat i (Agent.with_score a (Agent.score a + Food.value f))
                (score + Food.value f) (splice i fs)
          else eat i a score fs
      | None => eat i a score fs
      end
  end.

(** [for(let i=dangers.length-1;i>=0;i--){ if(dist(a, dangers[i]) < 14){ ... } }] *)
Fixpoint hit (n : nat) (a : Agent.t) (score : Q) (ds : list Danger.t)
  : Rand (Agent.t * Q * list Danger.t) :=
  match n with
  | O => ret (a, score, ds)
  | S i =>
      match nth_error ds i with
      | Some d =>
          if Qltb (dist a d) 14 then
            (r <- Math_random ;;
             hit i (Agent.with_score a (Agent.score a - Danger.severity d))
                 (score - Danger.severity d)
                 (if Qltb r 0.06 then splice i ds else ds))%rand
          else hit i a score ds
      | None => hit i a score ds
      end
  end.

(** The world as one agent of the [for(const a of agents)] loop sees and
    changes it. *)
Record World := mkWorld
  { w_foods : list Food.t; w_dangers : list Danger.t; w_score : Q }.

(** The body of [for(const a of agents){ ... }]. *)
Definition agentTurn (a : Agent.t) (w : World) : Rand (Agent.t * World) :=
  (a1 <- steer a (w_foods w) (w_dangers w) ;;
   let a2 := dampMove a1 in
   let '(a3, s3, fs) := eat (length (w_foods w)) a2 (w_score w) (w_foods w) in
   r <- hit (length (w_dangers w)) a3 s3 (w_dangers w) ;;
   let '(a4, s4, ds) := r in
   ret (a4, mkWorld fs ds s4))%rand.

Fixpoint agentLoop (ags : list Agent.t) (w : World) : Rand (list Agent.t * World) :=
  match ags with
  | [] => ret ([], w)
  | a :: rest =>
      (r <- agentTurn a w ;;
       let '(a', w') := r in
       r' <- agentLoop rest w' ;;
       let '(rest', w'') := r' in
       ret (a' :: rest', w''))%rand
  end.

(** [stepOnce()] *)
Definition stepOnce (st : State) : State :=
  let fs := map moveFood (foods st) in
  let ds := map moveDanger (dangers st) in
  let '(ags, w, k) := agentLoop (agents st) (mkWorld fs ds (score st)) (draws st) in
  updateStats
    (mkState ags (w_foods w) (w_dangers w) (running st) (S (tick st)) (w_score w)
             (ui st) k).

(** The simulation part of [loop()]: nothing when paused, [stepOnce] up to
    500 agents, and only the tick counter above that. *)
Definition loop (st : State) : State :=
  if running st then
    if Nat.leb (length (agents st)) 500 then stepOnce st
    else updateStats
           (mkState (agents st) (foods st) (dangers st) (running st)
                    (S (tick st)) (score st) (ui st) (draws st))
  else st.

(** The click handlers of [startBtn] and [pauseBtn], without the frame
    scheduling. *)
Definition start (st : State) : State :=
  mkState (agents st) (foods st) (dangers st) true (tick st) (score st)
          (ui st) (draws st).
Definition pause (st : State) : State :=
  mkState (agents st) (foods st) (dangers st) false (tick st) (score st)
          (ui st) (draws st).

(** The state of the closure before the first [spawnAll()]. *)
Definition init : State :=
  mkState [] [] [] false 0 0
          (mkLabels EmptyString EmptyString EmptyString EmptyString
                    EmptyString EmptyString) 0.

(** The states before and after each of [n] consecutive calls of [loop]. *)
Fixpoint ticks (n : nat) (st : State) : list State :=
  match n with
  | O => [st]
  | S n' => st :: ticks n' (loop st)
  end.

(** A run: the page loads, [spawnAll()] reads the inputs, the start button
    is clicked, and [loop] runs [n] times. *)
Definition history (inp : Inputs) (n : nat) : list State :=
  ticks n (start (spawnAll inp init)).

End Engine.

(** ** An executable [Math.hypot]

    The square root to six decimals (rounded down); used to run the engine
    on concrete inputs. *)
Definition hypot_micro (dx dy : Q) : Q :=
  inject_Z (Z.sqrt (Qfloor ((dx * dx + dy * dy) * 1000000000000))) / 1000000.

(** ** The message router

    The landing-page engine has no messages; the bandwidth-constrained
    router of the design (section 4.2) is modelled from its description. *)
Module Router.

(** Modelled from the spec: the Message of the data model, which no source
    file defines: sender id, importance score, encoded size in bits and
    creation tick (the payload plays no part in routing).  A message
    without a computed size, or with a negative one, is dropped as a
    MessageEncodingError before it is a candidate.  The encoding of a
    candidate takes at least one bit: the design requires of one router
    that a budget of zero delivers nothing and that a budget of at least
    the sum of the sizes delivers every candidate, which no router does for
    a candidate of no bits. *)
Record Message := mkMessage
  { sender : nat; importance : Q; size_bits : positive; created : nat }.

(** Modelled from the spec: the total encoded bits of a set of messages,
    for the router that no source file defines. *)
Definition total_bits (ms : list Message) : N :=
  fold_right (fun m acc => (Npos (size_bits m) + acc)%N) 0%N ms.

Section Routing.
Variable priority : Message -> Q.

(** Modelled from the spec: the order of the router, which no source file
    defines: descending by score, with the lower sender id first among
    equal scores.  The score is a function of the importance that the
    design leaves open: the parameter [priority]. *)
Definition outranks (m1 m2 : Message) : bool :=
  Qltb (priority m2) (priority m1)
  || (Qeq_bool (priority m1) (priority m2) && Nat.leb (sender m1) (sender m2)).

(** Modelled from the spec: the sort of the router, which no source file
    defines, as an insertion sort by [outranks]. *)
Fixpoint insert (m : Message) (l : list Message) : list Message :=
  match l with
  | [] => [m]
  | h :: t => if outranks m h then m :: h :: t else h :: insert m t
  end.

Definition by_priority (ms : list Message) : list Message :=
  fold_right insert [] ms.

(** Modelled from the spec: the selection of the router, which no source
    file defines: messages are taken greedily in that order, their
    encoded bit cost accumulating, until the next candidate would exceed
    the remaining budget; the remaining candidates are dropped for this
    tick. *)
Fixpoint accept (remaining : N) (ms : list Message) : list Message :=
  match ms with
  | [] => []
  | m :: rest =>
      if (Npos (size_bits m) <=? remaining)%N
      then m :: accept (remaining - Npos (size_bits m)) rest
      else []
  end.

(** Modelled from the spec: the router, which no source file defines:
    the messages delivered in one tick out of the candidates generated in
    that tick, for a budget of [bandwidth_bits]. *)
Definition route (bandwidth_bits : N) (candidates : list Message) : list Message :=
  accept bandwidth_bits (by_priority candidates).
End Routing.

End Router.

(** ** Vocabulary of the statements *)

Section Vocabulary.
Context {host : Host}.

(** The collision test of [stepOnce]: [dist(a, o) < 14]. *)
Definition touches {B} `{Positioned B} (a : Agent.t) (o : B) : bool :=
  Qltb (dist a o) 14.

(** The score after the values of the touched resources are added, last
    resource of the array first. *)
Definition gain (a : Agent.t) (fs : list Food.t) (s0 : Q) : Q :=
  fold_right (fun f acc => acc + Food.value f) s0 (filter (touches a) fs).

(** The score after the severities of the touched hazards are subtracted,
    last hazard of the array first. *)
Definition loss (a : Agent.t) (ds : list Danger.t) (s0 : Q) : Q :=
  fold_right (fun d acc => acc - Danger.severity d) s0 (filter (touches a) ds).

(** The hazards that remain after the contacts of one agent, and the
    number of [Math.random()] calls made: each touched hazard, last of the
    array first, draws once and goes when the draw is below 0.06. *)
Fixpoint survivors (a : Agent.t) (ds : list Danger.t) (k : nat)
  : list Danger.t * nat :=
  match ds with
  | [] => ([], k)
  | d :: rest =>
      let (kept, k') := survivors a rest k in
      if touches a d
      then (if Qltb (Math_random_seq k') 0.06 then kept else d :: kept, S k')
      else (d :: kept, k')
  end.

(** The agent of a turn once it has steered, damped, moved and been
    clamped, and the number of draws made until then. *)
Definition moved (a : Agent.t) (w : World) (k : nat) : Agent.t :=
  dampMove (fst (steer a (w_foods w) (w_dangers w) k)).
Definition steered_draws (a : Agent.t) (w : World) (k : nat) : nat :=
  snd (steer a (w_foods w) (w_dangers w) k).

(** The velocity after the bounce test of the passive motion, for the new
    coordinate [x] on an axis of length [L]. *)
Definition reflect (L x v : Q) : Q :=
  if Qltb x 20 || Qltb (L - 20) x then v * -1 else v.

(** What one passive-motion update does on one axis: the coordinate
    advances by the velocity, and the velocity keeps its magnitude and
    changes sign exactly when the new coordinate is outside the band
    [20 .. L-20]. *)
Definition bounced (L x v x' v' : Q) : Prop :=
  x' = x + v /\ v' = reflect L x' v /\ Qabs v' == Qabs v.

(** The invariant of a mobile item on one axis: it is in the band, or it
    left the band by at most one step and is heading back. *)
Definition axisInv (L x v : Q) : Prop :=
  -1 <= v <= 1
  /\ (20 <= x <= L - 20
      \/ (20 - v <= x < 20 /\ 0 <= v)
      \/ (L - 20 < x <= L - 20 - v /\ v <= 0)).

Definition inBand (L x : Q) : Prop := 20 <= x <= L - 20.

Definition foodInv (f : Food.t) : Prop :=
  if Food.mobile f
  then axisInv canvasW (Food.x f) (Food.vx f) /\ axisInv canvasH (Food.y f) (Food.vy f)
  else inBand canvasW (Food.x f) /\ inBand canvasH (Food.y f).

Definition dangerInv (d : Danger.t) : Prop :=
  if Danger.mobile d
  then axisInv canvasW (Danger.x d) (Danger.vx d)
       /\ axisInv canvasH (Danger.y d) (Danger.vy d)
  else inBand canvasW (Danger.x d) /\ inBand canvasH (Danger.y d).

(** Every outcome of [Math.random()] is in [0, 1). *)
Definition random_in_range : Prop :=
  forall k, 0 <= Math_random_seq k < 1.

(** Every resource and hazard of the state satisfies its invariant. *)
Definition itemsInv (st : State) : Prop :=
  Forall foodInv (foods st) /\ Forall dangerInv (dangers st).

(** The label of the total score shows [Math.max(0, Math.round(score))]. *)
Definition scoreShown (st : State) : Prop :=
  statScore (ui st) = String_of_Z (Z.max 0 (Math_round (score st))).

End Vocabulary.




(** The same host with other outcomes of [Math.random()]. *)
Definition with_random (h : Host) (rs : nat -> Q) : Host :=
  mkHost (@Math_hypot h) rs (@canvasW h) (@canvasH h).

(** The same host after [resize()]: the canvas has another size. *)
Definition resized (h : Host) (W H : Q) : Host :=
  mkHost (@Math_hypot h) (@Math_random_seq h) W H.

(** The states before and after consecutive calls of [loop], the window
    being resized between them: [sizes] lists the size of the canvas that
    each call reads. *)
Fixpoint ticksResized {host : Host} (sizes : list (Q * Q)) (st : State) : list State :=
  match sizes with
  | [] => [st]
  | (W, H) :: rest => st :: ticksResized rest (loop (host := resized host W H) st)
  end.

(** A run with resizes: [spawnAll()] reads the inputs on the canvas of the
    host, the start button is clicked, and [loop] runs once for every size
    of [sizes]. *)
Definition historyResized {host : Host} (inp : Inputs) (sizes : list (Q * Q))
  : list State :=
  ticksResized sizes (start (spawnAll inp init)).

(** ** Vocabulary of one tick *)

Section TickVocabulary.
Context {host : Host}.

(** No agent of [ags] touches [o]. *)
Definition untouched {B} `{Positioned B} (ags : list Agent.t) (o : B) : bool :=
  forallb (fun a => negb (touches a o)) ags.

(** The world that the agents of [stepOnce] start from: the resources and
    hazards after their passive motion. *)
Definition movedWorld (st : State) : World :=
  mkWorld (map moveFood (foods st)) (map moveDanger (dangers st)) (score st).

(** The world and the number of draws made so far as each agent of the
    loop finds them at the start of its turn, followed by the world and
    the number of draws after the last turn. *)
Fixpoint turnWorlds (ags : list Agent.t) (w : World) (k : nat) : list (World * nat) :=
  (w, k) :: match ags with
            | [] => []
            | a :: rest =>
                let '(_, w', k') := agentTurn a w k in turnWorlds rest w' k'
            end.

(** The number of [Math.random()] calls that an agent makes to steer: none
    for a greedy agent, one for a cautious agent when a resource exists,
    two for an explorer. *)
Definition steerCalls (a : Agent.t) (fs : list Food.t) : nat :=
  match Agent.type a with
  | greedy => 0
  | cautious => match fs with [] => 0 | _ :: _ => 1 end
  | explorer => 2
  end.

(** The number of agents of a type. *)
Definition countType (ty : AgentType) (ags : list Agent.t) : nat :=
  length (filter (fun a => match Agent.type a, ty with
                           | greedy, greedy | cautious, cautious
                           | explorer, explorer => true
                           | _, _ => false
                           end) ags).

End TickVocabulary.

(** ** Concrete hosts, inputs and objects *)

Definition demoRandom (k : nat) : Q :=
  match (k mod 4)%nat with
  | 0%nat => 1 # 8
  | 1%nat => 5 # 8
  | 2%nat => 3 # 8
  | _ => 7 # 8
  end.

Definition demoHost : Host := mkHost hypot_micro demoRandom 400 360.
Definition quarterHost : Host := mkHost hypot_micro (fun _ => 1 # 4) 400 360.

Definition luckyHost : Host := mkHost hypot_micro (fun _ => 1 # 32) 400 360.

Definition demoInputs : Inputs :=
  mkInputs (Some 3) (Some 50) (Some 50) (Some 0) (Some 2) (Some 2).

Definition badInputs : Inputs :=
  mkInputs (Some (-3)) (Some (-50)) (Some 50) (Some 0) (Some (-2)) None.

(** The outcomes of [demoRandom] for the first [n] calls, and 0 from then
    on. *)
Definition cutRandom (n : nat) (k : nat) : Q :=
  if Nat.ltb k n then demoRandom k else 0.

(** Inputs for two explorers, one resource and no hazard. *)
Definition strandInputs : Inputs :=
  mkInputs (Some 2) (Some 0) (Some 0) (Some 100) (Some 1) (Some (-1)).

(** A greedy agent, a resource, and a hazard five pixels from the agent on
    the straight line to the resource. *)
Definition greedyDemo : Agent.t := Agent.mk 100 100 0 0 greedy 0 0.
Definition foodDemo : Food.t := Food.mk 130 140 10 false 0 0.
Definition hazardInTheWay : Danger.t := Danger.mk 103 104 10 false 0 0.

(** A cautious agent with a hazard 50 pixels to its right and a resource
    200 pixels to its right. *)
Definition cautiousDemo : Agent.t := Agent.mk 100 100 0 0 cautious 0 0.
Definition hazardNear : Danger.t := Danger.mk 150 100 10 false 0 0.
Definition foodFar : Food.t := Food.mk 300 100 10 false 0 0.

(** A resource in reach of [greedyDemo], and the world of that resource
    and the hazard [hazardInTheWay]. *)
Definition foodInReach : Food.t := Food.mk 105 100 6 false 0 0.
Definition contactWorld : World := mkWorld [foodInReach] [hazardInTheWay] 0.

(** Two candidates, of 30 and of 50 bits. *)
Definition msgA : Router.Message := Router.mkMessage 1 5 30 0.
Definition msgB : Router.Message := Router.mkMessage 2 7 50 0.


(** A point of the canvas [0..W] x [0..H]. *)
Definition inWorld (W H x y : Q) : Prop := 0 <= x <= W /\ 0 <= y <= H.

(** ** Vocabulary of the further properties *)

(** The total value of the resources of a world. *)
Definition foodTotal (fs : list Food.t) : Q :=
  fold_right (fun f acc => Food.value f + acc) 0 fs.

(** The sum of the scores of the agents. *)
Definition scoreSum (ags : list Agent.t) : Q :=
  fold_right (fun a acc => Agent.score a + acc) 0 ags.

(** One of the three values that [spawnAll] gives to resources and
    hazards. *)
Definition isTier (q : Q) : Prop := q = 10 \/ q = 6 \/ q = 2.

(** The ranges in which [newAgent] places and starts an agent. *)
Definition agentSpawned (W H : Q) (a : Agent.t) : Prop :=
  40 <= Agent.x a <= W - 40 /\ 40 <= Agent.y a <= H - 40
  /\ -0.8 <= Agent.vx a < 0.8 /\ -0.8 <= Agent.vy a < 0.8
  /\ 0 <= Agent.wobble a < 10 /\ Agent.score a = 0.

(** Inputs that ask for 45 agents, 70 greedy to 30 cautious: the double
    product [(70/100)*45] is 31.499999999999996.  And proportions 0.1, 0.2
    and -0.3, whose sum of doubles is 2^-54. *)
Definition roundingInputs : Inputs :=
  mkInputs (Some 45) (Some 70) (Some 30) (Some 0) (Some 1) (Some 1).
Definition tinySumInputs : Inputs :=
  mkInputs (Some 1) (Some 0.1) (Some 0.2) (Some (-0.3)) (Some 1) (Some 1).


(** A number that is an integer. *)
Definition isInt (q : Q) : Prop := exists z, q == inject_Z z.

(** Outside the band in which the passive motion does not bounce. *)
Definition outsideBand (L x : Q) : Prop := x < 20 \/ L - 20 < x.

(** The state that [loop] leaves in data mode, above 500 agents. *)
Definition tickOnly (st : State) : State :=
  updateStats
    (mkState (agents st) (foods st) (dangers st) (running st)
             (S (tick st)) (score st) (ui st) (draws st)).

(** Every resource value and hazard severity of the state is one of the
    three that [spawnAll] gives. *)
Definition tiersInv (st : State) : Prop :=
  Forall (fun f => isTier (Food.value f)) (foods st)
  /\ Forall (fun d => isTier (Danger.severity d)) (dangers st).

(** One passive-motion update on one axis of length [L], on the pair of
    the coordinate and the velocity: the two statements
    [f.x+=f.vx; if(f.x<20||f.x>L-20) f.vx*=-1]. *)
Definition axisStep (L : Q) (xv : Q * Q) : Q * Q :=
  (fst xv + snd xv, reflect L (fst xv + snd xv) (snd xv)).

(** The bound that the damping keeps on the velocity of an explorer. *)
Definition explorerPace (a : Agent.t) : Prop :=
  Agent.type a = explorer ->
  -0.98 <= Agent.vx a <= 0.98 /\ -0.98 <= Agent.vy a <= 0.98.

(** A mobile resource left of the band, moving left. *)
Definition strayFood : Food.t := Food.mk 5 100 10 true (-0.5) 0.25.

(** ** The page: the engine and its pending callbacks

    [loop] schedules itself: in demo mode (up to 10 agents) with
    [requestAnimationFrame], whose handle it keeps in [raf], and in data
    mode with [setTimeout(loop, 160)].  A callback runs once; a handle is a
    positive number that was not given out before, so a handle is true in
    [if(raf)]; [cancelAnimationFrame] takes the callback of a handle off the
    pending ones.  Rendering reads the state and writes to the canvas only,
    and is left out. *)
Record Page := mkPage
  { sim : State;
    raf : option positive;
    frames : list positive;
    timers : nat;
    nextHandle : positive }.

Section PageEvents.
Context {host : Host}.

(** [cancelAnimationFrame(h)] on the pending animation-frame callbacks. *)
Definition cancelFrame (h : positive) (fs : list positive) : list positive :=
  remove Pos.eq_dec h fs.

(** The whole of [loop()]: the simulation part, then the scheduling. *)
Definition loopPage (p : Page) : Page :=
  if running (sim p) then
    let s := loop (sim p) in
    if Nat.leb (length (agents s)) 10 then
      mkPage s (Some (nextHandle p)) (nextHandle p :: frames p) (timers p)
             (Pos.succ (nextHandle p))
    else
      mkPage s None
             (match raf p with
              | Some h => cancelFrame h (frames p)
              | None => frames p
              end)
             (S (timers p)) (nextHandle p)
  else p.

(** What can happen to the page: a click on one of the three buttons, or a
    pending callback of [loop] comes due. *)
Inductive Event :=
| ClickSpawn (inp : Inputs)
| ClickStart
| ClickPause
| FrameDue (h : positive)
| TimerDue.

(** The handlers.  A callback that is not pending does not come due: the
    page stays as it is. *)
Definition react (p : Page) (e : Event) : Page :=
  match e with
  | ClickSpawn inp =>
      mkPage (spawnAll inp (sim p)) (raf p) (frames p) (timers p) (nextHandle p)
  | ClickStart =>
      if running (sim p) then p
      else loopPage (mkPage (start (sim p)) (raf p) (frames p) (timers p)
                            (nextHandle p))
  | ClickPause =>
      mkPage (pause (sim p)) None
             (match raf p with
              | Some h => cancelFrame h (frames p)
              | None => frames p
              end)
             (timers p) (nextHandle p)
  | FrameDue h =>
      if in_dec Pos.eq_dec h (frames p)
      then loopPage (mkPage (sim p) (raf p) (cancelFrame h (frames p)) (timers p)
                            (nextHandle p))
      else p
  | TimerDue =>
      match timers p with
      | O => p
      | S t => loopPage (mkPage (sim p) (raf p) (frames p) t (nextHandle p))
      end
  end.

(** The page after a sequence of events. *)
Definition reactAll (p : Page) (es : list Event) : Page := fold_left react es p.

(** The page when the script has run: [spawnAll()] was called, nothing is
    pending. *)
Definition initPage (inp : Inputs) : Page :=
  mkPage (spawnAll inp init) None [] 0 1%positive.

End PageEvents.

(** An event in which a pending callback comes due. *)
Definition isCallback (e : Event) : Prop :=
  match e with
  | FrameDue _ | TimerDue => True
  | _ => False
  end.

(** Inputs for which [spawnAll] creates at most 10 agents. *)
Definition demoSized (inp : Inputs) : Prop :=
  (Z.to_nat (greedyN inp) + Z.to_nat (cautiousN inp)
   + Z.to_nat (explorerN inp) <= 10)%nat.

(** An event that keeps the page in demo mode. *)
Definition keepsDemo (e : Event) : Prop :=
  match e with
  | ClickSpawn inp => demoSized inp
  | _ => True
  end.

(** Inputs for 12 agents: data mode. *)
Definition dozenInputs : Inputs :=
  mkInputs (Some 12) (Some 50) (Some 50) (Some 0) (Some 3) (Some 3).

(** An agent after a tick in which no strategy accelerated it: the
    velocity damped by 0.98, the position advanced by the damped velocity
    and clamped.  The score is left open. *)
Definition coasted {host : Host} (a a' : Agent.t) : Prop :=
  Agent.vx a' = Agent.vx a * 0.98 /\ Agent.vy a' = Agent.vy a * 0.98
  /\ Agent.x a' = clamp (Agent.x a + Agent.vx a * 0.98) 12 (canvasW - 12)
  /\ Agent.y a' = clamp (Agent.y a + Agent.vy a * 0.98) 12 (canvasH - 12).

(** ** Painting and the logo *)

(** The fill colour that [drawFood] chooses for a value. *)
Definition foodColor (value : Q) : string :=
  if Qle_bool 8 value then "#ffd54a"%string
  else if Qle_bool 5 value then "#9ee493"%string else "#b5e0ff"%string.

(** The fill colour that [drawDanger] chooses for a severity. *)
Definition dangerColor (severity : Q) : string :=
  if Qle_bool 8 severity then "#ff7f50"%string
  else if Qle_bool 5 severity then "#ffb3a7"%string else "#ffdfd5"%string.

(** The integer part of a number, towards zero. *)
Definition Qtrunc (q : Q) : Z := if Qltb q 0 then Qceiling q else Qfloor q.

(** [a % b]: the remainder of the division truncated towards zero. *)
Definition js_rem (a b : Q) : Q := a - b * inject_Z (Qtrunc (a / b)).

(** The callback of the logo timers: [ang = (ang + step) % 360], with a
    step of 0.6 in the engine script and of 0.2 in the landing script. *)
Definition spin (step ang : Q) : Q := js_rem (ang + step) 360.

(** ** The backdrop animation (the script of [agentCanvas])

    Eighteen dots that drift over a canvas as wide as the window and 350
    pixels high and bounce at its edges. *)
Module Backdrop.

Record Dot := mkDot
  { x : Q; y : Q; dx : Q; dy : Q; size : Q; color : option string }.

(** The array of the constructor; an index outside it gives [undefined],
    here [None]. *)
Definition palette : list string :=
  ["#ffcc33"%string; "#66ccff"%string; "#ff6699"%string].

(** [canvas.height = 350] *)
Definition height : Q := 350.

Section Canvas.
Context {host : Host}.
(** [canvas.width = window.innerWidth] *)
Variable width : Q.

(** [constructor()] *)
Definition newDot : Rand Dot :=
  (rx <- Math_random ;;
   ry <- Math_random ;;
   rdx <- Math_random ;;
   rdy <- Math_random ;;
   rc <- Math_random ;;
   ret (mkDot (rx * width) (ry * height) ((rdx - 0.5) * 1.2) ((rdy - 0.5) * 1.2)
              6 (nth_error palette (Z.to_nat (Math_floor (rc * 3))))))%rand.

(** The velocity after [if (this.x < 0 || this.x > L) this.dx *= -1]. *)
Definition bounce (L x v : Q) : Q :=
  if Qltb x 0 || Qltb L x then v * -1 else v.

(** [move()] *)
Definition move (d : Dot) : Dot :=
  let x' := x d + dx d in
  let y' := y d + dy d in
  mkDot x' y' (bounce width x' (dx d)) (bounce height y' (dy d))
        (size d) (color d).

(** [for (let i = 0; i < 18; i++) agents.push(new Agent())] *)
Definition dots : Rand (list Dot) := for_push (fun _ => newDot) 0 18.

(** The dots after [n] calls of [animate]. *)
Definition frame (n : nat) (ds : list Dot) : list Dot :=
  Nat.iter n (map move) ds.

End Canvas.

(** On the canvas, or off it by less than one step and heading back. *)
Definition near (L x v : Q) : Prop :=
  -0.6 <= v <= 0.6
  /\ (0 <= x <= L
      \/ (- v <= x < 0 /\ 0 <= v)
      \/ (L < x <= L - v /\ v <= 0)).

(** Off the canvas on an axis. *)
Definition off (L x : Q) : Prop := x < 0 \/ L < x.

End Backdrop.

(** ** Further concrete inputs and objects *)

(** Inputs without hazards (a negative number of them), inputs with two
    agents of every type, inputs for two greedy agents and no resource, and
    inputs for 501 agents. *)
Definition calmInputs : Inputs :=
  mkInputs (Some 3) (Some 50) (Some 50) (Some 0) (Some 2) (Some (-1)).
Definition mixedInputs : Inputs :=
  mkInputs (Some 6) (Some 1) (Some 1) (Some 1) (Some 2) (Some 2).
Definition noFoodInputs : Inputs :=
  mkInputs (Some 2) (Some 100) (Some 0) (Some 0) (Some (-1)) (Some 1).
Definition crowdInputs : Inputs :=
  mkInputs (Some 501) (Some 0) (Some 0) (Some 100) (Some 1) (Some 1).

(** A mobile hazard below the band, moving down. *)
Definition strayDanger : Danger.t := Danger.mk 200 355 6 true 0.25 0.5.

(** A dot to the right of a canvas of 1280 pixels. *)
Definition strayDot : Backdrop.Dot :=
  Backdrop.mkDot 1300 100 0.5 0.5 6 (Some "#ffcc33"%string).

(** A page in demo mode that runs, and one in data mode that runs. *)
Definition demoPage : Page := react (host := demoHost) (initPage (host := demoHost) demoInputs) ClickStart.
Definition dataPage : Page := react (host := demoHost) (initPage (host := demoHost) dozenInputs) ClickStart.

(** ** Arithmetic of the model *)

Lemma Qltb_lt (a b : Q) : Qltb a b = true <-> a < b.
Proof.
  unfold Qltb. rewrite negb_true_iff.
  split; intro Hab.
  - apply Qnot_le_lt. intro Hle. apply Qle_bool_iff in Hle. congruence.
  - destruct (Qle_bool b a) eqn:E; [|reflexivity].
    apply Qle_bool_iff in E. exfalso. apply (Qlt_not_le _ _ Hab E).
Qed.

Lemma Qltb_ge (a b : Q) : Qltb a b = false <-> b <= a.
Proof.
  unfold Qltb. rewrite negb_false_iff. apply Qle_bool_iff.
Qed.

Lemma clamp_bounds (v a b : Q) : a <= b -> a <= clamp v a b <= b.
Proof.
  intro Hab. unfold clamp, Math_max, Math_min. split.
  - apply Q.le_max_l.
  - apply Q.max_lub; [exact Hab | apply Q.le_min_l].
Qed.

Lemma clamp_lower (v a b : Q) : a <= clamp v a b.
Proof. unfold clamp, Math_max. apply Q.le_max_l. Qed.

Lemma clamp_inverted (v a b : Q) : b <= a -> clamp v a b == a.
Proof.
  intro Hba. unfold clamp, Math_max, Math_min.
  apply Q.max_l. eapply Qle_trans; [apply Q.le_min_l | exact Hba].
Qed.

Lemma for_push_Forall {A} (P : A -> Prop) (body : nat -> Rand A) :
  (forall i k, P (fst (body i k))) ->
  forall n i k, Forall P (fst (for_push body i n k)).
Proof.
  intros Hbody n. induction n as [|n IH]; intros i k; simpl.
  - constructor.
  - unfold bind. specialize (Hbody i k).
    destruct (body i k) as [a k1]. specialize (IH (S i) k1).
    destruct (for_push body (S i) n k1) as [l k2]. simpl in *.
    constructor; assumption.
Qed.

Lemma with_score_same (a : Agent.t) : Agent.with_score a (Agent.score a) = a.
Proof. destruct a; reflexivity. Qed.

(** ** The model on small inputs *)

Example Math_round_half_up :
  Math_round (5 # 2) = 3%Z /\ Math_round (-5 # 2) = (-2)%Z
  /\ Math_round (-1 # 2) = 0%Z /\ Math_round (7 # 5) = 1%Z.
Proof. repeat split; reflexivity. Qed.

Example Number_or_defaults :
  Number_or None 5 = 5 /\ Number_or (Some 0) 9 = 9
  /\ Number_or (Some (-3)) 5 = -3 /\ Number_or (Some 2.5) 5 = 2.5.
Proof. repeat split; reflexivity. Qed.

Example clamp_cases :
  clamp 5 12 388 = 12 /\ clamp 100 12 388 = 100 /\ clamp 400 12 388 = 388
  /\ clamp 7 12 (-2) = 12.
Proof. repeat split; reflexivity. Qed.

Example splice_removes_one : splice 1 [10; 20; 30] = [10; 30].
Proof. reflexivity. Qed.

Example spawn_counts_of_demo :
  greedyN demoInputs = 2%Z /\ cautiousN demoInputs = 2%Z
  /\ explorerN demoInputs = 0%Z /\ foodN demoInputs = 2%Z.
Proof. repeat split; reflexivity. Qed.

Example doubles_nearest :
  D_of_Q 0.1 = S754_finite false 7205759403792794 (-56)
  /\ D_of_Q 70 = D_of_Z 70
  /\ D_of_Q (9007199254740993) = D_of_Z 9007199254740992
  /\ D_value (D_of_Q (-0.75)) = Some (-3 # 4)
  /\ D_of_Q (2 ^ 1024) = S754_infinity false.
Proof. repeat split; vm_compute; reflexivity. Qed.

(** 45 agents at 70 to 30: the product of doubles is below 31.5 and 31
    greedy agents are made, where the exact product 63/2 would give 32. *)
Example spawn_counts_rounding :
  D_value (greedyShare roundingInputs) = Some (8866461766385663 # 281474976710656)
  /\ greedyN roundingInputs = 31%Z /\ cautiousN roundingInputs = 14%Z
  /\ explorerN roundingInputs = 0%Z
  /\ Math_round (70 / 100 * 45) = 32%Z.
Proof. repeat split; vm_compute; reflexivity. Qed.

(** Proportions 0.1, 0.2 and -0.3: the sum of the doubles is not zero, the
    shares are of the order of 10^15, and the call does not return. *)
Example spawn_counts_tiny_sum :
  D_value (mixTotal tinySumInputs) = Some (1 # 18014398509481984)
  /\ greedyN tinySumInputs = 1801439850948199%Z
  /\ spawnReturns tinySumInputs = false.
Proof. repeat split; vm_compute; reflexivity. Qed.

(** A negative number of agents is taken as N = 1; with one half greedy and
    one half cautious both shares round to 1, and two agents are made. *)
Example spawn_counts_negative :
  agentN (mkInputs (Some (-3)) (Some 50) (Some 50) (Some 0) (Some 1) (Some 1)) = 1%Z
  /\ greedyN (mkInputs (Some (-3)) (Some 50) (Some 50) (Some 0) (Some 1) (Some 1)) = 1%Z
  /\ cautiousN (mkInputs (Some (-3)) (Some 50) (Some 50) (Some 0) (Some 1) (Some 1)) = 1%Z
  /\ explorerN (mkInputs (Some (-3)) (Some 50) (Some 50) (Some 0) (Some 1) (Some 1)) = 0%Z.
Proof. repeat split; vm_compute; reflexivity. Qed.

Example hypot_micro_3_4_5 : hypot_micro 3 4 == 5.
Proof. reflexivity. Qed.

Example route_by_priority :
  Router.route Router.importance 60 [msgA; msgB] = [msgB]
  /\ Router.route Router.importance 100 [msgA; msgB] = [msgB; msgA]
  /\ Router.route Router.importance 40 [msgA; msgB] = [].
Proof. repeat split; reflexivity. Qed.

(** ** The index loops of the interactions *)

Lemma splice_middle {A} (pre suf : list A) (x : A) :
  splice (length pre) (pre ++ x :: suf) = pre ++ suf.
Proof.
  unfold splice. induction pre as [|p pre IH]; simpl.
  - reflexivity.
  - f_equal. exact IH.
Qed.

Lemma nth_error_middle {A} (pre suf : list A) (x : A) :
  nth_error (pre ++ x :: suf) (length pre) = Some x.
Proof.
  rewrite nth_error_app2 by lia. rewrite Nat.sub_diag. reflexivity.
Qed.

Section Interactions.
Context {host : Host}.

Lemma eat_prefix (pre : list Food.t) :
  forall (suf : list Food.t) (a : Agent.t) (s : Q),
    eat (length pre) a s (pre ++ suf)
    = (Agent.with_score a (gain a pre (Agent.score a)),
       gain a pre s,
       filter (fun f => negb (touches a f)) pre ++ suf).
Proof.
  induction pre as [|f pre IH] using rev_ind; intros suf a s.
  - simpl. rewrite with_score_same. reflexivity.
  - rewrite length_app, Nat.add_1_r, <- app_assoc. simpl.
    rewrite nth_error_middle.
    unfold gain. rewrite !filter_app, !fold_right_app. simpl.
    fold (touches a f).
    destruct (touches a f) eqn:Hf; simpl.
    + rewrite splice_middle, IH. rewrite <- app_assoc. reflexivity.
    + rewrite IH. rewrite <- app_assoc. reflexivity.
Qed.

(** The resource loop is a filter: it removes exactly the touched
    resources and adds their values. *)
Lemma eat_filter (fs : list Food.t) (a : Agent.t) (s : Q) :
  eat (length fs) a s fs
  = (Agent.with_score a (gain a fs (Agent.score a)),
     gain a fs s,
     filter (fun f => negb (touches a f)) fs).
Proof.
  pose proof (eat_prefix fs [] a s) as E.
  rewrite !app_nil_r in E. exact E.
Qed.

Lemma survivors_app (a : Agent.t) (p q : list Danger.t) (k : nat) :
  survivors a (p ++ q) k
  = (fst (survivors a p (snd (survivors a q k))) ++ fst (survivors a q k),
     snd (survivors a p (snd (survivors a q k)))).
Proof.
  induction p as [|d p IH]; simpl.
  - destruct (survivors a q k); reflexivity.
  - rewrite IH.
    destruct (survivors a q k) as [kq k1]; simpl.
    destruct (survivors a p k1) as [kp k2]; simpl.
    destruct (touches a d); [destruct (Qltb _ _)|]; reflexivity.
Qed.

Lemma survivors_with_score (a : Agent.t) (s : Q) (ds : list Danger.t) (k : nat) :
  survivors (Agent.with_score a s) ds k = survivors a ds k.
Proof.
  induction ds as [|d ds IH]; simpl; [reflexivity|].
  rewrite IH. reflexivity.
Qed.

Lemma hit_prefix (pre : list Danger.t) :
  forall (suf : list Danger.t) (a : Agent.t) (s : Q) (k : nat),
    hit (length pre) a s (pre ++ suf) k
    = (Agent.with_score a (loss a pre (Agent.score a)),
       loss a pre s,
       fst (survivors a pre k) ++ suf,
       snd (survivors a pre k)).
Proof.
  induction pre as [|d pre IH] using rev_ind; intros suf a s k.
  - simpl. rewrite with_score_same. reflexivity.
  - rewrite length_app, Nat.add_1_r, <- app_assoc. simpl.
    rewrite nth_error_middle.
    rewrite survivors_app.
    unfold loss. rewrite !filter_app, !fold_right_app. simpl.
    fold (touches a d).
    destruct (touches a d) eqn:Hd; simpl.
    + unfold bind, Math_random.
      destruct (Qltb (Math_random_seq k) 0.06) eqn:Hr.
      * rewrite splice_middle, IH, survivors_with_score. simpl.
        rewrite app_nil_r. reflexivity.
      * rewrite IH, survivors_with_score. simpl.
        rewrite <- app_assoc. reflexivity.
    + rewrite IH. simpl. rewrite <- app_assoc. reflexivity.
Qed.

(** The hazard loop subtracts the severity of every touched hazard and
    keeps the [survivors]. *)
Lemma hit_survivors (ds : list Danger.t) (a : Agent.t) (s : Q) (k : nat) :
  hit (length ds) a s ds k
  = (Agent.with_score a (loss a ds (Agent.score a)),
     loss a ds s,
     fst (survivors a ds k),
     snd (survivors a ds k)).
Proof.
  pose proof (hit_prefix ds [] a s k) as E.
  rewrite !app_nil_r in E. exact E.
Qed.

End Interactions.

(** ** One agent's turn and the loop over the agents *)

Section Turn.
Context {host : Host}.

Lemma agentTurn_eq (a : Agent.t) (w : World) (k : nat) :
  agentTurn a w k
  = (Agent.with_score (moved a w k)
       (loss (moved a w k) (w_dangers w)
          (gain (moved a w k) (w_foods w) (Agent.score (moved a w k)))),
     mkWorld
       (filter (fun f => negb (touches (moved a w k) f)) (w_foods w))
       (fst (survivors (moved a w k) (w_dangers w) (steered_draws a w k)))
       (loss (moved a w k) (w_dangers w)
          (gain (moved a w k) (w_foods w) (w_score w))),
     snd (survivors (moved a w k) (w_dangers w) (steered_draws a w k))).
Proof.
  unfold moved, steered_draws, agentTurn, bind.
  destruct (steer a (w_foods w) (w_dangers w) k) as [a1 k1]. simpl.
  rewrite eat_filter, hit_survivors, survivors_with_score. reflexivity.
Qed.

Lemma steer_score (a : Agent.t) (fs : list Food.t) (ds : list Danger.t) (k : nat) :
  Agent.score (fst (steer a fs ds k)) = Agent.score a.
Proof.
  unfold steer. destruct (Agent.type a); simpl.
  - unfold steerGreedy. destruct (seekBest _ _) as [[? ?]|]; reflexivity.
  - unfold steerCautious, driftToFood.
    assert (Hflee : Agent.score (flee a ds) = Agent.score a).
    { unfold flee. destruct (nearestDanger _ _) as [[nd near]|]; [|reflexivity].
      destruct (Qltb nd 120); reflexivity. }
    destruct fs as [|f fs]; [exact Hflee|].
    unfold bind, Math_random, ret.
    destruct (nth_error _ _); simpl; exact Hflee.
  - reflexivity.
Qed.

Lemma dampMove_score (a : Agent.t) : Agent.score (dampMove a) = Agent.score a.
Proof. reflexivity. Qed.

Lemma moved_score (a : Agent.t) (w : World) (k : nat) :
  Agent.score (moved a w k) = Agent.score a.
Proof. unfold moved. rewrite dampMove_score. apply steer_score. Qed.

Lemma survivors_incl (a : Agent.t) (ds : list Danger.t) (k : nat) :
  incl (fst (survivors a ds k)) ds.
Proof.
  induction ds as [|d ds IH]; simpl.
  - apply incl_refl.
  - destruct (survivors a ds k) as [kept k1]; simpl in *.
    destruct (touches a d); [destruct (Qltb _ _)|]; simpl.
    + apply incl_tl. exact IH.
    + apply incl_cons; [left; reflexivity | apply incl_tl; exact IH].
    + apply incl_cons; [left; reflexivity | apply incl_tl; exact IH].
Qed.

Lemma survivors_length (a : Agent.t) (ds : list Danger.t) (k : nat) :
  (length (fst (survivors a ds k)) <= length ds)%nat.
Proof.
  induction ds as [|d ds IH]; simpl; [lia|].
  destruct (survivors a ds k) as [kept k1]; simpl in *.
  destruct (touches a d); [destruct (Qltb _ _)|]; simpl; lia.
Qed.

(** An invariant of the world and a relation between an agent before and
    after its turn carry over from [agentTurn] to the whole loop. *)
Lemma agentLoop_inv (PA : Agent.t -> Agent.t -> Prop) (PW : World -> Prop) :
  (forall a w k, PW w ->
     PA a (fst (fst (agentTurn a w k))) /\ PW (snd (fst (agentTurn a w k)))) ->
  forall ags w k, PW w ->
    Forall2 PA ags (fst (fst (agentLoop ags w k)))
    /\ PW (snd (fst (agentLoop ags w k))).
Proof.
  intros Hturn ags. induction ags as [|a rest IH]; intros w k Hw; simpl.
  - split; [constructor | exact Hw].
  - unfold bind.
    destruct (Hturn a w k Hw) as [Ha Hw'].
    destruct (agentTurn a w k) as [[a' w'] k']. simpl in Ha, Hw'.
    destruct (IH w' k' Hw') as [Hrest Hw''].
    destruct (agentLoop rest w' k') as [[rest' w''] k'']. simpl in *.
    split; [constructor; assumption | exact Hw''].
Qed.

Lemma stepOnce_agents (st : State) :
  agents (stepOnce st)
  = fst (fst (agentLoop (agents st)
                (mkWorld (map moveFood (foods st))
                         (map moveDanger (dangers st)) (score st))
                (draws st))).
Proof.
  unfold stepOnce.
  destruct (agentLoop _ _ _) as [[ags w] k]. reflexivity.
Qed.

Lemma stepOnce_world (st : State) :
  mkWorld (foods (stepOnce st)) (dangers (stepOnce st)) (score (stepOnce st))
  = snd (fst (agentLoop (agents st)
                (mkWorld (map moveFood (foods st))
                         (map moveDanger (dangers st)) (score st))
                (draws st))).
Proof.
  unfold stepOnce.
  destruct (agentLoop _ _ _) as [[ags w] k].
  destruct w; reflexivity.
Qed.

End Turn.

(** ** The turns of one tick *)

Section TickStructure.
Context {host : Host}.

Lemma filter_filter_and {A} (p q : A -> bool) (l : list A) :
  filter p (filter q l) = filter (fun x => q x && p x) l.
Proof.
  induction l as [|x l IH]; simpl; [reflexivity|].
  destruct (q x); simpl; [destruct (p x)|]; rewrite IH; reflexivity.
Qed.

Lemma filter_all {A} (l : list A) : filter (fun _ => true) l = l.
Proof. induction l as [|x l IH]; simpl; [|rewrite IH]; reflexivity. Qed.

(** The resources that the loop over the agents leaves are the ones that
    no agent touches at its new place. *)
Lemma agentLoop_foods (ags : list Agent.t) :
  forall w k,
    w_foods (snd (fst (agentLoop ags w k)))
    = filter (untouched (fst (fst (agentLoop ags w k)))) (w_foods w).
Proof.
  induction ags as [|a rest IH]; intros w k; simpl.
  - symmetry. apply filter_all.
  - unfold bind. rewrite agentTurn_eq.
    specialize (IH (mkWorld
       (filter (fun f => negb (touches (moved a w k) f)) (w_foods w))
       (fst (survivors (moved a w k) (w_dangers w) (steered_draws a w k)))
       (loss (moved a w k) (w_dangers w)
          (gain (moved a w k) (w_foods w) (w_score w))))
       (snd (survivors (moved a w k) (w_dangers w) (steered_draws a w k)))).
    destruct (agentLoop rest _ _) as [[rest' w''] k'']. simpl in *.
    rewrite IH, filter_filter_and. reflexivity.
Qed.

Lemma survivors_keep (a : Agent.t) (ds : list Danger.t) (k : nat) (d : Danger.t) :
  In d ds -> touches a d = false -> In d (fst (survivors a ds k)).
Proof.
  induction ds as [|d0 ds IH]; simpl; [intros []|].
  intros Hin Hd. destruct (survivors a ds k) as [kept k1]. simpl in IH.
  destruct Hin as [->|Hin].
  - rewrite Hd. left. reflexivity.
  - destruct (touches a d0); [destruct (Qltb _ _)|]; simpl; auto.
Qed.

Lemma agentLoop_dangers (ags : list Agent.t) :
  forall w k,
    incl (w_dangers (snd (fst (agentLoop ags w k)))) (w_dangers w)
    /\ (forall d, In d (w_dangers w) ->
                  untouched (fst (fst (agentLoop ags w k))) d = true ->
                  In d (w_dangers (snd (fst (agentLoop ags w k))))).
Proof.
  induction ags as [|a rest IH]; intros w k; simpl.
  - split; [apply incl_refl | intros d Hd _; exact Hd].
  - unfold bind. rewrite agentTurn_eq.
    specialize (IH (mkWorld
       (filter (fun f => negb (touches (moved a w k) f)) (w_foods w))
       (fst (survivors (moved a w k) (w_dangers w) (steered_draws a w k)))
       (loss (moved a w k) (w_dangers w)
          (gain (moved a w k) (w_foods w) (w_score w))))
       (snd (survivors (moved a w k) (w_dangers w) (steered_draws a w k)))).
    destruct (agentLoop rest _ _) as [[rest' w''] k'']. simpl in *.
    destruct IH as [Hincl Hkeep]. split.
    + intros d Hd. apply (survivors_incl _ _ _ _ (Hincl d Hd)).
    + intros d Hd Hu. apply andb_true_iff in Hu. destruct Hu as [Ha Hrest].
      apply negb_true_iff in Ha.
      apply Hkeep; [|exact Hrest]. apply survivors_keep; assumption.
Qed.

Lemma stepOnce_draws (st : State) :
  draws (stepOnce st) = snd (agentLoop (agents st) (movedWorld st) (draws st)).
Proof.
  unfold stepOnce, movedWorld.
  destruct (agentLoop _ _ _) as [[ags w] k]. reflexivity.
Qed.

(** The turns of the loop over the agents, one after the other. *)
Lemma agentLoop_turns (ags : list Agent.t) :
  forall w k,
    nth_error (turnWorlds ags w k) (length ags)
    = Some (snd (fst (agentLoop ags w k)), snd (agentLoop ags w k))
    /\ (forall i a wi ki,
          nth_error ags i = Some a ->
          nth_error (turnWorlds ags w k) i = Some (wi, ki) ->
          nth_error (fst (fst (agentLoop ags w k))) i
          = Some (fst (fst (agentTurn a wi ki)))
          /\ nth_error (turnWorlds ags w k) (S i)
             = Some (snd (fst (agentTurn a wi ki)), snd (agentTurn a wi ki))).
Proof.
  induction ags as [|a rest IH]; intros w k.
  - split; [reflexivity|]. intros [|i] a wi ki Ha; discriminate Ha.
  - cbn [turnWorlds agentLoop length]. unfold bind.
    destruct (agentTurn a w k) as [[a' w'] k'] eqn:Et.
    destruct (IH w' k') as [Hlast Hturn].
    destruct (agentLoop rest w' k') as [[rest' w''] k''] eqn:El.
    cbn [fst snd] in *. split.
    + cbn [nth_error]. exact Hlast.
    + intros [|i] b wi ki Hb Hw.
      * cbn [nth_error] in *. injection Hb as <-. injection Hw as <- <-.
        rewrite Et. cbn [fst snd]. split; [reflexivity|].
        destruct rest; reflexivity.
      * cbn [nth_error] in Hb, Hw. cbn [nth_error].
        apply (Hturn i b wi ki Hb Hw).
Qed.


Lemma ticks_step (n : nat) :
  forall st i s s',
    nth_error (ticks n st) i = Some s ->
    nth_error (ticks n st) (S i) = Some s' -> s' = loop s.
Proof.
  induction n as [|n IH]; intros st i s s' Hs Hs'.
  - destruct i; discriminate Hs'.
  - cbn [ticks] in Hs, Hs'. destruct i as [|i].
    + cbn [nth_error] in Hs, Hs'. injection Hs as <-.
      destruct n; cbn [ticks nth_error] in Hs'; injection Hs' as <-; reflexivity.
    + cbn [nth_error] in Hs, Hs'. apply (IH (loop st) i s s' Hs Hs').
Qed.

Lemma loop_steps (st : State) :
  running st = true -> (length (agents st) <= 500)%nat -> loop st = stepOnce st.
Proof.
  intros Hr Hn. unfold loop. rewrite Hr.
  apply Nat.leb_le in Hn. rewrite Hn. reflexivity.
Qed.

Lemma stepOnce_same_crew (st : State) :
  length (agents (stepOnce st)) = length (agents st)
  /\ running (stepOnce st) = running st.
Proof.
  split.
  - rewrite stepOnce_agents. symmetry. eapply Forall2_length.
    apply (agentLoop_inv (fun _ _ => True) (fun _ => True)); [|exact I].
    intros a w k _. split; exact I.
  - unfold stepOnce. destruct (agentLoop _ _ _) as [[ags w] k]. reflexivity.
Qed.

Lemma loop_same_crew (st : State) :
  length (agents (loop st)) = length (agents st)
  /\ running (loop st) = running st.
Proof.
  unfold loop. destruct (running st) eqn:Er; [|split; [reflexivity | exact Er]].
  destruct (Nat.leb _ 500).
  - destruct (stepOnce_same_crew st) as [Hl Hr].
    split; [exact Hl | rewrite Hr; exact Er].
  - split; reflexivity.
Qed.

Lemma ticks_same_crew (n : nat) :
  forall st s, In s (ticks n st) ->
               length (agents s) = length (agents st) /\ running s = running st.
Proof.
  induction n as [|n IH]; intros st s Hs; cbn [ticks] in Hs.
  - destruct Hs as [<-|[]]. split; reflexivity.
  - destruct Hs as [<-|Hs]; [split; reflexivity|].
    destruct (IH (loop st) s Hs) as [Hl Hr].
    destruct (loop_same_crew st) as [Hl' Hr'].
    split; congruence.
Qed.

(** In a run with at most 500 agents every call of [loop] is a call of
    [stepOnce]. *)
Lemma history_steps (inp : Inputs) (n i : nat) (s s' : State) :
  (length (agents (spawnAll inp init)) <= 500)%nat ->
  nth_error (history inp n) i = Some s ->
  nth_error (history inp n) (S i) = Some s' -> s' = stepOnce s.
Proof.
  intros Hn Hs Hs'. unfold history in *.
  rewrite (ticks_step n _ i s s' Hs Hs').
  destruct (ticks_same_crew n _ s (nth_error_In _ _ Hs)) as [Hl Hr].
  cbn [agents running start] in Hl, Hr.
  apply loop_steps; [exact Hr | rewrite Hl; exact Hn].
Qed.

End TickStructure.

(** ** Collisions, scores and bounds *)

Section Contacts.
Context {host : Host}.

Lemma Forall2_right {A B} (P : B -> Prop) (l : list A) (l' : list B) :
  Forall2 (fun _ b => P b) l l' -> Forall P l'.
Proof. induction 1; constructor; assumption. Qed.

Lemma filter_negb_In {A} (p : A -> bool) (l : list A) (x : A) :
  In x (filter (fun y => negb (p y)) l) <-> In x l /\ p x = false.
Proof. rewrite filter_In, negb_true_iff. reflexivity. Qed.

(** C3 (as the code has it).  In every tick that [stepOnce] performs, and
    [loop] performs one for every tick while the page runs with at most 500
    agents, the agents take their turns in the order of the array, each in
    the world that the turns before it have left ([turnWorlds]).  In its
    turn, with [m] the agent after its move, the resources that [m]
    touches (distance below 14) are removed from the world and their values
    are added to the agent's score and to the total; the severity of every
    hazard that [m] touches is subtracted; a touched hazard draws
    [Math.random()] once and is removed when the draw is below 0.06, and
    survives the contact otherwise.  After the tick the world holds exactly
    the moved resources that no agent touches. *)
Theorem collisions_resolved (st : State) :
  let ws := turnWorlds (agents st) (movedWorld st) (draws st) in
  nth_error ws 0 = Some (movedWorld st, draws st)
  /\ nth_error ws (length (agents st))
     = Some (mkWorld (foods (stepOnce st)) (dangers (stepOnce st))
                     (score (stepOnce st)),
             draws (stepOnce st))
  /\ (forall i a w k,
        nth_error (agents st) i = Some a ->
        nth_error ws i = Some (w, k) ->
        let m := moved a w k in
        let k1 := steered_draws a w k in
        nth_error (agents (stepOnce st)) i
        = Some (Agent.with_score m
                  (loss m (w_dangers w) (gain m (w_foods w) (Agent.score a))))
        /\ nth_error ws (S i)
           = Some (mkWorld (filter (fun f => negb (touches m f)) (w_foods w))
                           (fst (survivors m (w_dangers w) k1))
                           (loss m (w_dangers w) (gain m (w_foods w) (w_score w))),
                   snd (survivors m (w_dangers w) k1)))
  /\ foods (stepOnce st)
     = filter (untouched (agents (stepOnce st))) (map moveFood (foods st))
  /\ (forall a d j,
        survivors a [d] j
        = if touches a d
          then (if Qltb (Math_random_seq j) 0.06 then [] else [d], S j)
          else ([d], j))
  /\ (running st = true -> (length (agents st) <= 500)%nat ->
      loop st = stepOnce st)
  /\ (forall inp n i s s',
        (length (agents (spawnAll inp init)) <= 500)%nat ->
        nth_error (history inp n) i = Some s ->
        nth_error (history inp n) (S i) = Some s' -> s' = stepOnce s).
Proof.
  intro ws.
  destruct (agentLoop_turns (agents st) (movedWorld st) (draws st))
    as [Hlast Hturn].
  split; [destruct (agents st); reflexivity|].
  split.
  { unfold ws. rewrite Hlast, stepOnce_draws.
    unfold movedWorld. rewrite <- stepOnce_world. reflexivity. }
  split.
  { intros i a w k Ha Hw m k1.
    destruct (Hturn i a w k Ha Hw) as [Hag Hnext].
    rewrite stepOnce_agents. fold (movedWorld st).
    unfold ws. rewrite Hag, Hnext.
    rewrite agentTurn_eq, (moved_score a w k). split; reflexivity. }
  split.
  { pose proof (agentLoop_foods (agents st) (movedWorld st) (draws st)) as E.
    unfold movedWorld in E. rewrite <- stepOnce_world, <- stepOnce_agents in E.
    exact E. }
  split.
  { intros a d j. simpl. destruct (touches a d); reflexivity. }
  split; [apply loop_steps|].
  intros inp n i s s'. apply history_steps.
Qed.

Lemma turn_score (F : list Food.t) (D : list Danger.t) (a : Agent.t) (w : World) (k : nat) :
  incl (w_foods w) F /\ incl (w_dangers w) D ->
  (exists eaten hits,
      incl eaten F /\ incl hits D
      /\ Forall (fun f => touches (fst (fst (agentTurn a w k))) f = true) eaten
      /\ Forall (fun d => touches (fst (fst (agentTurn a w k))) d = true) hits
      /\ Agent.score (fst (fst (agentTurn a w k)))
         = fold_right (fun d acc => acc - Danger.severity d)
             (fold_right (fun f acc => acc + Food.value f) (Agent.score a) eaten)
             hits)
  /\ (incl (w_foods (snd (fst (agentTurn a w k)))) F
      /\ incl (w_dangers (snd (fst (agentTurn a w k)))) D).
Proof.
  intros [HF HD]. rewrite agentTurn_eq, (moved_score a w k).
  cbn [fst snd w_foods w_dangers Agent.score Agent.with_score]. split.
  - exists (filter (touches (moved a w k)) (w_foods w)),
           (filter (touches (moved a w k)) (w_dangers w)).
    repeat split.
    + intros f Hf. apply HF. apply filter_In in Hf. tauto.
    + intros d Hd. apply HD. apply filter_In in Hd. tauto.
    + apply Forall_forall. intros f Hf. apply filter_In in Hf. tauto.
    + apply Forall_forall. intros d Hd. apply filter_In in Hd. tauto.
  - split.
    + intros f Hf. apply HF. apply filter_In in Hf. tauto.
    + intros d Hd. apply HD. apply (survivors_incl _ _ _ _ Hd).
Qed.

Lemma spawnAll_scores (inp : Inputs) (st : State) :
  Forall (fun a => Agent.score a = 0) (agents (spawnAll inp st)).
Proof.
  assert (Hnew : forall ty (i k : nat), Agent.score (fst (newAgent ty k)) = 0)
    by reflexivity.
  unfold spawnAll, bind.
  pose proof (for_push_Forall (fun a => Agent.score a = 0)
                (fun _ => newAgent greedy) (Hnew greedy)
                (Z.to_nat (greedyN inp)) 0%nat (draws st)) as Hg.
  destruct (for_push _ 0 (Z.to_nat (greedyN inp)) (draws st)) as [gs k1].
  pose proof (for_push_Forall (fun a => Agent.score a = 0)
                (fun _ => newAgent cautious) (Hnew cautious)
                (Z.to_nat (cautiousN inp)) 0%nat k1) as Hc.
  destruct (for_push _ 0 (Z.to_nat (cautiousN inp)) k1) as [cs k2].
  pose proof (for_push_Forall (fun a => Agent.score a = 0)
                (fun _ => newAgent explorer) (Hnew explorer)
                (Z.to_nat (explorerN inp)) 0%nat k2) as He.
  destruct (for_push _ 0 (Z.to_nat (explorerN inp)) k2) as [es k3].
  destruct (for_push newFood 0 (Z.to_nat (foodN inp)) k3) as [fs k4].
  destruct (for_push newDanger 0 (Z.to_nat (dangerN inp)) k4) as [ds k5].
  simpl in *. apply Forall_app. split; [exact Hg|].
  apply Forall_app. split; assumption.
Qed.

(** C4.  Over one tick every agent keeps its place in [agents], and its
    score changes by exactly the values of resources of this tick that it
    touches, added, and the severities of hazards of this tick that it
    touches, subtracted.  Steering, damping, moving and clamping keep the
    score, and so do [updateStats], the start and pause handlers, and a
    [loop] that is paused or in data mode above 500 agents.  The agents
    that [spawnAll] creates for a new run start from a score of 0. *)
Theorem score_changes_only_on_contact (inp : Inputs) (st : State) :
  Forall2
    (fun a a' =>
       exists eaten hits,
         incl eaten (map moveFood (foods st))
         /\ incl hits (map moveDanger (dangers st))
         /\ Forall (fun f => touches a' f = true) eaten
         /\ Forall (fun d => touches a' d = true) hits
         /\ Agent.score a'
            = fold_right (fun d acc => acc - Danger.severity d)
                (fold_right (fun f acc => acc + Food.value f) (Agent.score a) eaten)
                hits)
    (agents st) (agents (stepOnce st))
  /\ (forall a fs ds k, Agent.score (fst (steer a fs ds k)) = Agent.score a)
  /\ (forall a, Agent.score (dampMove a) = Agent.score a)
  /\ agents (updateStats st) = agents st
  /\ agents (start st) = agents st
  /\ agents (pause st) = agents st
  /\ agents (loop st)
     = (if running st && Nat.leb (length (agents st)) 500
        then agents (stepOnce st) else agents st)
  /\ Forall (fun a => Agent.score a = 0) (agents (spawnAll inp st)).
Proof.
  split; [|repeat split; try apply spawnAll_scores].
  - rewrite stepOnce_agents.
    apply (agentLoop_inv
             (fun a a' =>
                exists eaten hits,
                  incl eaten (map moveFood (foods st))
                  /\ incl hits (map moveDanger (dangers st))
                  /\ Forall (fun f => touches a' f = true) eaten
                  /\ Forall (fun d => touches a' d = true) hits
                  /\ Agent.score a'
                     = fold_right (fun d acc => acc - Danger.severity d)
                         (fold_right (fun f acc => acc + Food.value f)
                            (Agent.score a) eaten) hits)
             (fun w => incl (w_foods w) (map moveFood (foods st))
                       /\ incl (w_dangers w) (map moveDanger (dangers st)))).
    + intros a w k Hw. apply turn_score. exact Hw.
    + simpl. split; apply incl_refl.
  - apply steer_score.
  - unfold loop. destruct (running st); simpl; [|reflexivity].
    destruct (Nat.leb _ 500); reflexivity.
Qed.

Lemma moved_x (a : Agent.t) (w : World) (k : nat) :
  exists v, Agent.x (moved a w k) = clamp v 12 (canvasW - 12).
Proof. unfold moved, dampMove. simpl. eexists. reflexivity. Qed.

Lemma moved_y (a : Agent.t) (w : World) (k : nat) :
  exists v, Agent.y (moved a w k) = clamp v 12 (canvasH - 12).
Proof. unfold moved, dampMove. simpl. eexists. reflexivity. Qed.

Lemma clamp_in_canvas (v L : Q) : 12 <= L -> 0 <= clamp v 12 (L - 12) <= L.
Proof.
  intro HL. destruct (Qlt_le_dec L 24) as [Hsmall|Hbig].
  - assert (E : clamp v 12 (L - 12) == 12) by (apply clamp_inverted; lra).
    rewrite E. lra.
  - pose proof (clamp_bounds v 12 (L - 12)) as B. lra.
Qed.

(** C5.  On a canvas at least 12 pixels wide and high (the margin of the
    clamp), every agent ends every tick inside the canvas, wherever it was
    before the tick; on a canvas of at least 24 pixels it keeps the margin
    of 12 pixels to every edge. *)
Theorem agents_stay_in_world (st : State) :
  12 <= canvasW -> 12 <= canvasH ->
  Forall (fun a =>
            inWorld canvasW canvasH (Agent.x a) (Agent.y a)
            /\ (24 <= canvasW -> 12 <= Agent.x a <= canvasW - 12)
            /\ (24 <= canvasH -> 12 <= Agent.y a <= canvasH - 12))
         (agents (stepOnce st)).
Proof.
  intros HW HH. rewrite stepOnce_agents.
  eapply Forall2_right.
  apply (agentLoop_inv
           (fun _ a' =>
              inWorld canvasW canvasH (Agent.x a') (Agent.y a')
              /\ (24 <= canvasW -> 12 <= Agent.x a' <= canvasW - 12)
              /\ (24 <= canvasH -> 12 <= Agent.y a' <= canvasH - 12))
           (fun _ => True)); [|exact I].
  intros a w k _. split; [|exact I].
  rewrite agentTurn_eq. cbn [fst snd Agent.with_score Agent.x Agent.y].
  destruct (moved_x a w k) as [vx Ex]. destruct (moved_y a w k) as [vy Ey].
  rewrite Ex, Ey. unfold inWorld.
  split; [split; apply clamp_in_canvas; assumption|].
  split; intro Hbig; apply clamp_bounds; lra.
Qed.

End Contacts.

(** ** Passive motion of resources and hazards *)

Section PassiveMotion.
Context {host : Host}.

Lemma reflect_abs (L x v : Q) : Qabs (reflect L x v) == Qabs v.
Proof.
  unfold reflect. destruct (Qltb x 20 || Qltb (L - 20) x); [|reflexivity].
  setoid_replace (v * -1) with (- v) by ring. apply Qabs_opp.
Qed.

Lemma axisInv_on_canvas (L x v : Q) : 60 <= L -> axisInv L x v -> 0 <= x <= L.
Proof. unfold axisInv. intros HL [Hv Hx]. lra. Qed.

Lemma axisInv_step (L x v : Q) :
  60 <= L -> axisInv L x v -> axisInv L (x + v) (reflect L (x + v) v).
Proof.
  unfold axisInv, reflect. intros HL [Hv Hx].
  destruct (Qltb (x + v) 20) eqn:Elo; destruct (Qltb (L - 20) (x + v)) eqn:Ehi;
    simpl;
    try (apply Qltb_lt in Elo); try (apply Qltb_ge in Elo);
    try (apply Qltb_lt in Ehi); try (apply Qltb_ge in Ehi);
    lra.
Qed.

Lemma moveFood_inv (f : Food.t) :
  60 <= canvasW -> 60 <= canvasH -> foodInv f -> foodInv (moveFood f).
Proof.
  intros HW HH. unfold foodInv, moveFood.
  destruct (Food.mobile f) eqn:Em; [|rewrite Em; tauto].
  simpl. intros [Hx Hy]. split; apply axisInv_step; assumption.
Qed.

Lemma moveDanger_inv (d : Danger.t) :
  60 <= canvasW -> 60 <= canvasH -> dangerInv d -> dangerInv (moveDanger d).
Proof.
  intros HW HH. unfold dangerInv, moveDanger.
  destruct (Danger.mobile d) eqn:Em; [|rewrite Em; tauto].
  simpl. intros [Hx Hy]. split; apply axisInv_step; assumption.
Qed.

Lemma rand_between (r lo hi : Q) :
  0 <= r < 1 ->
  (lo <= hi -> lo <= r * (hi - lo) + lo <= hi)
  /\ (hi <= lo -> hi <= r * (hi - lo) + lo <= lo).
Proof.
  intros [Hr0 Hr1]. split; intro Hord.
  - assert (0 <= r * (hi - lo)) by (apply Qmult_le_0_compat; lra).
    assert (0 <= (1 - r) * (hi - lo)) by (apply Qmult_le_0_compat; lra).
    lra.
  - assert (0 <= r * (lo - hi)) by (apply Qmult_le_0_compat; lra).
    assert (0 <= (1 - r) * (lo - hi)) by (apply Qmult_le_0_compat; lra).
    lra.
Qed.

Lemma spawn_inBand (r L : Q) : 0 <= r < 1 -> 60 <= L -> inBand L (r * (L - 40 - 40) + 40).
Proof.
  intros Hr HL. unfold inBand.
  destruct (rand_between r 40 (L - 40) Hr) as [Hup Hdown].
  destruct (Qlt_le_dec L 80) as [Hs|Hb].
  - assert (L - 40 <= 40) as Hord by lra. specialize (Hdown Hord). lra.
  - assert (40 <= L - 40) as Hord by lra. specialize (Hup Hord). lra.
Qed.

Lemma inBand_axisInv (L x v : Q) : -1 <= v <= 1 -> inBand L x -> axisInv L x v.
Proof. unfold inBand, axisInv. intros Hv Hx. split; [exact Hv | left; exact Hx]. Qed.

Lemma newFood_inv (i k : nat) :
  random_in_range -> 60 <= canvasW -> 60 <= canvasH -> foodInv (fst (newFood i k)).
Proof.
  intros Hr HW HH. unfold newFood, rand, bind, Math_random, ret, foodInv. simpl.
  pose proof (spawn_inBand _ _ (Hr k) HW) as Bx.
  pose proof (spawn_inBand _ _ (Hr (S k)) HH) as By.
  pose proof (Hr (S (S (S k)))) as R3. pose proof (Hr (S (S (S (S k))))) as R4.
  destruct (Qltb _ _); [|tauto].
  split; apply inBand_axisInv; try assumption; lra.
Qed.

Lemma newDanger_inv (i k : nat) :
  random_in_range -> 60 <= canvasW -> 60 <= canvasH -> dangerInv (fst (newDanger i k)).
Proof.
  intros Hr HW HH. unfold newDanger, rand, bind, Math_random, ret, dangerInv. simpl.
  pose proof (spawn_inBand _ _ (Hr k) HW) as Bx.
  pose proof (spawn_inBand _ _ (Hr (S k)) HH) as By.
  pose proof (Hr (S (S (S k)))) as R3. pose proof (Hr (S (S (S (S k))))) as R4.
  destruct (Qltb _ _); [|tauto].
  split; apply inBand_axisInv; try assumption; lra.
Qed.

Lemma spawnAll_items (inp : Inputs) (st : State) :
  exists k1 k2,
    foods (spawnAll inp st) = fst (for_push newFood 0 (Z.to_nat (foodN inp)) k1)
    /\ dangers (spawnAll inp st)
       = fst (for_push newDanger 0 (Z.to_nat (dangerN inp)) k2).
Proof.
  unfold spawnAll, bind.
  destruct (for_push _ 0 (Z.to_nat (greedyN inp)) (draws st)) as [gs k1].
  destruct (for_push _ 0 (Z.to_nat (cautiousN inp)) k1) as [cs k2].
  destruct (for_push _ 0 (Z.to_nat (explorerN inp)) k2) as [es k3].
  exists k3.
  destruct (for_push newFood 0 (Z.to_nat (foodN inp)) k3) as [fs k4].
  exists k4.
  destruct (for_push newDanger 0 (Z.to_nat (dangerN inp)) k4) as [ds k5].
  split; reflexivity.
Qed.

Lemma spawnAll_inv (inp : Inputs) (st : State) :
  random_in_range -> 60 <= canvasW -> 60 <= canvasH -> itemsInv (spawnAll inp st).
Proof.
  intros Hr HW HH. destruct (spawnAll_items inp st) as (k1 & k2 & Ef & Ed).
  unfold itemsInv. rewrite Ef, Ed. split; apply for_push_Forall; intros i k.
  - apply newFood_inv; assumption.
  - apply newDanger_inv; assumption.
Qed.

Lemma Forall_incl {A} (P : A -> Prop) (l l' : list A) :
  incl l' l -> Forall P l -> Forall P l'.
Proof.
  intros Hincl Hall. apply Forall_forall. intros x Hx.
  rewrite Forall_forall in Hall. apply Hall, Hincl, Hx.
Qed.

Lemma stepOnce_inv (st : State) :
  60 <= canvasW -> 60 <= canvasH -> itemsInv st -> itemsInv (stepOnce st).
Proof.
  intros HW HH [Hf Hd]. unfold itemsInv.
  change (Forall foodInv (w_foods (mkWorld (foods (stepOnce st))
                                     (dangers (stepOnce st)) (score (stepOnce st))))
          /\ Forall dangerInv (w_dangers (mkWorld (foods (stepOnce st))
                                      (dangers (stepOnce st)) (score (stepOnce st))))).
  rewrite stepOnce_world.
  apply (agentLoop_inv (fun _ _ => True)
           (fun w => Forall foodInv (w_foods w) /\ Forall dangerInv (w_dangers w))).
  - intros a w k [Hwf Hwd]. split; [exact I|].
    rewrite agentTurn_eq. cbn [fst snd w_foods w_dangers]. split.
    + apply (Forall_incl _ (w_foods w)); [apply incl_filter | exact Hwf].
    + apply (Forall_incl _ (w_dangers w)); [apply survivors_incl | exact Hwd].
  - simpl. split; apply Forall_map.
    + eapply Forall_impl; [|exact Hf]. intros f. apply moveFood_inv; assumption.
    + eapply Forall_impl; [|exact Hd]. intros d. apply moveDanger_inv; assumption.
Qed.

Lemma loop_inv (st : State) :
  60 <= canvasW -> 60 <= canvasH -> itemsInv st -> itemsInv (loop st).
Proof.
  intros HW HH Hst. unfold loop.
  destruct (running st); [|exact Hst].
  destruct (Nat.leb (length (agents st)) 500); [|exact Hst].
  apply stepOnce_inv; assumption.
Qed.

Lemma ticks_inv (n : nat) :
  60 <= canvasW -> 60 <= canvasH ->
  forall st, itemsInv st -> forall s, In s (ticks n st) -> itemsInv s.
Proof.
  intros HW HH. induction n as [|n IH]; intros st Hst s Hs; simpl in Hs.
  - destruct Hs as [<-|[]]. exact Hst.
  - destruct Hs as [<-|Hs]; [exact Hst|].
    apply (IH (loop st)); [apply loop_inv; assumption | exact Hs].
Qed.

Lemma moveFood_bounced (f : Food.t) :
  if Food.mobile f
  then bounced canvasW (Food.x f) (Food.vx f)
               (Food.x (moveFood f)) (Food.vx (moveFood f))
       /\ bounced canvasH (Food.y f) (Food.vy f)
                  (Food.y (moveFood f)) (Food.vy (moveFood f))
       /\ Food.mobile (moveFood f) = true
       /\ Food.value (moveFood f) = Food.value f
  else moveFood f = f.
Proof.
  unfold moveFood. destruct (Food.mobile f); [|reflexivity].
  cbn [Food.x Food.y Food.vx Food.vy Food.mobile Food.value]. unfold bounced.
  repeat split; apply reflect_abs.
Qed.

Lemma moveDanger_bounced (d : Danger.t) :
  if Danger.mobile d
  then bounced canvasW (Danger.x d) (Danger.vx d)
               (Danger.x (moveDanger d)) (Danger.vx (moveDanger d))
       /\ bounced canvasH (Danger.y d) (Danger.vy d)
                  (Danger.y (moveDanger d)) (Danger.vy (moveDanger d))
       /\ Danger.mobile (moveDanger d) = true
       /\ Danger.severity (moveDanger d) = Danger.severity d
  else moveDanger d = d.
Proof.
  unfold moveDanger. destruct (Danger.mobile d); [|reflexivity].
  cbn [Danger.x Danger.y Danger.vx Danger.vy Danger.mobile Danger.severity].
  unfold bounced. repeat split; apply reflect_abs.
Qed.

Lemma foodInv_inWorld (f : Food.t) :
  60 <= canvasW -> 60 <= canvasH -> foodInv f ->
  inWorld canvasW canvasH (Food.x f) (Food.y f).
Proof.
  intros HW HH. unfold foodInv, inWorld, inBand.
  destruct (Food.mobile f).
  - intros [Hx Hy]. split; eapply axisInv_on_canvas; eassumption.
  - intros [Hx Hy]. lra.
Qed.

Lemma dangerInv_inWorld (d : Danger.t) :
  60 <= canvasW -> 60 <= canvasH -> dangerInv d ->
  inWorld canvasW canvasH (Danger.x d) (Danger.y d).
Proof.
  intros HW HH. unfold dangerInv, inWorld, inBand.
  destruct (Danger.mobile d).
  - intros [Hx Hy]. split; eapply axisInv_on_canvas; eassumption.
  - intros [Hx Hy]. lra.
Qed.

(** C6 (as the code has it).  The passive-motion update moves every
    mobile resource and hazard by its velocity on both axes, keeps the
    magnitude of the velocity and changes its sign exactly when the new
    coordinate is outside the band from 20 to the canvas size less 20; an
    item that is not mobile is not changed.  Every tick that [stepOnce]
    performs, and [loop] performs one for every tick while the page runs
    with at most 500 agents, applies the update to every resource and
    hazard before the agents take their turns: the resources after the tick
    are the updated ones that no agent touches, and the hazards after the
    tick are updated ones, among them all that no agent touches.  In a run
    in which the canvas keeps its size, of at least 60 by 60 pixels, every
    resource and hazard is on the canvas in every state, before and after
    the update. *)
Theorem passive_motion_reflects (inp : Inputs) (n : nat) (st : State) :
  (forall f,
      if Food.mobile f
      then bounced canvasW (Food.x f) (Food.vx f)
                   (Food.x (moveFood f)) (Food.vx (moveFood f))
           /\ bounced canvasH (Food.y f) (Food.vy f)
                      (Food.y (moveFood f)) (Food.vy (moveFood f))
           /\ Food.mobile (moveFood f) = true
           /\ Food.value (moveFood f) = Food.value f
      else moveFood f = f)
  /\ (forall d,
        if Danger.mobile d
        then bounced canvasW (Danger.x d) (Danger.vx d)
                     (Danger.x (moveDanger d)) (Danger.vx (moveDanger d))
             /\ bounced canvasH (Danger.y d) (Danger.vy d)
                        (Danger.y (moveDanger d)) (Danger.vy (moveDanger d))
             /\ Danger.mobile (moveDanger d) = true
             /\ Danger.severity (moveDanger d) = Danger.severity d
        else moveDanger d = d)
  /\ foods (stepOnce st)
     = filter (untouched (agents (stepOnce st))) (map moveFood (foods st))
  /\ incl (dangers (stepOnce st)) (map moveDanger (dangers st))
  /\ (forall d, In d (map moveDanger (dangers st)) ->
                untouched (agents (stepOnce st)) d = true ->
                In d (dangers (stepOnce st)))
  /\ (running st = true -> (length (agents st) <= 500)%nat ->
      loop st = stepOnce st)
  /\ (forall i s s',
        (length (agents (spawnAll inp init)) <= 500)%nat ->
        nth_error (history inp n) i = Some s ->
        nth_error (history inp n) (S i) = Some s' -> s' = stepOnce s)
  /\ (random_in_range -> 60 <= canvasW -> 60 <= canvasH ->
      In st (history inp n) ->
      Forall (fun f =>
                inWorld canvasW canvasH (Food.x f) (Food.y f)
                /\ inWorld canvasW canvasH (Food.x (moveFood f)) (Food.y (moveFood f)))
             (foods st)
      /\ Forall (fun d =>
                   inWorld canvasW canvasH (Danger.x d) (Danger.y d)
                   /\ inWorld canvasW canvasH (Danger.x (moveDanger d))
                              (Danger.y (moveDanger d)))
                (dangers st)).
Proof.
  split; [exact moveFood_bounced|]. split; [exact moveDanger_bounced|].
  split.
  { pose proof (agentLoop_foods (agents st) (movedWorld st) (draws st)) as E.
    unfold movedWorld in E. rewrite <- stepOnce_world, <- stepOnce_agents in E.
    exact E. }
  pose proof (agentLoop_dangers (agents st) (movedWorld st) (draws st)) as D.
  unfold movedWorld in D. rewrite <- stepOnce_world, <- stepOnce_agents in D.
  cbn [w_dangers] in D. destruct D as [Dincl Dkeep].
  split; [exact Dincl|]. split; [exact Dkeep|].
  split; [apply loop_steps|].
  split; [intros i s s'; apply history_steps|].
  intros Hr HW HH Hst.
  assert (Hinv : itemsInv st).
  { apply (ticks_inv n HW HH (start (spawnAll inp init))); [|exact Hst].
    apply (spawnAll_inv inp init); assumption. }
  destruct Hinv as [Hf Hd]. split.
  - eapply Forall_impl; [|exact Hf]. intros f Hinv. split.
    + apply foodInv_inWorld; assumption.
    + apply foodInv_inWorld; try assumption. apply moveFood_inv; assumption.
  - eapply Forall_impl; [|exact Hd]. intros d Hinv. split.
    + apply dangerInv_inWorld; assumption.
    + apply dangerInv_inWorld; try assumption. apply moveDanger_inv; assumption.
Qed.

End PassiveMotion.

(** ** The strategies *)

Section Strategies.
Context {host : Host}.

Lemma seekBest_from (a : Agent.t) (fs seen : list Food.t) (acc : option (Q * Food.t)) :
  match acc with
  | None => seen = []
  | Some (s, b) =>
      s = foodScore a b /\ In b seen /\ forall f, In f seen -> foodScore a f <= s
  end ->
  match fold_left
          (fun acc f =>
             let s := foodScore a f in
             match acc with
             | None => Some (s, f)
             | Some (bestScore, _) => if Qltb bestScore s then Some (s, f) else acc
             end) fs acc
  with
  | None => seen ++ fs = []
  | Some (s, b) =>
      s = foodScore a b /\ In b (seen ++ fs)
      /\ forall f, In f (seen ++ fs) -> foodScore a f <= s
  end.
Proof.
  revert seen acc. induction fs as [|f fs IH]; intros seen acc Hacc; simpl.
  - rewrite app_nil_r. exact Hacc.
  - replace (seen ++ f :: fs) with ((seen ++ [f]) ++ fs)
      by (rewrite <- app_assoc; reflexivity).
    apply IH. destruct acc as [[s b]|].
    + destruct Hacc as (Hs & Hb & Hmax).
      destruct (Qltb s (foodScore a f)) eqn:Hlt.
      * apply Qltb_lt in Hlt. split; [reflexivity|]. split.
        -- apply in_or_app. right. left. reflexivity.
        -- intros g Hg. apply in_app_or in Hg. destruct Hg as [Hg|[<-|[]]].
           ++ apply Qlt_le_weak. eapply Qle_lt_trans; [apply Hmax, Hg | exact Hlt].
           ++ apply Qle_refl.
      * apply Qltb_ge in Hlt. split; [exact Hs|]. split.
        -- apply in_or_app. left. exact Hb.
        -- intros g Hg. apply in_app_or in Hg. destruct Hg as [Hg|[<-|[]]].
           ++ apply Hmax, Hg.
           ++ exact Hlt.
    + subst seen. split; [reflexivity|]. split.
      * left. reflexivity.
      * intros g [<-|[]]. apply Qle_refl.
Qed.

(** The target of the greedy search is a resource of the array whose
    [value - dist*0.02] no other resource exceeds. *)
Lemma seekBest_max (a : Agent.t) (fs : list Food.t) :
  fs <> [] ->
  exists best,
    seekBest a fs = Some (foodScore a best, best)
    /\ In best fs
    /\ forall f, In f fs -> foodScore a f <= foodScore a best.
Proof.
  intro Hne. pose proof (seekBest_from a fs [] None eq_refl) as Hfold.
  unfold seekBest. simpl in Hfold.
  destruct (fold_left _ fs None) as [[s b]|].
  - destruct Hfold as (Hs & Hb & Hmax). subst s. exists b. auto.
  - contradiction.
Qed.

Lemma nearestDanger_from (a : Agent.t) (ds seen : list Danger.t)
      (acc : option (Q * Danger.t)) :
  match acc with
  | None => seen = []
  | Some (nd, near) =>
      nd = dist a near /\ In near seen /\ forall d, In d seen -> nd <= dist a d
  end ->
  match fold_left
          (fun acc d =>
             let dd := dist a d in
             match acc with
             | None => Some (dd, d)
             | Some (nd, _) => if Qltb dd nd then Some (dd, d) else acc
             end) ds acc
  with
  | None => seen ++ ds = []
  | Some (nd, near) =>
      nd = dist a near /\ In near (seen ++ ds)
      /\ forall d, In d (seen ++ ds) -> nd <= dist a d
  end.
Proof.
  revert seen acc. induction ds as [|d ds IH]; intros seen acc Hacc; simpl.
  - rewrite app_nil_r. exact Hacc.
  - replace (seen ++ d :: ds) with ((seen ++ [d]) ++ ds)
      by (rewrite <- app_assoc; reflexivity).
    apply IH. destruct acc as [[nd near]|].
    + destruct Hacc as (Hs & Hb & Hmin).
      destruct (Qltb (dist a d) nd) eqn:Hlt.
      * apply Qltb_lt in Hlt. split; [reflexivity|]. split.
        -- apply in_or_app. right. left. reflexivity.
        -- intros g Hg. apply in_app_or in Hg. destruct Hg as [Hg|[<-|[]]].
           ++ apply Qlt_le_weak. eapply Qlt_le_trans; [exact Hlt | apply Hmin, Hg].
           ++ apply Qle_refl.
      * apply Qltb_ge in Hlt. split; [exact Hs|]. split.
        -- apply in_or_app. left. exact Hb.
        -- intros g Hg. apply in_app_or in Hg. destruct Hg as [Hg|[<-|[]]].
           ++ apply Hmin, Hg.
           ++ exact Hlt.
    + subst seen. split; [reflexivity|]. split.
      * left. reflexivity.
      * intros g [<-|[]]. apply Qle_refl.
Qed.

(** The hazard a cautious agent looks at is one of the array that no other
    hazard is closer than. *)
Lemma nearestDanger_min (a : Agent.t) (ds : list Danger.t) :
  ds <> [] ->
  exists near,
    nearestDanger a ds = Some (dist a near, near)
    /\ In near ds
    /\ forall d, In d ds -> dist a near <= dist a d.
Proof.
  intro Hne. pose proof (nearestDanger_from a ds [] None eq_refl) as Hfold.
  unfold nearestDanger. simpl in Hfold.
  destruct (fold_left _ ds None) as [[nd near]|].
  - destruct Hfold as (Hs & Hb & Hmin). subst nd. exists near. auto.
  - contradiction.
Qed.

Lemma hypot_or_1_pos (dx dy : Q) :
  (forall u v, 0 <= Math_hypot u v) -> 0 < hypot_or_1 dx dy.
Proof.
  intro Hnn. unfold hypot_or_1.
  destruct (Qeq_bool (Math_hypot dx dy) 0) eqn:E.
  - reflexivity.
  - apply Qeq_bool_neq in E. specialize (Hnn dx dy).
    apply Qle_lteq in Hnn. destruct Hnn as [Hlt|Heq]; [exact Hlt|].
    exfalso. apply E. symmetry. exact Heq.
Qed.

(** C7 (as the code has it).  With a non-negative [Math.hypot], a greedy
    agent that knows at least one resource accelerates by 0.05 towards a
    resource [best] whose [value - dist*0.02] no other resource exceeds, by
    the vector to [best] divided by its positive length [m]; it draws no
    random number, and the hazards have no part in the decision, whatever
    their distance. *)
Theorem greedy_targets_best (a : Agent.t) (fs : list Food.t) (ds : list Danger.t)
        (k : nat) :
  (forall u v, 0 <= Math_hypot u v) ->
  Agent.type a = greedy ->
  fs <> [] ->
  exists best,
    In best fs
    /\ (forall f, In f fs -> foodScore a f <= foodScore a best)
    /\ (let dx := Food.x best - Agent.x a in
        let dy := Food.y best - Agent.y a in
        let m := hypot_or_1 dx dy in
        0 < m
        /\ steer a fs ds k
           = (Agent.with_v a (Agent.vx a + dx / m * 0.05)
                             (Agent.vy a + dy / m * 0.05), k))
    /\ (forall ds', steer a fs ds' k = steer a fs ds k).
Proof.
  intros Hnn Hty Hne.
  destruct (seekBest_max a fs Hne) as (best & Hseek & Hin & Hmax).
  exists best. split; [exact Hin|]. split; [exact Hmax|]. split.
  - split; [apply hypot_or_1_pos; exact Hnn|].
    unfold steer. rewrite Hty. unfold steerGreedy. rewrite Hseek. reflexivity.
  - intro ds'. unfold steer. rewrite Hty. reflexivity.
Qed.

Lemma random_index (r : Q) (n : nat) :
  0 <= r < 1 -> (0 < n)%nat ->
  (Z.to_nat (Math_floor (r * inject_Z (Z.of_nat n))) < n)%nat.
Proof.
  intros [Hr0 Hr1] Hn. unfold Math_floor.
  set (q := r * inject_Z (Z.of_nat n)).
  assert (Hn0 : 0 < inject_Z (Z.of_nat n)).
  { change 0 with (inject_Z 0). rewrite <- Zlt_Qlt. lia. }
  assert (Hq0 : 0 <= q) by (apply Qmult_le_0_compat; lra).
  assert (Hq1 : q < inject_Z (Z.of_nat n)).
  { unfold q.
    assert (0 < (1 - r) * inject_Z (Z.of_nat n)) by (apply Qmult_lt_0_compat; lra).
    lra. }
  assert (Hlo : (0 <= Qfloor q)%Z).
  { change 0%Z with (Qfloor 0). apply Qfloor_resp_le. exact Hq0. }
  assert (Hhi : (Qfloor q < Z.of_nat n)%Z).
  { rewrite Zlt_Qlt. eapply Qle_lt_trans; [apply Qfloor_le | exact Hq1]. }
  lia.
Qed.

Lemma flee_pos (a : Agent.t) (ds : list Danger.t) :
  Agent.x (flee a ds) = Agent.x a /\ Agent.y (flee a ds) = Agent.y a.
Proof.
  unfold flee. destruct (nearestDanger a ds) as [[nd near]|]; [|tauto].
  destruct (Qltb nd 120); split; reflexivity.
Qed.

(** C8 (as the code has it).  A cautious agent accelerates away from the
    nearest hazard, by 0.003 of the offset, when a hazard is nearer than
    120, and is not moved by the hazards otherwise; in both cases, while a
    resource exists, it draws one random number and adds 0.0008 of the
    offset to the resource at the drawn index, and without resources it
    draws nothing. *)
Theorem cautious_flees_and_drifts (a : Agent.t) (fs : list Food.t)
        (ds : list Danger.t) (k : nat) :
  random_in_range ->
  Agent.type a = cautious ->
  ((exists d, In d ds /\ dist a d < 120) ->
   exists near,
     In near ds
     /\ (forall d, In d ds -> dist a near <= dist a d)
     /\ flee a ds
        = Agent.with_v a (Agent.vx a + (Agent.x a - Danger.x near) * 0.003)
                         (Agent.vy a + (Agent.y a - Danger.y near) * 0.003))
  /\ ((forall d, In d ds -> 120 <= dist a d) -> flee a ds = a)
  /\ (fs = [] -> steer a fs ds k = (flee a ds, k))
  /\ (fs <> [] ->
      exists any,
        nth_error fs (Z.to_nat (Math_floor (Math_random_seq k
                                            * inject_Z (Z.of_nat (length fs)))))
        = Some any
        /\ steer a fs ds k
           = (Agent.with_v (flee a ds)
                (Agent.vx (flee a ds) + (Food.x any - Agent.x a) * 0.0008)
                (Agent.vy (flee a ds) + (Food.y any - Agent.y a) * 0.0008),
              S k)).
Proof.
  intros Hr Hty. split; [|split; [|split]].
  - intros (d & Hd & Hclose).
    assert (Hne : ds <> []) by (intro E; subst ds; destruct Hd).
    destruct (nearestDanger_min a ds Hne) as (near & Hnear & Hin & Hmin).
    exists near. split; [exact Hin|]. split; [exact Hmin|].
    unfold flee. rewrite Hnear.
    assert (Hlt : Qltb (dist a near) 120 = true).
    { apply Qltb_lt. eapply Qle_lt_trans; [apply Hmin, Hd | exact Hclose]. }
    rewrite Hlt. reflexivity.
  - intro Hfar. unfold flee.
    destruct ds as [|d0 ds0]; [reflexivity|].
    destruct (nearestDanger_min a (d0 :: ds0)) as (near & Hnear & Hin & Hmin);
      [discriminate|].
    rewrite Hnear.
    assert (Hge : Qltb (dist a near) 120 = false) by (apply Qltb_ge, Hfar, Hin).
    rewrite Hge. reflexivity.
  - intros ->. unfold steer. rewrite Hty. reflexivity.
  - intro Hne. unfold steer. rewrite Hty.
    unfold steerCautious, driftToFood.
    destruct fs as [|f0 fs0]; [contradiction|].
    unfold bind, Math_random, ret.
    destruct (flee_pos a ds) as [Ex Ey]. rewrite Ex, Ey.
    destruct (nth_error (f0 :: fs0) _) as [any|] eqn:Eidx.
    + exists any. split; reflexivity.
    + exfalso. apply nth_error_None in Eidx.
      pose proof (random_index (Math_random_seq k) (length (f0 :: fs0)) (Hr k)) as Hlt.
      simpl in Hlt, Eidx. lia.
Qed.

End Strategies.

(** ** Spawning and the statistics panel *)

Section Spawning.
Context {host : Host}.

Lemma for_push_length {A} (body : nat -> Rand A) (n : nat) :
  forall i k, length (fst (for_push body i n k)) = n.
Proof.
  induction n as [|n IH]; intros i k; simpl; [reflexivity|].
  unfold bind. destruct (body i k) as [a k1]. specialize (IH (S i) k1).
  destruct (for_push body (S i) n k1) as [l k2]. simpl in *. congruence.
Qed.

Lemma spawnAll_counts (inp : Inputs) (st : State) :
  length (agents (spawnAll inp st))
  = (Z.to_nat (greedyN inp) + Z.to_nat (cautiousN inp) + Z.to_nat (explorerN inp))%nat
  /\ length (foods (spawnAll inp st)) = Z.to_nat (foodN inp)
  /\ length (dangers (spawnAll inp st)) = Z.to_nat (dangerN inp)
  /\ tick (spawnAll inp st) = 0%nat
  /\ score (spawnAll inp st) = 0.
Proof.
  unfold spawnAll, bind.
  pose proof (for_push_length (fun _ => newAgent greedy) (Z.to_nat (greedyN inp)) 0 (draws st)) as Lg.
  destruct (for_push _ 0 (Z.to_nat (greedyN inp)) (draws st)) as [gs k1].
  pose proof (for_push_length (fun _ => newAgent cautious) (Z.to_nat (cautiousN inp)) 0 k1) as Lc.
  destruct (for_push _ 0 (Z.to_nat (cautiousN inp)) k1) as [cs k2].
  pose proof (for_push_length (fun _ => newAgent explorer) (Z.to_nat (explorerN inp)) 0 k2) as Le.
  destruct (for_push _ 0 (Z.to_nat (explorerN inp)) k2) as [es k3].
  pose proof (for_push_length newFood (Z.to_nat (foodN inp)) 0 k3) as Lf.
  destruct (for_push newFood 0 (Z.to_nat (foodN inp)) k3) as [fs k4].
  pose proof (for_push_length newDanger (Z.to_nat (dangerN inp)) 0 k4) as Ld.
  destruct (for_push newDanger 0 (Z.to_nat (dangerN inp)) k4) as [ds k5].
  simpl in *. rewrite !length_app. repeat split; lia.
Qed.

Lemma stepOnce_tick (st : State) : tick (stepOnce st) = S (tick st).
Proof.
  unfold stepOnce. destruct (agentLoop _ _ _) as [[ags w] k]. reflexivity.
Qed.






Lemma updateStats_shown (st : State) : scoreShown (updateStats st).
Proof. reflexivity. Qed.

Lemma spawnAll_shown (inp : Inputs) (st : State) : scoreShown (spawnAll inp st).
Proof.
  unfold spawnAll.
  destruct (bind _ _ (draws st)) as [[[ags fs] ds] k]. apply updateStats_shown.
Qed.

Lemma stepOnce_shown (st : State) : scoreShown (stepOnce st).
Proof.
  unfold stepOnce. destruct (agentLoop _ _ _) as [[ags w] k].
  apply updateStats_shown.
Qed.

Lemma loop_shown (st : State) : scoreShown st -> scoreShown (loop st).
Proof.
  intro Hst. unfold loop.
  destruct (running st); [|exact Hst].
  destruct (Nat.leb (length (agents st)) 500).
  - apply stepOnce_shown.
  - apply updateStats_shown.
Qed.

Lemma ticks_shown (n : nat) :
  forall st, scoreShown st -> forall s, In s (ticks n st) -> scoreShown s.
Proof.
  induction n as [|n IH]; intros st Hst s Hs; simpl in Hs.
  - destruct Hs as [<-|[]]. exact Hst.
  - destruct Hs as [<-|Hs]; [exact Hst|].
    apply (IH (loop st)); [apply loop_shown; exact Hst | exact Hs].
Qed.

Lemma round_negative (q : Q) : q < 0 -> (Math_round q <= 0)%Z.
Proof.
  intro Hq. unfold Math_round.
  change 0%Z with (Qfloor (1 # 2)). apply Qfloor_resp_le. lra.
Qed.

(** C10.  [updateStats] writes [String(Math.max(0, Math.round(score)))] to
    the score label and leaves the score alone; in every state of a run the
    label shows that number for the current score; the number is never
    negative, and it is 0 while the score is below zero. *)
Theorem shown_score_never_negative (inp : Inputs) (n : nat) :
  (forall st, statScore (ui (updateStats st))
              = String_of_Z (Z.max 0 (Math_round (score st)))
              /\ score (updateStats st) = score st)
  /\ (forall st, In st (history inp n) ->
                 statScore (ui st) = String_of_Z (Z.max 0 (Math_round (score st))))
  /\ (forall q, (0 <= Z.max 0 (Math_round q))%Z)
  /\ (forall q, q < 0 -> String_of_Z (Z.max 0 (Math_round q)) = "0"%string).
Proof.
  split; [|split; [|split]].
  - intro st. split; reflexivity.
  - intros st Hst. apply (ticks_shown n (start (spawnAll inp init))); [|exact Hst].
    apply (spawnAll_shown inp init).
  - intro q. lia.
  - intros q Hq. pose proof (round_negative q Hq) as Hle.
    replace (Z.max 0 (Math_round q)) with 0%Z by lia. reflexivity.
Qed.

End Spawning.

(** ** The router's budget *)

Section Budget.
Import Router.
Variable priority : Message -> Q.

Lemma total_bits_cons (m : Message) (ms : list Message) :
  total_bits (m :: ms) = (Npos (size_bits m) + total_bits ms)%N.
Proof. reflexivity. Qed.

Lemma accept_total (ms : list Message) :
  forall B, (total_bits (accept B ms) <= B)%N.
Proof.
  induction ms as [|m rest IH]; intro B; cbn [accept].
  - apply N.le_0_l.
  - destruct (N.leb_spec (Npos (size_bits m)) B) as [Hfit|Hover].
    + rewrite total_bits_cons.
      specialize (IH (B - Npos (size_bits m))%N). lia.
    + apply N.le_0_l.
Qed.

Lemma accept_all (ms : list Message) :
  forall B, (total_bits ms <= B)%N -> accept B ms = ms.
Proof.
  induction ms as [|m rest IH]; intros B HB; cbn [accept]; [reflexivity|].
  rewrite total_bits_cons in HB.
  destruct (N.leb_spec (Npos (size_bits m)) B) as [Hfit|Hover]; [|lia].
  rewrite IH by lia. reflexivity.
Qed.

Lemma accept_incl (ms : list Message) :
  forall B, incl (accept B ms) ms.
Proof.
  induction ms as [|m rest IH]; intro B; simpl.
  - apply incl_refl.
  - destruct (Npos (size_bits m) <=? B)%N.
    + apply incl_cons; [left; reflexivity | apply incl_tl, IH].
    + intros x [].
Qed.

Lemma accept_zero (ms : list Message) : accept 0 ms = [].
Proof. destruct ms as [|m rest]; reflexivity. Qed.

Lemma insert_perm (m : Message) (l : list Message) :
  Permutation (insert priority m l) (m :: l).
Proof.
  induction l as [|h t IH]; simpl.
  - apply Permutation_refl.
  - destruct (outranks priority m h).
    + apply Permutation_refl.
    + eapply Permutation_trans; [apply perm_skip, IH | apply perm_swap].
Qed.

Lemma by_priority_perm (ms : list Message) :
  Permutation (by_priority priority ms) ms.
Proof.
  induction ms as [|m rest IH]; simpl.
  - apply Permutation_refl.
  - eapply Permutation_trans; [apply insert_perm | apply perm_skip, IH].
Qed.

Lemma total_bits_perm (l l' : list Message) :
  Permutation l l' -> total_bits l = total_bits l'.
Proof.
  induction 1; rewrite ?total_bits_cons; lia.
Qed.

(** Why the size of a candidate is positive: for one candidate of no bits
    and a budget of 0, no selection of messages, whatever it is, delivers
    nothing and delivers every candidate whose sizes the budget covers. *)
Remark no_router_for_empty_messages (deliver : N -> list N -> list N) :
  ~ (length (deliver 0%N [0%N]) = 0%nat
     /\ ((fold_right N.add 0%N [0%N] <= 0)%N ->
         length (deliver 0%N [0%N]) = length [0%N])).
Proof.
  intros [Hnone Hall]. rewrite Hall in Hnone by reflexivity. discriminate Hnone.
Qed.

(** C2 (for the router of the design).  In every tick the bits of the
    delivered messages do not exceed [bandwidth_bits], and only candidates
    are delivered; with a budget of 0 no message is delivered; and when the
    budget is at least the sum of the sizes of all candidates, every
    candidate is delivered: the delivered messages are the candidates, each
    once, in priority order. *)
Theorem budget_respected (bandwidth_bits : N) (candidates : list Message) :
  (total_bits (route priority bandwidth_bits candidates) <= bandwidth_bits)%N
  /\ incl (route priority bandwidth_bits candidates) candidates
  /\ route priority 0 candidates = []
  /\ length (route priority 0 candidates) = 0%nat
  /\ ((total_bits candidates <= bandwidth_bits)%N ->
      route priority bandwidth_bits candidates = by_priority priority candidates
      /\ Permutation (route priority bandwidth_bits candidates) candidates
      /\ length (route priority bandwidth_bits candidates) = length candidates).
Proof.
  unfold route.
  assert (Hin : incl (by_priority priority candidates) candidates).
  { intros m Hm. eapply Permutation_in; [apply by_priority_perm | exact Hm]. }
  split; [apply accept_total|].
  split; [intros m Hm; apply Hin, (accept_incl _ _ _ Hm)|].
  split; [apply accept_zero|].
  split; [rewrite accept_zero; reflexivity|].
  intro Hfit.
  assert (E : accept bandwidth_bits (by_priority priority candidates)
              = by_priority priority candidates).
  { apply accept_all.
    rewrite (total_bits_perm _ _ (by_priority_perm candidates)). exact Hfit. }
  rewrite E. split; [reflexivity|]. split.
  - apply by_priority_perm.
  - apply Permutation_length, by_priority_perm.
Qed.

End Budget.

(** ** Concrete runs *)

Lemma demoRandom_range : random_in_range (host := demoHost).
Proof.
  intro k. simpl. unfold demoRandom.
  destruct (k mod 4)%nat as [|[|[|r]]]; split; reflexivity || discriminate.
Qed.

Lemma hypot_micro_nonneg (u v : Q) : 0 <= hypot_micro u v.
Proof.
  unfold hypot_micro.
  apply Qle_shift_div_l; [reflexivity|].
  setoid_replace (0 * 1000000) with (inject_Z 0) by reflexivity.
  rewrite <- Zle_Qle. apply Z.sqrt_nonneg.
Qed.

(** One turn with a resource and a hazard in reach: the resource goes and
    its value is added, the severity is subtracted, and the hazard stays
    for a draw of 1/8 and goes for a draw of 1/32. *)
Example turn_with_contacts :
  Agent.score (fst (fst (agentTurn (host := demoHost) greedyDemo contactWorld 0%nat)))
  == 6 - 10
  /\ w_foods (snd (fst (agentTurn (host := demoHost) greedyDemo contactWorld 0%nat)))
     = []
  /\ w_dangers (snd (fst (agentTurn (host := demoHost) greedyDemo contactWorld 0%nat)))
     = [hazardInTheWay]
  /\ w_dangers (snd (fst (agentTurn (host := luckyHost) greedyDemo contactWorld 0%nat)))
     = []
  /\ snd (agentTurn (host := demoHost) greedyDemo contactWorld 0%nat) = 1%nat.
Proof. repeat split; reflexivity. Qed.

(** C1, counterexample.  Two runs with the same inputs, canvas and
    [Math.hypot] whose [Math.random()] gives other outcomes differ from the
    first state on. *)
Lemma same_inputs_other_history :
  @canvasW demoHost = @canvasW quarterHost
  /\ @canvasH demoHost = @canvasH quarterHost
  /\ @Math_hypot demoHost = @Math_hypot quarterHost
  /\ history (host := demoHost) demoInputs 1
     <> history (host := quarterHost) demoInputs 1.
Proof.
  repeat split. intro E.
  apply (f_equal (fun h => map (fun st => map Agent.x (agents st)) h)) in E.
  vm_compute in E. discriminate E.
Qed.

Lemma budget_respected_witness :
  (Router.total_bits [msgA; msgB] <= 100)%N
  /\ Router.route Router.importance 0 [msgA; msgB] = []
  /\ Router.route Router.importance 100 [msgA; msgB] = [msgB; msgA]
  /\ length (Router.route Router.importance 100 [msgA; msgB]) = 2%nat.
Proof.
  assert (Hfit : (Router.total_bits [msgA; msgB] <= 100)%N) by (simpl; lia).
  destruct (budget_respected Router.importance 100 [msgA; msgB])
    as (_ & _ & _ & _ & Hall).
  destruct (budget_respected Router.importance 0 [msgA; msgB])
    as (_ & _ & Hnone & _ & _).
  destruct (Hall Hfit) as (Hsame & _ & Hlen).
  split; [exact Hfit|]. split; [exact Hnone|].
  split; [rewrite Hsame; reflexivity | exact Hlen].
Defined.

Lemma agents_stay_in_world_witness :
  12 <= @canvasW demoHost /\ 12 <= @canvasH demoHost
  /\ Forall (fun a =>
               inWorld 400 360 (Agent.x a) (Agent.y a)
               /\ (24 <= 400 -> 12 <= Agent.x a <= 400 - 12)
               /\ (24 <= 360 -> 12 <= Agent.y a <= 360 - 12))
            (agents (stepOnce (host := demoHost)
                       (spawnAll (host := demoHost) demoInputs init))).
Proof.
  assert (HW : 12 <= @canvasW demoHost) by (simpl; unfold Qle; simpl; lia).
  assert (HH : 12 <= @canvasH demoHost) by (simpl; unfold Qle; simpl; lia).
  split; [exact HW|]. split; [exact HH|].
  exact (@agents_stay_in_world demoHost
           (spawnAll (host := demoHost) demoInputs init) HW HH).
Defined.

(** C3, counterexample.  501 explorers, a resource and a hazard, all
    spawned at one place (every draw is 1/32): the page runs and [loop]
    advances the tick, but above 500 agents it resolves no collision: the
    resource that every agent touches stays in the world, and every score
    stays 0. *)
Lemma crowd_tick_resolves_nothing :
  let st := start (spawnAll (host := luckyHost) crowdInputs init) in
  let st' := loop (host := luckyHost) st in
  running st = true
  /\ length (agents st) = 501%nat
  /\ tick st' = S (tick st)
  /\ (exists a f,
        hd_error (agents st') = Some a /\ hd_error (foods st') = Some f
        /\ touches (host := luckyHost) a f = true
        /\ Food.value f = 10 /\ Agent.score a = 0)
  /\ foods st' = foods st /\ dangers st' = dangers st
  /\ agents st' = agents st /\ score st' = 0.
Proof.
  cbv zeta.
  split; [vm_compute; reflexivity|]. split; [vm_compute; reflexivity|].
  split; [vm_compute; reflexivity|]. split.
  - eexists. eexists.
    split; [vm_compute; reflexivity|]. split; [vm_compute; reflexivity|].
    split; [vm_compute; reflexivity|]. split; reflexivity.
  - split; [vm_compute; reflexivity|]. split; [vm_compute; reflexivity|].
    split; vm_compute; reflexivity.
Qed.

Lemma collisions_resolved_witness :
  running (start (spawnAll (host := demoHost) demoInputs init)) = true
  /\ (length (agents (start (spawnAll (host := demoHost) demoInputs init))) <= 500)%nat
  /\ loop (host := demoHost) (start (spawnAll (host := demoHost) demoInputs init))
     = stepOnce (host := demoHost) (start (spawnAll (host := demoHost) demoInputs init))
  /\ foods (stepOnce (host := demoHost)
              (start (spawnAll (host := demoHost) demoInputs init)))
     = filter (untouched (host := demoHost)
                 (agents (stepOnce (host := demoHost)
                            (start (spawnAll (host := demoHost) demoInputs init)))))
              (map (moveFood (host := demoHost))
                   (foods (start (spawnAll (host := demoHost) demoInputs init)))).
Proof.
  assert (Hr : running (start (spawnAll (host := demoHost) demoInputs init)) = true)
    by reflexivity.
  assert (Hn : (length (agents (start (spawnAll (host := demoHost) demoInputs init)))
                <= 500)%nat)
    by (apply Nat.leb_le; vm_compute; reflexivity).
  pose proof (@collisions_resolved demoHost
                (start (spawnAll (host := demoHost) demoInputs init))) as X.
  cbv zeta in X. destruct X as (_ & _ & _ & Hfoods & _ & Hloop & _).
  split; [exact Hr|]. split; [exact Hn|].
  split; [exact (Hloop Hr Hn) | exact Hfoods].
Defined.

(** C6, counterexample.  First, the page runs with 501 agents: [loop]
    advances the tick and the mobile resource does not move.  Second, a
    run with two explorers and one mobile resource, spawned at x = 160 on a
    canvas 400 pixels wide: the window is made 100 pixels wide before the
    first tick, and in every tick the update finds the resource outside
    the band and turns its velocity, so that the resource stays 60 pixels
    outside the canvas. *)
Lemma passive_motion_stops_and_strands :
  (let st := start (spawnAll (host := luckyHost) crowdInputs init) in
   running st = true
   /\ tick (loop (host := luckyHost) st) = S (tick st)
   /\ map Food.mobile (foods st) = [true]
   /\ foods (loop (host := luckyHost) st) = foods st)
  /\ map (fun st => map (fun f => (Food.mobile f, Qred (Food.x f), Qred (Food.vx f)))
                        (foods st))
         (historyResized (host := demoHost) strandInputs
            [(100, 360); (100, 360); (100, 360)])
     = [[(true, 160, 1 # 8)]; [(true, 1281 # 8, - (1 # 8))];
        [(true, 160, 1 # 8)]; [(true, 1281 # 8, - (1 # 8))]]
  /\ 100 < 160.
Proof.
  split; [|split; [vm_compute; reflexivity | reflexivity]].
  cbv zeta.
  split; [vm_compute; reflexivity|]. split; [vm_compute; reflexivity|].
  split; vm_compute; reflexivity.
Qed.

Lemma passive_motion_reflects_witness :
  random_in_range (host := demoHost)
  /\ 60 <= @canvasW demoHost /\ 60 <= @canvasH demoHost
  /\ In (loop (host := demoHost) (start (spawnAll (host := demoHost) demoInputs init)))
        (history (host := demoHost) demoInputs 1)
  /\ Forall (fun d =>
               inWorld 400 360 (Danger.x d) (Danger.y d)
               /\ inWorld 400 360 (Danger.x (moveDanger (host := demoHost) d))
                          (Danger.y (moveDanger (host := demoHost) d)))
            (dangers (loop (host := demoHost)
                        (start (spawnAll (host := demoHost) demoInputs init)))).
Proof.
  assert (HW : 60 <= @canvasW demoHost) by (simpl; unfold Qle; simpl; lia).
  assert (HH : 60 <= @canvasH demoHost) by (simpl; unfold Qle; simpl; lia).
  assert (Hin : In (loop (host := demoHost)
                      (start (spawnAll (host := demoHost) demoInputs init)))
                   (history (host := demoHost) demoInputs 1))
    by (right; left; reflexivity).
  pose proof (@passive_motion_reflects demoHost demoInputs 1
                (loop (host := demoHost)
                   (start (spawnAll (host := demoHost) demoInputs init)))) as X.
  destruct X as (_ & _ & _ & _ & _ & _ & _ & Hrun).
  destruct (Hrun demoRandom_range HW HH Hin) as [_ Hd].
  split; [exact demoRandom_range|].
  split; [exact HW|]. split; [exact HH|]. split; [exact Hin | exact Hd].
Defined.

(** C7, counterexample.  A hazard lies five pixels from a greedy agent, in
    contact with it and on its way to the resource; the agent steers as if
    there were no hazard, straight towards the resource. *)
Lemma greedy_ignores_adjacent_hazard :
  Agent.type greedyDemo = greedy
  /\ dist (host := demoHost) greedyDemo hazardInTheWay == 5
  /\ touches (host := demoHost) greedyDemo hazardInTheWay = true
  /\ steer (host := demoHost) greedyDemo [foodDemo] [hazardInTheWay] 0%nat
     = steer (host := demoHost) greedyDemo [foodDemo] [] 0%nat
  /\ Agent.vx (fst (steer (host := demoHost) greedyDemo [foodDemo]
                      [hazardInTheWay] 0%nat)) == 0.03
  /\ Agent.vy (fst (steer (host := demoHost) greedyDemo [foodDemo]
                      [hazardInTheWay] 0%nat)) == 0.04.
Proof. repeat split; reflexivity. Qed.

Lemma greedy_targets_best_witness :
  Agent.type greedyDemo = greedy
  /\ [foodDemo; foodFar] <> []
  /\ exists best,
      In best [foodDemo; foodFar]
      /\ (forall f, In f [foodDemo; foodFar] ->
                    foodScore (host := demoHost) greedyDemo f
                    <= foodScore (host := demoHost) greedyDemo best)
      /\ (let dx := Food.x best - Agent.x greedyDemo in
          let dy := Food.y best - Agent.y greedyDemo in
          let m := hypot_or_1 (host := demoHost) dx dy in
          0 < m
          /\ steer (host := demoHost) greedyDemo [foodDemo; foodFar]
                   [hazardInTheWay] 0%nat
             = (Agent.with_v greedyDemo (Agent.vx greedyDemo + dx / m * 0.05)
                                        (Agent.vy greedyDemo + dy / m * 0.05), 0%nat))
      /\ (forall ds', steer (host := demoHost) greedyDemo [foodDemo; foodFar] ds' 0%nat
                      = steer (host := demoHost) greedyDemo [foodDemo; foodFar]
                              [hazardInTheWay] 0%nat).
Proof.
  assert (Hty : Agent.type greedyDemo = greedy) by reflexivity.
  assert (Hne : [foodDemo; foodFar] <> []) by discriminate.
  split; [exact Hty|]. split; [exact Hne|].
  exact (@greedy_targets_best demoHost greedyDemo [foodDemo; foodFar]
           [hazardInTheWay] 0%nat hypot_micro_nonneg Hty Hne).
Defined.

(** C8, counterexample.  A hazard is within the radius of 120 of a cautious
    agent and a resource lies beyond it in the same direction: the agent
    does not only flee, it also drifts to the resource, and its velocity
    ends up pointing at the hazard. *)
Lemma cautious_drifts_while_fleeing :
  Agent.type cautiousDemo = cautious
  /\ dist (host := demoHost) cautiousDemo hazardNear < 120
  /\ Agent.vx (flee (host := demoHost) cautiousDemo [hazardNear]) == -0.15
  /\ fst (steer (host := demoHost) cautiousDemo [foodFar] [hazardNear] 0%nat)
     <> flee (host := demoHost) cautiousDemo [hazardNear]
  /\ Agent.vx (fst (steer (host := demoHost) cautiousDemo [foodFar]
                      [hazardNear] 0%nat)) == 0.01.
Proof.
  split; [reflexivity|]. split; [reflexivity|]. split; [reflexivity|].
  split; [|reflexivity].
  intro E. apply (f_equal Agent.vx) in E. vm_compute in E. discriminate E.
Qed.

Lemma cautious_flees_and_drifts_witness :
  Agent.type cautiousDemo = cautious
  /\ (exists d, In d [hazardNear] /\ dist (host := demoHost) cautiousDemo d < 120)
  /\ [foodFar] <> []
  /\ (exists near,
        In near [hazardNear]
        /\ flee (host := demoHost) cautiousDemo [hazardNear]
           = Agent.with_v cautiousDemo
               (Agent.vx cautiousDemo + (Agent.x cautiousDemo - Danger.x near) * 0.003)
               (Agent.vy cautiousDemo + (Agent.y cautiousDemo - Danger.y near) * 0.003))
  /\ (exists any,
        In any [foodFar]
        /\ steer (host := demoHost) cautiousDemo [foodFar] [hazardNear] 0%nat
           = (Agent.with_v (flee (host := demoHost) cautiousDemo [hazardNear])
                (Agent.vx (flee (host := demoHost) cautiousDemo [hazardNear])
                 + (Food.x any - Agent.x cautiousDemo) * 0.0008)
                (Agent.vy (flee (host := demoHost) cautiousDemo [hazardNear])
                 + (Food.y any - Agent.y cautiousDemo) * 0.0008),
              1%nat)).
Proof.
  assert (Hty : Agent.type cautiousDemo = cautious) by reflexivity.
  assert (Hnear : exists d, In d [hazardNear]
                            /\ dist (host := demoHost) cautiousDemo d < 120).
  { exists hazardNear. split; [left; reflexivity | reflexivity]. }
  assert (Hne : [foodFar] <> []) by discriminate.
  destruct (@cautious_flees_and_drifts demoHost cautiousDemo [foodFar]
              [hazardNear] 0%nat demoRandom_range Hty)
    as (Hflee & _ & _ & Hdrift).
  split; [exact Hty|]. split; [exact Hnear|]. split; [exact Hne|]. split.
  - destruct (Hflee Hnear) as (near & Hin & _ & E). exists near. split; assumption.
  - destruct (Hdrift Hne) as (any & Hidx & E). exists any. split; [|exact E].
    apply (nth_error_In _ _ Hidx).
Defined.



Lemma shown_score_never_negative_witness :
  In (loop (host := demoHost) (start (spawnAll (host := demoHost) badInputs init)))
     (history (host := demoHost) badInputs 1)
  /\ score (loop (host := demoHost)
              (start (spawnAll (host := demoHost) badInputs init))) < 0
  /\ statScore (ui (loop (host := demoHost)
                      (start (spawnAll (host := demoHost) badInputs init))))
     = "0"%string.
Proof.
  assert (Hin : In (loop (host := demoHost)
                      (start (spawnAll (host := demoHost) badInputs init)))
                   (history (host := demoHost) badInputs 1))
    by (right; left; reflexivity).
  assert (Hneg : score (loop (host := demoHost)
                          (start (spawnAll (host := demoHost) badInputs init))) < 0)
    by reflexivity.
  destruct (@shown_score_never_negative demoHost badInputs 1)
    as (_ & Hshown & _ & Hzero).
  split; [exact Hin|]. split; [exact Hneg|].
  rewrite (Hshown _ Hin). exact (Hzero _ Hneg).
Defined.

(** ** What [spawnAll] builds *)

Section SpawnShape.
Context {host : Host}.

Lemma for_push_draws {A} (body : nat -> Rand A) (c : nat) :
  (forall i k, snd (body i k) = (k + c)%nat) ->
  forall n i k, snd (for_push body i n k) = (k + c * n)%nat.
Proof.
  intros Hbody n. induction n as [|n IH]; intros i k; simpl.
  - lia.
  - unfold bind. specialize (Hbody i k).
    destruct (body i k) as [a k1]. specialize (IH (S i) k1).
    destruct (for_push body (S i) n k1) as [l k2]. simpl in *. lia.
Qed.

Lemma for_push_map {A B} (g : A -> B) (h : nat -> B) (body : nat -> Rand A) :
  (forall i k, g (fst (body i k)) = h i) ->
  forall n i k, map g (fst (for_push body i n k)) = map h (seq i n).
Proof.
  intros Hbody n. induction n as [|n IH]; intros i k; simpl.
  - reflexivity.
  - unfold bind. specialize (Hbody i k).
    destruct (body i k) as [a k1]. specialize (IH (S i) k1).
    destruct (for_push body (S i) n k1) as [l k2]. simpl in *.
    rewrite Hbody, IH. reflexivity.
Qed.


(** The five loops of [spawnAll], one after the other. *)
Lemma spawnAll_parts (inp : Inputs) (st : State) :
  exists gs cs es fs ds k1 k2 k3 k4 k5,
    for_push (fun _ => newAgent greedy) 0 (Z.to_nat (greedyN inp)) (draws st)
    = (gs, k1)
    /\ for_push (fun _ => newAgent cautious) 0 (Z.to_nat (cautiousN inp)) k1
       = (cs, k2)
    /\ for_push (fun _ => newAgent explorer) 0 (Z.to_nat (explorerN inp)) k2
       = (es, k3)
    /\ for_push newFood 0 (Z.to_nat (foodN inp)) k3 = (fs, k4)
    /\ for_push newDanger 0 (Z.to_nat (dangerN inp)) k4 = (ds, k5)
    /\ spawnAll inp st
       = updateStats (mkState (gs ++ cs ++ es) fs ds (running st) 0 0 (ui st) k5).
Proof.
  unfold spawnAll, bind.
  destruct (for_push _ 0 (Z.to_nat (greedyN inp)) (draws st)) as [gs k1].
  destruct (for_push _ 0 (Z.to_nat (cautiousN inp)) k1) as [cs k2] eqn:Ec.
  destruct (for_push _ 0 (Z.to_nat (explorerN inp)) k2) as [es k3] eqn:Ee.
  destruct (for_push newFood 0 (Z.to_nat (foodN inp)) k3) as [fs k4] eqn:Ef.
  destruct (for_push newDanger 0 (Z.to_nat (dangerN inp)) k4) as [ds k5] eqn:Ed.
  exists gs, cs, es, fs, ds, k1, k2, k3, k4, k5. simpl.
  repeat split; assumption.
Qed.

Lemma newAgent_type (ty : AgentType) (k : nat) :
  Agent.type (fst (newAgent ty k)) = ty.
Proof. reflexivity. Qed.

Lemma newAgent_draws (ty : AgentType) (k : nat) :
  snd (newAgent ty k) = (k + 5)%nat.
Proof. unfold newAgent, rand, bind, Math_random, ret. simpl. lia. Qed.

Lemma newFood_draws (i k : nat) : snd (newFood i k) = (k + 5)%nat.
Proof. unfold newFood, rand, bind, Math_random, ret. simpl. lia. Qed.

Lemma newDanger_draws (i k : nat) : snd (newDanger i k) = (k + 5)%nat.
Proof. unfold newDanger, rand, bind, Math_random, ret. simpl. lia. Qed.

Lemma for_push_fst {A} (body : nat -> Rand A) (i n k : nat) (l : list A) (k' : nat) :
  for_push body i n k = (l, k') ->
  l = fst (for_push body i n k) /\ k' = snd (for_push body i n k).
Proof. intro E. rewrite E. split; reflexivity. Qed.



(** X3.  [spawnAll] calls [Math.random()] exactly five times for every
    agent, resource and hazard that it creates, and for nothing else. *)
Theorem spawnAll_draws (inp : Inputs) (st : State) :
  draws (spawnAll inp st)
  = (draws st
     + 5 * (length (agents (spawnAll inp st))
            + length (foods (spawnAll inp st))
            + length (dangers (spawnAll inp st))))%nat.
Proof.
  destruct (spawnAll_parts inp st)
    as (gs & cs & es & fs & ds & k1 & k2 & k3 & k4 & k5
        & Eg & Ec & Ee & Ef & Ed & E).
  rewrite E. simpl. rewrite !length_app.
  apply for_push_fst in Eg, Ec, Ee, Ef, Ed.
  destruct Eg as [-> ->], Ec as [-> ->], Ee as [-> ->], Ef as [-> ->],
           Ed as [-> ->].
  rewrite !for_push_length.
  rewrite (for_push_draws newDanger 5 newDanger_draws).
  rewrite (for_push_draws newFood 5 newFood_draws).
  rewrite !(for_push_draws (fun _ => newAgent _) 5 (fun _ => newAgent_draws _)).
  lia.
Qed.

(** X4.  The values of the spawned resources run through 10, 6, 2 in the
    order of the array, and so do the severities of the spawned hazards. *)
Theorem spawnAll_tiers (inp : Inputs) (st : State) :
  map Food.value (foods (spawnAll inp st))
  = map tier (seq 0 (Z.to_nat (foodN inp)))
  /\ map Danger.severity (dangers (spawnAll inp st))
     = map tier (seq 0 (Z.to_nat (dangerN inp)))
  /\ (forall i, tier (3 * i) = 10 /\ tier (3 * i + 1) = 6 /\ tier (3 * i + 2) = 2).
Proof.
  assert (Htier : forall i, tier (3 * i) = 10 /\ tier (3 * i + 1) = 6
                            /\ tier (3 * i + 2) = 2).
  { intro i. unfold tier.
    replace ((3 * i) mod 3)%nat with 0%nat
      by (symmetry; rewrite Nat.mul_comm; apply Nat.Div0.mod_mul).
    replace ((3 * i + 1) mod 3)%nat with 1%nat
      by (rewrite Nat.add_comm, Nat.mul_comm, Nat.Div0.mod_add; reflexivity).
    replace ((3 * i + 2) mod 3)%nat with 2%nat
      by (rewrite Nat.add_comm, Nat.mul_comm, Nat.Div0.mod_add; reflexivity).
    repeat split; reflexivity. }
  destruct (spawnAll_parts inp st)
    as (gs & cs & es & fs & ds & k1 & k2 & k3 & k4 & k5
        & _ & _ & _ & Ef & Ed & E).
  rewrite E. cbn [foods dangers updateStats].
  apply for_push_fst in Ef, Ed. destruct Ef as [-> _], Ed as [-> _].
  split; [|split].
  - apply for_push_map. reflexivity.
  - apply for_push_map. reflexivity.
  - exact Htier.
Qed.

End SpawnShape.

(** ** Runs that see the same outcomes of [Math.random()] *)

Section DrawCounts.
Context {host : Host}.

Lemma steer_draws (a : Agent.t) (w : World) (k : nat) :
  steered_draws a w k = (k + steerCalls a (w_foods w))%nat.
Proof.
  unfold steered_draws, steerCalls, steer. destruct (Agent.type a); simpl.
  - lia.
  - unfold steerCautious, driftToFood. destruct (w_foods w); simpl; lia.
  - lia.
Qed.

Lemma survivors_draws (a : Agent.t) (ds : list Danger.t) (k : nat) :
  snd (survivors a ds k) = (k + length (filter (touches a) ds))%nat.
Proof.
  induction ds as [|d ds IH]; simpl; [lia|].
  destruct (survivors a ds k) as [kept k1]. simpl in IH.
  destruct (touches a d); simpl; lia.
Qed.

(** The calls of [Math.random()] in the turn of one agent: those of its
    steering, and one for every hazard that it touches. *)
Lemma agentTurn_draws (a : Agent.t) (w : World) (k : nat) :
  snd (agentTurn a w k)
  = (k + steerCalls a (w_foods w)
     + length (filter (touches (moved a w k)) (w_dangers w)))%nat.
Proof.
  rewrite agentTurn_eq. cbn [snd]. rewrite survivors_draws, steer_draws.
  reflexivity.
Qed.

Lemma agentTurn_mono (a : Agent.t) (w : World) (k : nat) :
  (k <= snd (agentTurn a w k))%nat.
Proof. rewrite agentTurn_draws. lia. Qed.

Lemma filter_length_le {A} (p : A -> bool) (l : list A) :
  (length (filter p l) <= length l)%nat.
Proof. induction l as [|x l IH]; simpl; [|destruct (p x); simpl]; lia. Qed.

Lemma agentLoop_draws (ags : list Agent.t) :
  forall w k,
    (k + 2 * countType explorer ags <= snd (agentLoop ags w k))%nat
    /\ (snd (agentLoop ags w k)
        <= k + 2 * countType explorer ags + countType cautious ags
           + length ags * length (w_dangers w))%nat
    /\ (length (w_dangers (snd (fst (agentLoop ags w k)))) <= length (w_dangers w))%nat.
Proof.
  induction ags as [|a rest IH]; intros w k.
  - simpl. lia.
  - cbn [agentLoop]. unfold bind.
    pose proof (agentTurn_draws a w k) as Hd.
    pose proof (filter_length_le (touches (moved a w k)) (w_dangers w)) as Hf.
    assert (Hlen : (length (w_dangers (snd (fst (agentTurn a w k))))
                    <= length (w_dangers w))%nat).
    { rewrite agentTurn_eq. cbn [fst snd w_dangers]. apply survivors_length. }
    destruct (agentTurn a w k) as [[a' w'] k']. cbn [fst snd] in *.
    destruct (IH w' k') as (Hlo & Hhi & Hl).
    destruct (agentLoop rest w' k') as [[rest' w''] k'']. cbn [fst snd] in *.
    assert (Hmul : (length rest * length (w_dangers w')
                    <= length rest * length (w_dangers w))%nat)
      by (apply Nat.mul_le_mono_l; exact Hlen).
    unfold countType, steerCalls in *. cbn [filter].
    unfold ret. cbn [fst snd].
    destruct (Agent.type a); cbn [length]; [| destruct (w_foods w) |];
      cbn [length Nat.mul]; lia.
Qed.

Lemma agentLoop_mono (ags : list Agent.t) (w : World) (k : nat) :
  (k <= snd (agentLoop ags w k))%nat.
Proof. destruct (agentLoop_draws ags w k) as (H & _). lia. Qed.

Lemma stepOnce_draws_bounds (st : State) :
  (draws st + 2 * countType explorer (agents st) <= draws (stepOnce st))%nat
  /\ (draws (stepOnce st)
      <= draws st + 2 * countType explorer (agents st)
         + countType cautious (agents st)
         + length (agents st) * length (dangers st))%nat.
Proof.
  rewrite stepOnce_draws.
  destruct (agentLoop_draws (agents st) (movedWorld st) (draws st)) as (Hlo & Hhi & _).
  unfold movedWorld in Hhi at 2. cbn [w_dangers] in Hhi. rewrite length_map in Hhi.
  split; assumption.
Qed.

Lemma loop_draws (st : State) :
  draws (loop st)
  = if running st && Nat.leb (length (agents st)) 500
    then draws (stepOnce st) else draws st.
Proof.
  unfold loop. destruct (running st); [|reflexivity].
  destruct (Nat.leb _ 500); reflexivity.
Qed.

Lemma loop_mono (st : State) : (draws st <= draws (loop st))%nat.
Proof.
  rewrite loop_draws. destruct (_ && _); [|lia].
  destruct (stepOnce_draws_bounds st). lia.
Qed.

End DrawCounts.

Section SameDraws.
Context {host : Host}.
Variable rs' : nat -> Q.
Variable K : nat.
Hypothesis same_draws : forall k, (k < K)%nat -> rs' k = Math_random_seq k.

Local Abbreviation host' := (with_random host rs').

Lemma for_push_agree {A} (body' body : nat -> Rand A) (c : nat) :
  (forall i k, (k + c <= K)%nat -> body' i k = body i k) ->
  (forall i k, snd (body i k) = (k + c)%nat) ->
  forall n i k, (k + c * n <= K)%nat -> for_push body' i n k = for_push body i n k.
Proof.
  intros Hbody Hc n. induction n as [|n IH]; intros i k Hk; simpl; [reflexivity|].
  unfold bind. rewrite Hbody by lia.
  specialize (Hc i k). destruct (body i k) as [a k1]. simpl in Hc.
  rewrite IH by lia. reflexivity.
Qed.

Lemma newAgent_agree (ty : AgentType) (k : nat) :
  (k + 5 <= K)%nat -> newAgent (host := host') ty k = newAgent ty k.
Proof.
  intro Hk. unfold newAgent, rand, bind, Math_random, ret. simpl.
  rewrite !same_draws by lia. reflexivity.
Qed.

Lemma newFood_agree (i k : nat) :
  (k + 5 <= K)%nat -> newFood (host := host') i k = newFood i k.
Proof.
  intro Hk. unfold newFood, rand, bind, Math_random, ret. simpl.
  rewrite !same_draws by lia. reflexivity.
Qed.

Lemma newDanger_agree (i k : nat) :
  (k + 5 <= K)%nat -> newDanger (host := host') i k = newDanger i k.
Proof.
  intro Hk. unfold newDanger, rand, bind, Math_random, ret. simpl.
  rewrite !same_draws by lia. reflexivity.
Qed.

Lemma spawnAll_agree (inp : Inputs) (st : State) :
  (draws (spawnAll inp st) <= K)%nat ->
  spawnAll (host := host') inp st = spawnAll inp st.
Proof.
  destruct (spawnAll_parts inp st)
    as (gs & cs & es & fs & ds & k1 & k2 & k3 & k4 & k5
        & Eg & Ec & Ee & Ef & Ed & E).
  rewrite E. cbn [draws updateStats]. intro Hk.
  pose proof (f_equal snd Eg) as Dg. cbn [snd] in Dg.
  pose proof (f_equal snd Ec) as Dc. cbn [snd] in Dc.
  pose proof (f_equal snd Ee) as De. cbn [snd] in De.
  pose proof (f_equal snd Ef) as Df. cbn [snd] in Df.
  pose proof (f_equal snd Ed) as Dd. cbn [snd] in Dd.
  rewrite (for_push_draws (fun _ => newAgent greedy) 5
             (fun _ => newAgent_draws greedy)) in Dg.
  rewrite (for_push_draws (fun _ => newAgent cautious) 5
             (fun _ => newAgent_draws cautious)) in Dc.
  rewrite (for_push_draws (fun _ => newAgent explorer) 5
             (fun _ => newAgent_draws explorer)) in De.
  rewrite (for_push_draws newFood 5 newFood_draws) in Df.
  rewrite (for_push_draws newDanger 5 newDanger_draws) in Dd.
  rewrite <- E. unfold spawnAll, bind.
  rewrite (for_push_agree (fun _ => newAgent (host := host') greedy)
             (fun _ => newAgent greedy) 5
             (fun _ k => newAgent_agree greedy k) (fun _ => newAgent_draws greedy))
    by lia.
  rewrite Eg.
  rewrite (for_push_agree (fun _ => newAgent (host := host') cautious)
             (fun _ => newAgent cautious) 5
             (fun _ k => newAgent_agree cautious k) (fun _ => newAgent_draws cautious))
    by lia.
  rewrite Ec.
  rewrite (for_push_agree (fun _ => newAgent (host := host') explorer)
             (fun _ => newAgent explorer) 5
             (fun _ k => newAgent_agree explorer k) (fun _ => newAgent_draws explorer))
    by lia.
  rewrite Ee.
  rewrite (for_push_agree (newFood (host := host')) newFood 5
             newFood_agree newFood_draws) by lia.
  rewrite Ef.
  rewrite (for_push_agree (newDanger (host := host')) newDanger 5
             newDanger_agree newDanger_draws) by lia.
  rewrite Ed. reflexivity.
Qed.

Lemma steer_agree (a : Agent.t) (fs : list Food.t) (ds : list Danger.t) (k : nat) :
  (snd (steer a fs ds k) <= K)%nat ->
  steer (host := host') a fs ds k = steer a fs ds k.
Proof.
  unfold steer. destruct (Agent.type a).
  - reflexivity.
  - unfold steerCautious, driftToFood. destruct fs as [|f fs]; [reflexivity|].
    unfold bind, Math_random, ret. simpl. intro Hk.
    rewrite same_draws by lia. reflexivity.
  - unfold steerExplorer, rand, bind, Math_random, ret. simpl. intro Hk.
    rewrite !same_draws by lia. reflexivity.
Qed.

Lemma hit_mono (n : nat) :
  forall (a : Agent.t) (s : Q) (ds : list Danger.t) (k : nat),
    (k <= snd (hit n a s ds k))%nat.
Proof.
  induction n as [|n IH]; intros a s ds k; simpl; [lia|].
  destruct (nth_error ds n) as [d|]; [|apply IH].
  destruct (Qltb (dist a d) 14); [|apply IH].
  unfold bind, Math_random.
  match goal with |- (_ <= snd (hit n ?a' ?s' ?ds' (S k)))%nat =>
    pose proof (IH a' s' ds' (S k)) end. lia.
Qed.

Lemma hit_agree (n : nat) :
  forall (a : Agent.t) (s : Q) (ds : list Danger.t) (k : nat),
    (snd (hit n a s ds k) <= K)%nat ->
    hit (host := host') n a s ds k = hit n a s ds k.
Proof.
  induction n as [|n IH]; intros a s ds k; simpl; [reflexivity|].
  destruct (nth_error ds n) as [d|]; [|apply IH].
  unfold dist. simpl.
  destruct (Qltb (Math_hypot _ _) 14); [|apply IH].
  unfold bind, Math_random. simpl. intro Hk.
  match type of Hk with (snd (hit n ?a' ?s' ?ds' (S k)) <= K)%nat =>
    pose proof (hit_mono n a' s' ds' (S k)) end.
  rewrite same_draws by lia. apply IH. exact Hk.
Qed.

Lemma agentTurn_agree (a : Agent.t) (w : World) (k : nat) :
  (snd (agentTurn a w k) <= K)%nat ->
  agentTurn (host := host') a w k = agentTurn a w k.
Proof.
  unfold agentTurn, bind.
  destruct (steer a (w_foods w) (w_dangers w) k) as [a1 k1] eqn:Es.
  change (eat (host := host') (length (w_foods w)) (dampMove (host := host') a1)
              (w_score w) (w_foods w))
    with (eat (length (w_foods w)) (dampMove a1) (w_score w) (w_foods w)).
  destruct (eat _ _ _ _) as [[a3 s3] fs] eqn:Ee.
  pose proof (hit_mono (length (w_dangers w)) a3 s3 (w_dangers w) k1) as Hm.
  destruct (hit (length (w_dangers w)) a3 s3 (w_dangers w) k1)
    as [[[a4 s4] ds] k2] eqn:Eh.
  unfold ret. cbn [snd] in *. intro Hk.
  rewrite steer_agree by (rewrite Es; cbn [snd]; lia).
  rewrite Es.
  change (eat (host := host') (length (w_foods w)) (dampMove (host := host') a1)
              (w_score w) (w_foods w))
    with (eat (length (w_foods w)) (dampMove a1) (w_score w) (w_foods w)).
  rewrite Ee.
  rewrite hit_agree by (rewrite Eh; cbn [snd]; lia).
  rewrite Eh. reflexivity.
Qed.

Lemma agentLoop_agree (ags : list Agent.t) :
  forall (w : World) (k : nat),
    (snd (agentLoop ags w k) <= K)%nat ->
    agentLoop (host := host') ags w k = agentLoop ags w k.
Proof.
  induction ags as [|a rest IH]; intros w k; simpl; [reflexivity|].
  unfold bind.
  pose proof (agentTurn_mono a w k) as Hm.
  destruct (agentTurn a w k) as [[a' w'] k'] eqn:Et.
  pose proof (agentLoop_mono rest w' k') as Hm'.
  destruct (agentLoop rest w' k') as [[rest' w''] k''] eqn:El.
  unfold ret. cbn [snd] in *. intro Hk.
  rewrite agentTurn_agree by (rewrite Et; cbn [snd]; lia).
  rewrite Et, IH by (rewrite El; cbn [snd]; lia).
  rewrite El. reflexivity.
Qed.

Lemma stepOnce_agree (st : State) :
  (draws (stepOnce st) <= K)%nat -> stepOnce (host := host') st = stepOnce st.
Proof.
  rewrite stepOnce_draws. unfold movedWorld. intro Hk. unfold stepOnce.
  change (map (moveFood (host := host')) (foods st)) with (map moveFood (foods st)).
  change (map (moveDanger (host := host')) (dangers st))
    with (map moveDanger (dangers st)).
  rewrite agentLoop_agree by exact Hk. reflexivity.
Qed.

Lemma loop_agree (st : State) :
  (draws (loop st) <= K)%nat -> loop (host := host') st = loop st.
Proof.
  unfold loop. destruct (running st); [|reflexivity].
  destruct (Nat.leb _ 500); [|reflexivity].
  apply stepOnce_agree.
Qed.

End SameDraws.

Section RunDraws.
Context {host : Host}.

Lemma ticks_last (n : nat) (st d : State) :
  last (ticks (S n) st) d = last (ticks n (loop st)) d.
Proof. cbn [ticks]. destruct n; reflexivity. Qed.

Lemma ticksResized_last (W H : Q) (rest : list (Q * Q)) (st d : State) :
  last (ticksResized ((W, H) :: rest) st) d
  = last (ticksResized rest (loop (host := resized host W H) st)) d.
Proof. cbn [ticksResized]. destruct rest as [|[W' H'] rest]; reflexivity. Qed.

Lemma ticks_mono (n : nat) :
  forall st, (draws st <= draws (last (ticks n st) init))%nat.
Proof.
  induction n as [|n IH]; intro st; [simpl; lia|].
  rewrite ticks_last. pose proof (loop_mono st). pose proof (IH (loop st)). lia.
Qed.

Lemma ticksResized_mono (sizes : list (Q * Q)) :
  forall st, (draws st <= draws (last (ticksResized sizes st) init))%nat.
Proof.
  induction sizes as [|[W H] rest IH]; intro st; [simpl; lia|].
  rewrite ticksResized_last.
  pose proof (loop_mono (host := resized host W H) st).
  pose proof (IH (loop (host := resized host W H) st)). lia.
Qed.

End RunDraws.

Section SameRuns.
Context {host : Host}.
Variable rs' : nat -> Q.
Variable K : nat.
Hypothesis same_draws : forall k, (k < K)%nat -> rs' k = Math_random_seq k.

Local Abbreviation host' := (with_random host rs').

Lemma ticks_agree (n : nat) :
  forall st, (draws (last (ticks n st) init) <= K)%nat ->
             ticks (host := host') n st = ticks n st.
Proof.
  induction n as [|n IH]; intros st Hk; [reflexivity|].
  rewrite ticks_last in Hk. pose proof (ticks_mono n (loop st)).
  cbn [ticks].
  rewrite (loop_agree rs' K same_draws) by lia.
  rewrite IH by exact Hk. reflexivity.
Qed.

Lemma ticksResized_agree (sizes : list (Q * Q)) :
  forall st, (draws (last (ticksResized sizes st) init) <= K)%nat ->
             ticksResized (host := host') sizes st = ticksResized sizes st.
Proof.
  induction sizes as [|[W H] rest IH]; intros st Hk; [reflexivity|].
  rewrite ticksResized_last in Hk.
  pose proof (ticksResized_mono rest (loop (host := resized host W H) st)).
  cbn [ticksResized].
  change (loop (host := resized host' W H) st)
    with (loop (host := with_random (resized host W H) rs') st).
  rewrite (loop_agree (host := resized host W H) rs' K same_draws) by lia.
  rewrite IH by exact Hk. reflexivity.
Qed.

(** C1 (as the code has it).  The engine has no seed: its randomness is
    [Math.random()], which [spawnAll] calls five times for every object
    that it creates, and which the turn of an agent calls to steer (twice
    for an explorer, once for a cautious agent when a resource exists) and
    once for every hazard that the agent touches; a paused or data-mode
    [loop] calls it not at all.  A run is determined by the inputs, the
    sizes of the canvas and the outcomes of these calls: two runs that read
    the same inputs on the same canvas, resized alike, and see the same
    outcomes for the calls that they make (the first [K]), have the same
    states tick by tick, and with them the same agent positions and
    scores. *)
Theorem same_draws_same_history :
  (forall inp sizes,
      (draws (last (historyResized inp sizes) init) <= K)%nat ->
      historyResized (host := host') inp sizes = historyResized inp sizes)
  /\ (forall inp n,
        (draws (last (history inp n) init) <= K)%nat ->
        history (host := host') inp n = history inp n)
  /\ (forall inp st,
        draws (spawnAll inp st)
        = (draws st + 5 * (length (agents (spawnAll inp st))
                           + length (foods (spawnAll inp st))
                           + length (dangers (spawnAll inp st))))%nat)
  /\ (forall a w k,
        snd (agentTurn a w k)
        = (k + steerCalls a (w_foods w)
           + length (filter (touches (moved a w k)) (w_dangers w)))%nat)
  /\ (forall st,
        (draws st + 2 * countType explorer (agents st) <= draws (stepOnce st))%nat
        /\ (draws (stepOnce st)
            <= draws st + 2 * countType explorer (agents st)
               + countType cautious (agents st)
               + length (agents st) * length (dangers st))%nat)
  /\ (forall st,
        draws (loop st)
        = if running st && Nat.leb (length (agents st)) 500
          then draws (stepOnce st) else draws st).
Proof.
  split.
  { intros inp sizes Hk. unfold historyResized in *.
    pose proof (ticksResized_mono sizes (start (spawnAll inp init))) as Hm.
    cbn [draws start] in Hm.
    rewrite (spawnAll_agree rs' K same_draws) by lia.
    apply ticksResized_agree. exact Hk. }
  split.
  { intros inp n Hk. unfold history in *.
    pose proof (ticks_mono n (start (spawnAll inp init))) as Hm.
    cbn [draws start] in Hm.
    rewrite (spawnAll_agree rs' K same_draws) by lia.
    apply ticks_agree. exact Hk. }
  split.
  { intros inp st.
    destruct (spawnAll_parts inp st)
      as (gs & cs & es & fs & ds & k1 & k2 & k3 & k4 & k5
          & Eg & Ec & Ee & Ef & Ed & E).
    rewrite E. simpl. rewrite !length_app.
    apply for_push_fst in Eg, Ec, Ee, Ef, Ed.
    destruct Eg as [-> ->], Ec as [-> ->], Ee as [-> ->], Ef as [-> ->],
             Ed as [-> ->].
    rewrite !for_push_length.
    rewrite (for_push_draws newDanger 5 newDanger_draws).
    rewrite (for_push_draws newFood 5 newFood_draws).
    rewrite !(for_push_draws (fun _ => newAgent _) 5 (fun _ => newAgent_draws _)).
    lia. }
  split; [exact agentTurn_draws|].
  split; [exact stepOnce_draws_bounds | exact loop_draws].
Qed.

End SameRuns.

Lemma same_draws_same_history_witness :
  (forall k, (k < 44)%nat -> cutRandom 44 k = @Math_random_seq demoHost k)
  /\ cutRandom 44 44 <> @Math_random_seq demoHost 44
  /\ (draws (last (history (host := demoHost) demoInputs 2) init) <= 44)%nat
  /\ history (host := with_random demoHost (cutRandom 44)) demoInputs 2
     = history (host := demoHost) demoInputs 2.
Proof.
  assert (Hsame : forall k, (k < 44)%nat
                            -> cutRandom 44 k = @Math_random_seq demoHost k).
  { intros k Hk. unfold cutRandom. apply Nat.ltb_lt in Hk. rewrite Hk.
    reflexivity. }
  assert (Hk : (draws (last (history (host := demoHost) demoInputs 2) init)
                <= 44)%nat)
    by (apply Nat.leb_le; vm_compute; reflexivity).
  pose proof (@same_draws_same_history demoHost (cutRandom 44) 44%nat Hsame) as X.
  destruct X as (_ & Hhist & _).
  split; [exact Hsame|]. split; [discriminate|]. split; [exact Hk|].
  exact (Hhist demoInputs 2%nat Hk).
Defined.

(** ** Invariants of a run *)

Section RunInvariants.
Context {host : Host}.

Lemma loop_cases (st : State) :
  loop st = st \/ loop st = stepOnce st \/ loop st = tickOnly st.
Proof.
  unfold loop. destruct (running st) eqn:Er; [|left; reflexivity].
  destruct (Nat.leb (length (agents st)) 500).
  - right. left. reflexivity.
  - right. right. unfold tickOnly. rewrite Er. reflexivity.
Qed.

(** A property of the states that [spawnAll] establishes and that the
    start button, [stepOnce] and the data-mode tick keep holds in every
    state of a run. *)
Lemma history_inv (P : State -> Prop) (inp : Inputs) (n : nat) :
  P (spawnAll inp init) ->
  (forall st, P st -> P (start st)) ->
  (forall st, P st -> P (stepOnce st)) ->
  (forall st, P st -> P (tickOnly st)) ->
  forall st, In st (history inp n) -> P st.
Proof.
  intros Hspawn Hstart Hstep Htick. unfold history.
  assert (Hloop : forall st, P st -> P (loop st)).
  { intros st Hst. destruct (loop_cases st) as [E|[E|E]]; rewrite E; auto. }
  assert (Hticks : forall m st, P st -> forall s, In s (ticks m st) -> P s).
  { induction m as [|m IH]; intros st Hst s Hs; simpl in Hs.
    - destruct Hs as [<-|[]]. exact Hst.
    - destruct Hs as [<-|Hs]; [exact Hst|]. apply (IH (loop st)); auto. }
  intros st Hst. apply (Hticks n (start (spawnAll inp init))); auto.
Qed.

Lemma newAgent_spawned (ty : AgentType) (k : nat) :
  random_in_range -> 80 <= canvasW -> 80 <= canvasH ->
  agentSpawned canvasW canvasH (fst (newAgent ty k)).
Proof.
  intros Hr HW HH. unfold newAgent, rand, bind, Math_random, ret, agentSpawned.
  simpl.
  destruct (rand_between _ 40 (canvasW - 40) (Hr k)) as [Hx _].
  destruct (rand_between _ 40 (canvasH - 40) (Hr (S k))) as [Hy _].
  pose proof (Hr (S (S k))) as R2. pose proof (Hr (S (S (S k)))) as R3.
  pose proof (Hr (S (S (S (S k))))) as R4.
  assert (40 <= canvasW - 40) as HW' by lra.
  assert (40 <= canvasH - 40) as HH' by lra.
  specialize (Hx HW'). specialize (Hy HH').
  repeat split; try lra.
Qed.

(** X5.  On a canvas of at least 80 by 80 pixels, with [Math.random()] in
    [0, 1), every agent that [spawnAll] creates is at least 40 pixels from
    every edge, has velocity components from -0.8 up to 0.8, a wobble
    from 0 up to 10, and a score of 0. *)
Theorem spawnAll_agents_in_range (inp : Inputs) (st : State) :
  random_in_range -> 80 <= canvasW -> 80 <= canvasH ->
  Forall (agentSpawned canvasW canvasH) (agents (spawnAll inp st)).
Proof.
  intros Hr HW HH.
  destruct (spawnAll_parts inp st)
    as (gs & cs & es & fs & ds & k1 & k2 & k3 & k4 & k5
        & Eg & Ec & Ee & _ & _ & E).
  rewrite E. cbn [agents updateStats].
  apply for_push_fst in Eg, Ec, Ee.
  destruct Eg as [-> _], Ec as [-> _], Ee as [-> _].
  repeat (apply Forall_app; split);
    apply for_push_Forall; intros i k; apply newAgent_spawned; assumption.
Qed.

(** The world after [stepOnce], from an invariant of the world that every
    turn keeps. *)
Lemma stepOnce_world_inv (PW : World -> Prop) (st : State) :
  (forall a w k, PW w -> PW (snd (fst (agentTurn a w k)))) ->
  PW (mkWorld (map moveFood (foods st)) (map moveDanger (dangers st)) (score st)) ->
  PW (mkWorld (foods (stepOnce st)) (dangers (stepOnce st)) (score (stepOnce st))).
Proof.
  intros Hturn Hstart. rewrite stepOnce_world.
  apply (agentLoop_inv (fun _ _ => True) PW); [|exact Hstart].
  intros a w k Hw. split; [exact I | apply Hturn, Hw].
Qed.

Lemma fold_add_shift {A} (g : A -> Q) (l : list A) (s : Q) :
  fold_right (fun x acc => acc + g x) s l
  == s + fold_right (fun x acc => acc + g x) 0 l.
Proof.
  induction l as [|x l IH]; simpl; [lra|]. rewrite IH. lra.
Qed.

Lemma fold_sub_shift {A} (g : A -> Q) (l : list A) (s : Q) :
  fold_right (fun x acc => acc - g x) s l
  == s + fold_right (fun x acc => acc - g x) 0 l.
Proof.
  induction l as [|x l IH]; simpl; [lra|]. rewrite IH. lra.
Qed.

(** What a turn adds to the agent's score, it adds to the total. *)
Lemma turn_score_delta (a : Agent.t) (w : World) (k : nat) :
  w_score (snd (fst (agentTurn a w k))) + Agent.score a
  == w_score w + Agent.score (fst (fst (agentTurn a w k))).
Proof.
  rewrite agentTurn_eq.
  cbn [fst snd w_score Agent.score Agent.with_score].
  rewrite (moved_score a w k). unfold loss, gain.
  rewrite (fold_sub_shift _ _ (fold_right _ (w_score w) _)).
  rewrite (fold_sub_shift _ _ (fold_right _ (Agent.score a) _)).
  rewrite (fold_add_shift _ _ (w_score w)).
  rewrite (fold_add_shift _ _ (Agent.score a)).
  lra.
Qed.

Lemma agentLoop_score_delta (ags : list Agent.t) :
  forall (w : World) (k : nat),
    w_score (snd (fst (agentLoop ags w k))) + scoreSum ags
    == w_score w + scoreSum (fst (fst (agentLoop ags w k))).
Proof.
  induction ags as [|a rest IH]; intros w k; simpl.
  - lra.
  - unfold bind. pose proof (turn_score_delta a w k) as Ht.
    destruct (agentTurn a w k) as [[a' w'] k']. simpl in Ht.
    specialize (IH w' k').
    destruct (agentLoop rest w' k') as [[rest' w''] k'']. simpl in *. lra.
Qed.

Lemma stepOnce_score_delta (st : State) :
  score (stepOnce st) + scoreSum (agents st)
  == score st + scoreSum (agents (stepOnce st)).
Proof.
  pose proof (agentLoop_score_delta (agents st)
                (mkWorld (map moveFood (foods st)) (map moveDanger (dangers st))
                         (score st)) (draws st)) as Hd.
  rewrite <- stepOnce_world, <- stepOnce_agents in Hd. exact Hd.
Qed.

(** X6.  In every state of a run the total score is the sum of the scores
    of the agents. *)
Theorem total_is_sum_of_agent_scores (inp : Inputs) (n : nat) (st : State) :
  In st (history inp n) -> score st == scoreSum (agents st).
Proof.
  apply (history_inv (fun s => score s == scoreSum (agents s))).
  - pose proof (spawnAll_scores inp init) as Hz.
    destruct (spawnAll_counts inp init) as (_ & _ & _ & _ & Hs). rewrite Hs.
    induction Hz as [|a l Ha _ IH]; simpl; [reflexivity|].
    rewrite Ha, <- IH. reflexivity.
  - intros s Hs. exact Hs.
  - intros s Hs. pose proof (stepOnce_score_delta s). lra.
  - intros s Hs. exact Hs.
Qed.

Lemma tier_isTier (i : nat) : isTier (tier i).
Proof.
  unfold isTier, tier.
  destruct (Nat.eqb (i mod 3) 0); [left; reflexivity|].
  destruct (Nat.eqb (i mod 3) 1); [right; left | right; right]; reflexivity.
Qed.

Lemma isTier_pos (q : Q) : isTier q -> 0 < q.
Proof. intros [ -> | [ -> | -> ] ]; reflexivity. Qed.

Lemma isTier_int (q : Q) : isTier q -> isInt q.
Proof.
  intros [ -> | [ -> | -> ] ]; [exists 10%Z | exists 6%Z | exists 2%Z]; reflexivity.
Qed.

Lemma moveFood_value (f : Food.t) : Food.value (moveFood f) = Food.value f.
Proof. unfold moveFood. destruct (Food.mobile f); reflexivity. Qed.

Lemma moveDanger_severity (d : Danger.t) :
  Danger.severity (moveDanger d) = Danger.severity d.
Proof. unfold moveDanger. destruct (Danger.mobile d); reflexivity. Qed.

Lemma spawnAll_tiersInv (inp : Inputs) (st : State) : tiersInv (spawnAll inp st).
Proof.
  destruct (spawnAll_parts inp st)
    as (gs & cs & es & fs & ds & k1 & k2 & k3 & k4 & k5
        & _ & _ & _ & Ef & Ed & E).
  rewrite E. unfold tiersInv. cbn [foods dangers updateStats].
  apply for_push_fst in Ef, Ed. destruct Ef as [-> _], Ed as [-> _].
  split; apply for_push_Forall; intros i k; apply tier_isTier.
Qed.

Lemma stepOnce_tiersInv (st : State) : tiersInv st -> tiersInv (stepOnce st).
Proof.
  intros [Hf Hd].
  apply (stepOnce_world_inv
           (fun w => Forall (fun f => isTier (Food.value f)) (w_foods w)
                     /\ Forall (fun d => isTier (Danger.severity d)) (w_dangers w))).
  - intros a w k [Hwf Hwd]. rewrite agentTurn_eq. cbn [fst snd w_foods w_dangers].
    split.
    + apply (Forall_incl _ (w_foods w)); [apply incl_filter | exact Hwf].
    + apply (Forall_incl _ (w_dangers w)); [apply survivors_incl | exact Hwd].
  - cbn [w_foods w_dangers]. split; apply Forall_map.
    + eapply Forall_impl; [|exact Hf]. intros f Hv. rewrite moveFood_value. exact Hv.
    + eapply Forall_impl; [|exact Hd]. intros d Hv.
      rewrite moveDanger_severity. exact Hv.
Qed.

Lemma history_tiers (inp : Inputs) (n : nat) (st : State) :
  In st (history inp n) -> tiersInv st.
Proof.
  apply (history_inv tiersInv).
  - apply spawnAll_tiersInv.
  - intros s Hs. exact Hs.
  - apply stepOnce_tiersInv.
  - intros s Hs. exact Hs.
Qed.

Lemma foodTotal_move (fs : list Food.t) :
  foodTotal (map moveFood fs) = foodTotal fs.
Proof.
  induction fs as [|f fs IH]; simpl; [reflexivity|].
  rewrite moveFood_value, IH. reflexivity.
Qed.

Lemma foodTotal_nonneg (fs : list Food.t) :
  Forall (fun f => isTier (Food.value f)) fs -> 0 <= foodTotal fs.
Proof.
  induction 1 as [|f fs Hf _ IH]; simpl; [lra|].
  pose proof (isTier_pos _ Hf). lra.
Qed.

(** The values that a turn collects leave the world. *)
Lemma gain_conserved (a : Agent.t) (fs : list Food.t) (s : Q) :
  gain a fs s + foodTotal (filter (fun f => negb (touches a f)) fs)
  == s + foodTotal fs.
Proof.
  unfold gain. induction fs as [|f fs IH]; simpl; [lra|].
  destruct (touches a f); simpl; lra.
Qed.

Lemma loss_le (a : Agent.t) (ds : list Danger.t) (s : Q) :
  Forall (fun d => isTier (Danger.severity d)) ds -> loss a ds s <= s.
Proof.
  unfold loss. induction 1 as [|d ds Hd _ IH]; simpl; [lra|].
  destruct (touches a d); simpl; [|exact IH].
  pose proof (isTier_pos _ Hd). lra.
Qed.

Lemma stepOnce_potential_le (st : State) :
  tiersInv st ->
  score (stepOnce st) + foodTotal (foods (stepOnce st))
  <= score st + foodTotal (foods st).
Proof.
  intros [Hf Hd].
  pose proof (stepOnce_world_inv
    (fun w => w_score w + foodTotal (w_foods w) <= score st + foodTotal (foods st)
              /\ Forall (fun d => isTier (Danger.severity d)) (w_dangers w)) st)
    as Hinv.
  cbn [w_score w_foods w_dangers] in Hinv. apply Hinv.
  - intros a w k [Hle Hwd]. rewrite agentTurn_eq.
    cbn [fst snd w_score w_foods w_dangers]. split.
    + pose proof (gain_conserved (moved a w k) (w_foods w) (w_score w)).
      pose proof (loss_le (moved a w k) (w_dangers w)
                    (gain (moved a w k) (w_foods w) (w_score w)) Hwd).
      lra.
    + apply (Forall_incl _ (w_dangers w)); [apply survivors_incl | exact Hwd].
  - split.
    + rewrite foodTotal_move. lra.
    + apply Forall_map. eapply Forall_impl; [|exact Hd]. intros d Hv.
      rewrite moveDanger_severity. exact Hv.
Qed.

Lemma stepOnce_potential_eq (st : State) :
  dangers st = [] ->
  dangers (stepOnce st) = []
  /\ score (stepOnce st) + foodTotal (foods (stepOnce st))
     == score st + foodTotal (foods st).
Proof.
  intro Hnone.
  pose proof (stepOnce_world_inv
    (fun w => w_dangers w = []
              /\ w_score w + foodTotal (w_foods w)
                 == score st + foodTotal (foods st)) st)
    as Hinv.
  cbn [w_score w_foods w_dangers] in Hinv. apply Hinv.
  - intros a w k [Hwd Heq]. rewrite agentTurn_eq.
    cbn [fst snd w_score w_foods w_dangers]. rewrite Hwd. simpl. split.
    + reflexivity.
    + unfold loss. simpl.
      pose proof (gain_conserved (moved a w k) (w_foods w) (w_score w)). lra.
  - rewrite Hnone. split; [reflexivity|]. rewrite foodTotal_move. lra.
Qed.

(** X7.  In every state of a run, the total score plus the value of the
    resources still in the world is at most the value of the resources
    that were spawned, so that the score never exceeds that value; in a run
    without hazards the two are equal: what leaves the world is in the
    score. *)
Theorem score_bounded_by_resources (inp : Inputs) (n : nat) (st : State) :
  In st (history inp n) ->
  score st + foodTotal (foods st) <= foodTotal (foods (spawnAll inp init))
  /\ score st <= foodTotal (foods (spawnAll inp init))
  /\ (dangers (spawnAll inp init) = [] ->
      score st + foodTotal (foods st) == foodTotal (foods (spawnAll inp init))).
Proof.
  intro Hst.
  assert (Hs0 : score (spawnAll inp init) = 0)
    by (destruct (spawnAll_counts inp init) as (_ & _ & _ & _ & Hs); exact Hs).
  assert (HP : tiersInv st
               /\ score st + foodTotal (foods st)
                  <= foodTotal (foods (spawnAll inp init))
               /\ (dangers (spawnAll inp init) = [] ->
                   dangers st = []
                   /\ score st + foodTotal (foods st)
                      == foodTotal (foods (spawnAll inp init)))).
  { revert st Hst.
    apply (history_inv
             (fun s => tiersInv s
                       /\ score s + foodTotal (foods s)
                          <= foodTotal (foods (spawnAll inp init))
                       /\ (dangers (spawnAll inp init) = [] ->
                           dangers s = []
                           /\ score s + foodTotal (foods s)
                              == foodTotal (foods (spawnAll inp init))))).
    - split; [apply spawnAll_tiersInv|]. rewrite Hs0.
      split; [lra|]. intro Hn. split; [exact Hn | lra].
    - intros s Hs. exact Hs.
    - intros s (Ht & Hle & Heq). split; [apply stepOnce_tiersInv, Ht|]. split.
      + pose proof (stepOnce_potential_le s Ht). lra.
      + intro Hn. destruct (Heq Hn) as [Hd He].
        destruct (stepOnce_potential_eq s Hd) as [Hd' He'].
        split; [exact Hd' | lra].
    - intros s Hs. exact Hs. }
  destruct HP as ([Hvals _] & Hle & Heq).
  pose proof (foodTotal_nonneg _ Hvals) as Hnn.
  split; [exact Hle|]. split; [lra|].
  intro Hn. apply (Heq Hn).
Qed.

Lemma isInt_add (p q : Q) : isInt p -> isInt q -> isInt (p + q).
Proof.
  intros [zp Hp] [zq Hq]. exists (zp + zq)%Z.
  rewrite inject_Z_plus, Hp, Hq. reflexivity.
Qed.

Lemma isInt_sub (p q : Q) : isInt p -> isInt q -> isInt (p - q).
Proof.
  intros [zp Hp] [zq Hq]. exists (zp - zq)%Z.
  unfold Z.sub. rewrite inject_Z_plus, inject_Z_opp, Hp, Hq. reflexivity.
Qed.

Lemma gain_int (a : Agent.t) (fs : list Food.t) (s : Q) :
  Forall (fun f => isTier (Food.value f)) fs -> isInt s -> isInt (gain a fs s).
Proof.
  intros Hfs Hs. unfold gain. induction Hfs as [|f fs Hf _ IH]; simpl; [exact Hs|].
  destruct (touches a f); simpl; [|exact IH].
  apply isInt_add; [exact IH | apply isTier_int, Hf].
Qed.

Lemma loss_int (a : Agent.t) (ds : list Danger.t) (s : Q) :
  Forall (fun d => isTier (Danger.severity d)) ds -> isInt s -> isInt (loss a ds s).
Proof.
  intros Hds Hs. unfold loss. induction Hds as [|d ds Hd _ IH]; simpl; [exact Hs|].
  destruct (touches a d); simpl; [|exact IH].
  apply isInt_sub; [exact IH | apply isTier_int, Hd].
Qed.

Lemma stepOnce_int (st : State) :
  tiersInv st -> isInt (score st) -> isInt (score (stepOnce st)).
Proof.
  intros [Hf Hd] Hs.
  pose proof (stepOnce_world_inv
    (fun w => isInt (w_score w)
              /\ Forall (fun f => isTier (Food.value f)) (w_foods w)
              /\ Forall (fun d => isTier (Danger.severity d)) (w_dangers w)) st)
    as Hinv.
  cbn [w_score w_foods w_dangers] in Hinv. apply Hinv.
  - intros a w k (Hws & Hwf & Hwd). rewrite agentTurn_eq.
    cbn [fst snd w_score w_foods w_dangers]. split; [|split].
    + apply loss_int; [exact Hwd|]. apply gain_int; assumption.
    + apply (Forall_incl _ (w_foods w)); [apply incl_filter | exact Hwf].
    + apply (Forall_incl _ (w_dangers w)); [apply survivors_incl | exact Hwd].
  - split; [exact Hs|]. split; apply Forall_map.
    + eapply Forall_impl; [|exact Hf]. intros f Hv. rewrite moveFood_value. exact Hv.
    + eapply Forall_impl; [|exact Hd]. intros d Hv.
      rewrite moveDanger_severity. exact Hv.
Qed.

Lemma round_of_int (q : Q) (z : Z) : q == inject_Z z -> Math_round q = z.
Proof.
  intro Hq. unfold Math_round.
  assert (Hlo : (z <= Qfloor (q + (1 # 2)))%Z).
  { rewrite <- (Qfloor_Z z). apply Qfloor_resp_le. lra. }
  assert (Hhi : (Qfloor (q + (1 # 2)) < z + 1)%Z).
  { rewrite Zlt_Qlt. eapply Qle_lt_trans; [apply Qfloor_le|].
    rewrite inject_Z_plus. change (inject_Z 1) with 1. lra. }
  lia.
Qed.

(** X8.  In every state of a run the total score is an integer, so that
    the rounding in [updateStats] changes nothing: the score label shows
    the score itself when it is not negative, and 0 otherwise. *)
Theorem score_is_integer (inp : Inputs) (n : nat) (st : State) :
  In st (history inp n) ->
  exists z : Z,
    score st == inject_Z z
    /\ Math_round (score st) = z
    /\ statScore (ui st) = String_of_Z (Z.max 0 z).
Proof.
  intro Hst.
  assert (Hint : isInt (score st)).
  { revert st Hst.
    apply (history_inv (fun s => tiersInv s /\ isInt (score s)) inp n).
    - split; [apply spawnAll_tiersInv|].
      destruct (spawnAll_counts inp init) as (_ & _ & _ & _ & Hs). rewrite Hs.
      exists 0%Z. reflexivity.
    - intros s Hs. exact Hs.
    - intros s [Ht Hi]. split; [apply stepOnce_tiersInv, Ht|].
      apply stepOnce_int; assumption.
    - intros s Hs. exact Hs. }
  destruct Hint as [z Hz]. exists z.
  pose proof (round_of_int _ _ Hz) as Hround.
  split; [exact Hz|]. split; [exact Hround|].
  rewrite <- Hround.
  apply (ticks_shown n (start (spawnAll inp init))); [|exact Hst].
  apply (spawnAll_shown inp init).
Qed.

Lemma Forall2_map_eq {A B} (g : A -> B) (l l' : list A) :
  Forall2 (fun a a' => g a' = g a) l l' -> map g l' = map g l.
Proof. induction 1; simpl; congruence. Qed.

Lemma moved_identity (a : Agent.t) (w : World) (k : nat) :
  Agent.type (moved a w k) = Agent.type a
  /\ Agent.wobble (moved a w k) = Agent.wobble a.
Proof.
  unfold moved, dampMove. cbn [Agent.type Agent.wobble].
  unfold steer. destruct (Agent.type a) eqn:Ety; simpl.
  - unfold steerGreedy. destruct (seekBest _ _) as [[? ?]|]; simpl; auto.
  - unfold steerCautious, driftToFood.
    assert (Hflee : Agent.type (flee a (w_dangers w)) = cautious
                    /\ Agent.wobble (flee a (w_dangers w)) = Agent.wobble a).
    { unfold flee. destruct (nearestDanger _ _) as [[nd near]|]; [|auto].
      destruct (Qltb nd 120); simpl; auto. }
    destruct (w_foods w) as [|f fs]; [exact Hflee|].
    unfold bind, Math_random, ret.
    destruct (nth_error _ _); simpl; exact Hflee.
  - auto.
Qed.

(** X9.  [stepOnce] keeps the agents: their number, their order, the type
    and the wobble of each; it creates no resource and no hazard, the ones
    it leaves are moved ones of before, and it advances the tick by one. *)
Theorem stepOnce_population (st : State) :
  map Agent.type (agents (stepOnce st)) = map Agent.type (agents st)
  /\ map Agent.wobble (agents (stepOnce st)) = map Agent.wobble (agents st)
  /\ length (agents (stepOnce st)) = length (agents st)
  /\ incl (foods (stepOnce st)) (map moveFood (foods st))
  /\ incl (dangers (stepOnce st)) (map moveDanger (dangers st))
  /\ (length (foods (stepOnce st)) <= length (foods st))%nat
  /\ (length (dangers (stepOnce st)) <= length (dangers st))%nat
  /\ tick (stepOnce st) = S (tick st).
Proof.
  assert (Hloop :
    Forall2 (fun a a' => Agent.type a' = Agent.type a
                         /\ Agent.wobble a' = Agent.wobble a)
            (agents st) (agents (stepOnce st))
    /\ (incl (foods (stepOnce st)) (map moveFood (foods st))
        /\ (length (foods (stepOnce st)) <= length (foods st))%nat)
       /\ (incl (dangers (stepOnce st)) (map moveDanger (dangers st))
           /\ (length (dangers (stepOnce st)) <= length (dangers st))%nat)).
  { pose proof (agentLoop_inv
      (fun a a' => Agent.type a' = Agent.type a
                   /\ Agent.wobble a' = Agent.wobble a)
      (fun w => (incl (w_foods w) (map moveFood (foods st))
                 /\ (length (w_foods w) <= length (foods st))%nat)
                /\ (incl (w_dangers w) (map moveDanger (dangers st))
                    /\ (length (w_dangers w) <= length (dangers st))%nat)))
      as Hinv.
    assert (Hturn : forall a w k,
      (incl (w_foods w) (map moveFood (foods st))
       /\ (length (w_foods w) <= length (foods st))%nat)
      /\ (incl (w_dangers w) (map moveDanger (dangers st))
          /\ (length (w_dangers w) <= length (dangers st))%nat) ->
      (Agent.type (fst (fst (agentTurn a w k))) = Agent.type a
       /\ Agent.wobble (fst (fst (agentTurn a w k))) = Agent.wobble a)
      /\ (incl (w_foods (snd (fst (agentTurn a w k)))) (map moveFood (foods st))
          /\ (length (w_foods (snd (fst (agentTurn a w k))))
              <= length (foods st))%nat)
         /\ (incl (w_dangers (snd (fst (agentTurn a w k))))
                  (map moveDanger (dangers st))
             /\ (length (w_dangers (snd (fst (agentTurn a w k))))
                 <= length (dangers st))%nat)).
    { intros a w k [[Hfi Hfl] [Hdi Hdl]]. rewrite agentTurn_eq.
      cbn [fst snd w_foods w_dangers Agent.with_score Agent.type Agent.wobble].
      split; [apply moved_identity|]. split; split.
      + intros f Hf. apply Hfi. apply filter_In in Hf. tauto.
      + eapply Nat.le_trans; [apply filter_length_le | exact Hfl].
      + intros d Hd. apply Hdi, (survivors_incl _ _ _ _ Hd).
      + eapply Nat.le_trans; [apply survivors_length | exact Hdl]. }
    specialize (Hinv Hturn (agents st)
                  (mkWorld (map moveFood (foods st)) (map moveDanger (dangers st))
                           (score st)) (draws st)).
    rewrite <- stepOnce_agents, <- stepOnce_world in Hinv.
    cbn [w_foods w_dangers] in Hinv. apply Hinv.
    rewrite !length_map. repeat split; try apply incl_refl; lia. }
  destruct Hloop as (Hags & [Hfi Hfl] & [Hdi Hdl]).
  split.
  { apply Forall2_map_eq. eapply Forall2_impl; [|exact Hags].
    intros a a' [Hty _]. exact Hty. }
  split.
  { apply Forall2_map_eq. eapply Forall2_impl; [|exact Hags].
    intros a a' [_ Hwo]. exact Hwo. }
  split; [symmetry; apply (Forall2_length Hags)|].
  split; [exact Hfi|]. split; [exact Hdi|]. split; [exact Hfl|].
  split; [exact Hdl | apply stepOnce_tick].
Qed.

Lemma loop_running (st : State) : running (loop st) = running st.
Proof.
  destruct (loop_cases st) as [E|[E|E]]; rewrite E; [reflexivity| |reflexivity].
  unfold stepOnce. destruct (agentLoop _ _ _) as [[ags w] k]. reflexivity.
Qed.

Lemma loop_tick (st : State) :
  running st = true -> tick (loop st) = S (tick st).
Proof.
  intro Hr. unfold loop. rewrite Hr.
  destruct (Nat.leb _ 500); [apply stepOnce_tick | reflexivity].
Qed.

Lemma ticks_counter (n : nat) :
  forall st, running st = true ->
             map tick (ticks n st) = seq (tick st) (S n).
Proof.
  induction n as [|n IH]; intros st Hr; [reflexivity|].
  change (map tick (ticks (S n) st)) with (tick st :: map tick (ticks n (loop st))).
  rewrite IH by (rewrite loop_running; exact Hr).
  rewrite (loop_tick st Hr). reflexivity.
Qed.

(** X10.  In a run the tick counter counts the calls of [loop]: the states
    of a run of n calls have the ticks 0, 1, ..., n, whatever the number
    of agents. *)
Theorem run_counts_ticks (inp : Inputs) (n : nat) :
  map tick (history inp n) = seq 0 (S n).
Proof.
  unfold history. rewrite ticks_counter by reflexivity.
  destruct (spawnAll_counts inp init) as (_ & _ & _ & Ht & _).
  cbn [tick start]. rewrite Ht. reflexivity.
Qed.

Lemma loop_frozen (st : State) :
  (500 < length (agents st))%nat ->
  agents (loop st) = agents st /\ foods (loop st) = foods st
  /\ dangers (loop st) = dangers st /\ score (loop st) = score st
  /\ draws (loop st) = draws st.
Proof.
  intro Hbig. unfold loop. destruct (running st); [|repeat split].
  assert (E : Nat.leb (length (agents st)) 500 = false)
    by (apply Nat.leb_gt; exact Hbig).
  rewrite E. repeat split.
Qed.

(** X11.  A run with more than 500 agents stands still: in every state of
    the run the agents, resources and hazards are the spawned ones, the
    score is 0 and no further random number has been drawn; only the tick
    counter and its label advance. *)
Theorem data_mode_run_is_frozen (inp : Inputs) (n : nat) (st : State) :
  (500 < length (agents (spawnAll inp init)))%nat ->
  In st (history inp n) ->
  agents st = agents (spawnAll inp init)
  /\ foods st = foods (spawnAll inp init)
  /\ dangers st = dangers (spawnAll inp init)
  /\ score st = 0
  /\ draws st = draws (spawnAll inp init).
Proof.
  intros Hbig Hst.
  assert (Hs0 : score (spawnAll inp init) = 0)
    by (destruct (spawnAll_counts inp init) as (_ & _ & _ & _ & Hs); exact Hs).
  rewrite <- Hs0.
  assert (Hticks : forall m s,
             agents s = agents (spawnAll inp init)
             /\ foods s = foods (spawnAll inp init)
             /\ dangers s = dangers (spawnAll inp init)
             /\ score s = score (spawnAll inp init)
             /\ draws s = draws (spawnAll inp init) ->
             forall s', In s' (ticks m s) ->
               agents s' = agents (spawnAll inp init)
               /\ foods s' = foods (spawnAll inp init)
               /\ dangers s' = dangers (spawnAll inp init)
               /\ score s' = score (spawnAll inp init)
               /\ draws s' = draws (spawnAll inp init)).
  { induction m as [|m IH]; intros s Hs s' Hs'; simpl in Hs'.
    - destruct Hs' as [<-|[]]. exact Hs.
    - destruct Hs' as [<-|Hs']; [exact Hs|].
      apply (IH (loop s)); [|exact Hs'].
      destruct Hs as (Ea & Ef & Ed & Es & Ek).
      destruct (loop_frozen s) as (Ea' & Ef' & Ed' & Es' & Ek');
        [rewrite Ea; exact Hbig|].
      rewrite Ea', Ef', Ed', Es', Ek'. repeat split; assumption. }
  apply (Hticks n (start (spawnAll inp init))); [|exact Hst].
  repeat split.
Qed.

Lemma moveFood_axes (f : Food.t) :
  Food.mobile f = true ->
  (Food.x (moveFood f), Food.vx (moveFood f))
  = axisStep canvasW (Food.x f, Food.vx f)
  /\ (Food.y (moveFood f), Food.vy (moveFood f))
     = axisStep canvasH (Food.y f, Food.vy f)
  /\ Food.mobile (moveFood f) = true.
Proof.
  intro Hm. unfold moveFood. rewrite Hm. repeat split.
Qed.

Lemma moveDanger_axes (d : Danger.t) :
  Danger.mobile d = true ->
  (Danger.x (moveDanger d), Danger.vx (moveDanger d))
  = axisStep canvasW (Danger.x d, Danger.vx d)
  /\ (Danger.y (moveDanger d), Danger.vy (moveDanger d))
     = axisStep canvasH (Danger.y d, Danger.vy d)
  /\ Danger.mobile (moveDanger d) = true.
Proof.
  intro Hm. unfold moveDanger. rewrite Hm. repeat split.
Qed.

Lemma moveFood_iter (n : nat) (f : Food.t) :
  Food.mobile f = true ->
  (Food.x (Nat.iter n moveFood f), Food.vx (Nat.iter n moveFood f))
  = Nat.iter n (axisStep canvasW) (Food.x f, Food.vx f)
  /\ (Food.y (Nat.iter n moveFood f), Food.vy (Nat.iter n moveFood f))
     = Nat.iter n (axisStep canvasH) (Food.y f, Food.vy f)
  /\ Food.mobile (Nat.iter n moveFood f) = true.
Proof.
  intro Hm. induction n as [|n (IHx & IHy & IHm)]; [repeat split; exact Hm|].
  cbn [Nat.iter nat_rect].
  destruct (moveFood_axes (Nat.iter n moveFood f) IHm) as (Ex & Ey & Em).
  unfold Nat.iter in *. rewrite Ex, Ey, IHx, IHy. repeat split. exact Em.
Qed.

Lemma moveDanger_iter (n : nat) (d : Danger.t) :
  Danger.mobile d = true ->
  (Danger.x (Nat.iter n moveDanger d), Danger.vx (Nat.iter n moveDanger d))
  = Nat.iter n (axisStep canvasW) (Danger.x d, Danger.vx d)
  /\ (Danger.y (Nat.iter n moveDanger d), Danger.vy (Nat.iter n moveDanger d))
     = Nat.iter n (axisStep canvasH) (Danger.y d, Danger.vy d)
  /\ Danger.mobile (Nat.iter n moveDanger d) = true.
Proof.
  intro Hm. induction n as [|n (IHx & IHy & IHm)]; [repeat split; exact Hm|].
  cbn [Nat.iter nat_rect].
  destruct (moveDanger_axes (Nat.iter n moveDanger d) IHm) as (Ex & Ey & Em).
  unfold Nat.iter in *. rewrite Ex, Ey, IHx, IHy. repeat split. exact Em.
Qed.

Lemma reflect_outside (L x v : Q) : outsideBand L x -> reflect L x v = v * -1.
Proof.
  intros Hout. unfold reflect.
  destruct Hout as [Hlo|Hhi].
  - apply Qltb_lt in Hlo. rewrite Hlo. reflexivity.
  - apply Qltb_lt in Hhi. rewrite Hhi, orb_true_r. reflexivity.
Qed.

(** Outside the band on both of its two positions, an item alternates
    between them. *)
Lemma axis_stuck (L x v : Q) (n : nat) :
  outsideBand L x -> outsideBand L (x + v) ->
  (fst (Nat.iter (2 * n) (axisStep L) (x, v)) == x
   /\ snd (Nat.iter (2 * n) (axisStep L) (x, v)) == v)
  /\ (fst (Nat.iter (S (2 * n)) (axisStep L) (x, v)) == x + v
      /\ snd (Nat.iter (S (2 * n)) (axisStep L) (x, v)) == - v).
Proof.
  intros H0 H1.
  assert (Hstep01 : forall xv, fst xv == x /\ snd xv == v ->
            fst (axisStep L xv) == x + v /\ snd (axisStep L xv) == - v).
  { intros [x' v'] [Ex Ev]. simpl in Ex, Ev. unfold axisStep. cbn [fst snd].
    rewrite reflect_outside; [lra|].
    destruct H1 as [Hlo|Hhi]; [left | right]; lra. }
  assert (Hstep10 : forall xv, fst xv == x + v /\ snd xv == - v ->
            fst (axisStep L xv) == x /\ snd (axisStep L xv) == v).
  { intros [x' v'] [Ex Ev]. simpl in Ex, Ev. unfold axisStep. cbn [fst snd].
    rewrite reflect_outside; [lra|].
    destruct H0 as [Hlo|Hhi]; [left | right]; lra. }
  induction n as [|n [IH0 IH1]].
  - split; [split; reflexivity|]. apply Hstep01. split; reflexivity.
  - replace (2 * S n)%nat with (S (S (2 * n))) by lia.
    assert (H2 : fst (Nat.iter (S (S (2 * n))) (axisStep L) (x, v)) == x
                 /\ snd (Nat.iter (S (S (2 * n))) (axisStep L) (x, v)) == v).
    { change (Nat.iter (S (S (2 * n))) (axisStep L) (x, v))
        with (axisStep L (Nat.iter (S (2 * n)) (axisStep L) (x, v))).
      apply Hstep10. exact IH1. }
    split; [exact H2|].
    change (Nat.iter (S (S (S (2 * n)))) (axisStep L) (x, v))
      with (axisStep L (Nat.iter (S (S (2 * n))) (axisStep L) (x, v))).
    apply Hstep01. exact H2.
Qed.

Lemma axis_stuck_outside (L x v : Q) (n : nat) :
  outsideBand L x -> outsideBand L (x + v) ->
  outsideBand L (fst (Nat.iter n (axisStep L) (x, v))).
Proof.
  intros H0 H1.
  destruct (Nat.Even_or_Odd n) as [[m ->]|[m ->]].
  - destruct (axis_stuck L x v m H0 H1) as [[Ex _] _].
    unfold outsideBand in *. rewrite Ex. exact H0.
  - replace (2 * m + 1)%nat with (S (2 * m)) by lia.
    destruct (axis_stuck L x v m H0 H1) as [_ [Ex _]].
    unfold outsideBand in *. rewrite Ex. exact H1.
Qed.

(** X12.  A mobile resource whose x coordinate, now and after one step, is
    outside the band from 20 to the canvas width less 20 (as after the
    canvas has shrunk) never comes back: its velocity changes sign on every
    update, it alternates between the two positions, and it is outside the
    band after every number of updates. *)
Theorem stray_food_never_returns (f : Food.t) (n : nat) :
  Food.mobile f = true ->
  outsideBand canvasW (Food.x f) ->
  outsideBand canvasW (Food.x f + Food.vx f) ->
  outsideBand canvasW (Food.x (Nat.iter n moveFood f))
  /\ Food.x (Nat.iter (2 * n) moveFood f) == Food.x f
  /\ Food.vx (Nat.iter (2 * n) moveFood f) == Food.vx f
  /\ Food.x (Nat.iter (S (2 * n)) moveFood f) == Food.x f + Food.vx f
  /\ Food.vx (Nat.iter (S (2 * n)) moveFood f) == - Food.vx f.
Proof.
  intros Hm H0 H1.
  pose proof (axis_stuck_outside canvasW _ _ n H0 H1) as Hout.
  destruct (axis_stuck canvasW _ _ n H0 H1) as [[E0x E0v] [E1x E1v]].
  destruct (moveFood_iter n f Hm) as (En & _ & _).
  destruct (moveFood_iter (2 * n) f Hm) as (E2 & _ & _).
  destruct (moveFood_iter (S (2 * n)) f Hm) as (E3 & _ & _).
  rewrite <- En in Hout. rewrite <- E2 in E0x, E0v. rewrite <- E3 in E1x, E1v.
  cbn [fst snd] in *. repeat split; assumption.
Qed.

(** X13.  The same for a mobile hazard, on the y axis as on the x axis: a
    hazard outside the band on an axis, now and after one step, stays
    outside it on that axis for ever. *)
Theorem stray_danger_never_returns (d : Danger.t) (n : nat) :
  Danger.mobile d = true ->
  (outsideBand canvasW (Danger.x d) ->
   outsideBand canvasW (Danger.x d + Danger.vx d) ->
   outsideBand canvasW (Danger.x (Nat.iter n moveDanger d))
   /\ Danger.x (Nat.iter (2 * n) moveDanger d) == Danger.x d)
  /\ (outsideBand canvasH (Danger.y d) ->
      outsideBand canvasH (Danger.y d + Danger.vy d) ->
      outsideBand canvasH (Danger.y (Nat.iter n moveDanger d))
      /\ Danger.y (Nat.iter (2 * n) moveDanger d) == Danger.y d).
Proof.
  intro Hm.
  destruct (moveDanger_iter n d Hm) as (Enx & Eny & _).
  destruct (moveDanger_iter (2 * n) d Hm) as (E2x & E2y & _).
  split; intros H0 H1.
  - pose proof (axis_stuck_outside canvasW _ _ n H0 H1) as Hout.
    destruct (axis_stuck canvasW _ _ n H0 H1) as [[E0x _] _].
    rewrite <- Enx in Hout. rewrite <- E2x in E0x.
    cbn [fst snd] in *. split; assumption.
  - pose proof (axis_stuck_outside canvasH _ _ n H0 H1) as Hout.
    destruct (axis_stuck canvasH _ _ n H0 H1) as [[E0y _] _].
    rewrite <- Eny in Hout. rewrite <- E2y in E0y.
    cbn [fst snd] in *. split; assumption.
Qed.

Lemma Forall2_Forall {A} (P Q : A -> Prop) (l l' : list A) :
  Forall P l -> Forall2 (fun a a' => P a -> Q a') l l' -> Forall Q l'.
Proof.
  intros HP H2. induction H2 as [|a a' l l' Haa _ IH]; [constructor|].
  inversion HP; subst. constructor; auto.
Qed.

Lemma newAgent_pace (ty : AgentType) (k : nat) :
  random_in_range -> explorerPace (fst (newAgent ty k)).
Proof.
  intros Hr _. unfold newAgent, rand, bind, Math_random, ret. simpl.
  pose proof (Hr (S (S k))) as R2. pose proof (Hr (S (S (S k)))) as R3.
  split; lra.
Qed.

Lemma moved_pace (a : Agent.t) (w : World) (k : nat) :
  random_in_range -> explorerPace a -> explorerPace (moved a w k).
Proof.
  intros Hr Ha Hty.
  destruct (moved_identity a w k) as [Ety _]. rewrite Ety in Hty.
  specialize (Ha Hty). destruct Ha as [Hx Hy].
  unfold moved, steer. rewrite Hty.
  unfold steerExplorer, rand, bind, Math_random, ret, dampMove. simpl.
  pose proof (Hr k) as R0.
  pose proof (Hr (S k)) as R1.
  split; lra.
Qed.

Lemma stepOnce_pace (st : State) :
  random_in_range ->
  Forall explorerPace (agents st) -> Forall explorerPace (agents (stepOnce st)).
Proof.
  intros Hr Hall. rewrite stepOnce_agents.
  apply (Forall2_Forall explorerPace explorerPace (agents st)); [exact Hall|].
  apply (agentLoop_inv (fun a a' => explorerPace a -> explorerPace a')
                       (fun _ => True)); [|exact I].
  intros a w k _. split; [|exact I].
  rewrite agentTurn_eq. cbn [fst]. intros Ha Hty.
  apply (moved_pace a w k Hr Ha). exact Hty.
Qed.

(** X14.  With [Math.random()] in [0, 1), an explorer never has a velocity
    component beyond 0.98 in size, in any state of a run: the damping by
    0.98 outweighs the random push of at most 0.02. *)
Theorem explorer_pace_bounded (inp : Inputs) (n : nat) (st : State) :
  random_in_range ->
  In st (history inp n) ->
  Forall (fun a =>
            Agent.type a = explorer ->
            -0.98 <= Agent.vx a <= 0.98 /\ -0.98 <= Agent.vy a <= 0.98)
         (agents st).
Proof.
  intros Hr. revert st.
  apply (history_inv (fun s => Forall explorerPace (agents s))).
  - destruct (spawnAll_parts inp init)
      as (gs & cs & es & fs & ds & k1 & k2 & k3 & k4 & k5
          & Eg & Ec & Ee & _ & _ & E).
    rewrite E. cbn [agents updateStats].
    apply for_push_fst in Eg, Ec, Ee.
    destruct Eg as [-> _], Ec as [-> _], Ee as [-> _].
    repeat (apply Forall_app; split);
      apply for_push_Forall; intros i k; apply newAgent_pace; exact Hr.
  - intros s Hs. exact Hs.
  - intros s Hs. apply stepOnce_pace; assumption.
  - intros s Hs. exact Hs.
Qed.

End RunInvariants.

(** ** The buttons and the pending callbacks *)

Section PageProperties.
Context {host : Host}.

Lemma stepOnce_headcount (st : State) :
  length (agents (stepOnce st)) = length (agents st).
Proof.
  rewrite stepOnce_agents. symmetry.
  apply (@Forall2_length _ _ (fun _ _ => True)).
  apply (agentLoop_inv (fun _ _ => True) (fun _ => True)); [|exact I].
  intros a w k _. split; exact I.
Qed.

Lemma loop_headcount (st : State) :
  length (agents (loop st)) = length (agents st).
Proof.
  destruct (loop_cases st) as [E|[E|E]]; rewrite E;
    [reflexivity | apply stepOnce_headcount | reflexivity].
Qed.

Lemma spawnAll_running (inp : Inputs) (st : State) :
  running (spawnAll inp st) = running st.
Proof.
  destruct (spawnAll_parts inp st)
    as (gs & cs & es & fs & ds & k1 & k2 & k3 & k4 & k5 & _ & _ & _ & _ & _ & E).
  rewrite E. reflexivity.
Qed.

Lemma loopPage_paused (p : Page) : running (sim p) = false -> loopPage p = p.
Proof. intro Hr. unfold loopPage. rewrite Hr. reflexivity. Qed.

Lemma cancelFrame_incl (h : positive) (fs : list positive) :
  incl (cancelFrame h fs) fs.
Proof. intros x Hx. apply in_remove in Hx. tauto. Qed.

Lemma callback_when_paused (p : Page) (e : Event) :
  running (sim p) = false -> isCallback e ->
  sim (react p e) = sim p /\ raf (react p e) = raf p
  /\ (timers (react p e) <= timers p)%nat
  /\ incl (frames (react p e)) (frames p).
Proof.
  intros Hr He. destruct e as [inp| | |h|]; try contradiction; simpl.
  - destruct (in_dec Pos.eq_dec h (frames p)) as [Hin|Hout].
    + rewrite loopPage_paused by exact Hr. simpl.
      repeat split; [lia | apply cancelFrame_incl].
    + repeat split; [lia | apply incl_refl].
  - destruct (timers p) as [|t] eqn:Et.
    + repeat split; [lia | apply incl_refl].
    + rewrite loopPage_paused by exact Hr. simpl.
      repeat split; [lia | apply incl_refl].
Qed.

(** X15.  After a click on the pause button the callbacks of [loop] that
    are still pending change nothing when they come due: the simulation
    state stays the paused one, [raf] stays null, and no new callback is
    set. *)
Theorem pause_freezes_the_simulation (p : Page) (es : list Event) :
  Forall isCallback es ->
  sim (reactAll (react p ClickPause) es) = pause (sim p)
  /\ raf (reactAll (react p ClickPause) es) = None
  /\ (timers (reactAll (react p ClickPause) es) <= timers p)%nat
  /\ incl (frames (reactAll (react p ClickPause) es)) (frames p).
Proof.
  intro Hes.
  assert (Hgen : forall q,
            running (sim q) = false ->
            sim (reactAll q es) = sim q /\ raf (reactAll q es) = raf q
            /\ (timers (reactAll q es) <= timers q)%nat
            /\ incl (frames (reactAll q es)) (frames q)).
  { induction Hes as [|e es He _ IH]; intros q Hq; simpl.
    - repeat split; [lia | apply incl_refl].
    - destruct (callback_when_paused q e Hq He) as (Es & Er & Et & Ef).
      destruct (IH (react q e)) as (Es' & Er' & Et' & Ef');
        [rewrite Es; exact Hq|].
      unfold reactAll in *. rewrite Es', Er', Es, Er.
      repeat split; [lia | eapply incl_tran; eassumption]. }
  destruct (Hgen (react p ClickPause) eq_refl) as (Es & Er & Et & Ef).
  rewrite Es, Er. simpl in *.
  repeat split; [exact Et|].
  eapply incl_tran; [exact Ef|].
  destruct (raf p); [apply cancelFrame_incl | apply incl_refl].
Qed.

(** The state of the callbacks in demo mode. *)
Lemma demo_step (p : Page) (e : Event) :
  keepsDemo e ->
  (length (agents (sim p)) <= 10)%nat /\ timers p = 0%nat
  /\ (if running (sim p)
      then exists h, frames p = [h] /\ raf p = Some h
      else frames p = []) ->
  (length (agents (sim (react p e))) <= 10)%nat /\ timers (react p e) = 0%nat
  /\ (if running (sim (react p e))
      then exists h, frames (react p e) = [h] /\ raf (react p e) = Some h
      else frames (react p e) = []).
Proof.
  intros He (Hsize & Ht & Hf).
  assert (Hloop : forall q,
            running (sim q) = true -> (length (agents (sim q)) <= 10)%nat ->
            timers q = 0%nat -> frames q = [] ->
            (length (agents (sim (loopPage q))) <= 10)%nat
            /\ timers (loopPage q) = 0%nat
            /\ (if running (sim (loopPage q))
                then exists h, frames (loopPage q) = [h]
                               /\ raf (loopPage q) = Some h
                else frames (loopPage q) = [])).
  { intros q Hr Hs Htq Hfq. unfold loopPage. rewrite Hr.
    assert (E : Nat.leb (length (agents (loop (sim q)))) 10 = true)
      by (apply Nat.leb_le; rewrite loop_headcount; exact Hs).
    rewrite E. cbn [sim timers frames raf].
    rewrite loop_headcount, loop_running, Hr, Hfq.
    repeat split; [exact Hs | exact Htq |].
    exists (nextHandle q). split; reflexivity. }
  destruct e as [inp| | |h|]; simpl in *.
  - rewrite spawnAll_running. repeat split; [|exact Ht | exact Hf].
    destruct (spawnAll_counts inp (sim p)) as (La & _). rewrite La. exact He.
  - destruct (running (sim p)) eqn:Hr.
    + rewrite Hr. repeat split; assumption.
    + apply Hloop; simpl; auto.
  - repeat split; [exact Hsize | exact Ht |].
    destruct (running (sim p)).
    + destruct Hf as (h & -> & ->). unfold cancelFrame. simpl.
      destruct (Pos.eq_dec h h); [reflexivity | contradiction].
    + rewrite Hf. destruct (raf p); reflexivity.
  - destruct (in_dec Pos.eq_dec h (frames p)) as [Hin|Hout].
    + destruct (running (sim p)) eqn:Hr.
      * destruct Hf as (h0 & Ef & Er). rewrite Ef in Hin.
        destruct Hin as [<-|[]].
        apply Hloop; simpl; auto.
        rewrite Ef. unfold cancelFrame. simpl.
        destruct (Pos.eq_dec h0 h0); [reflexivity | contradiction].
      * rewrite Hf in Hin. destruct Hin.
    + repeat split; assumption.
  - rewrite Ht. repeat split; assumption.
Qed.

(** X16.  While [spawnAll] never creates more than 10 agents, the page has
    exactly one callback of [loop] pending while the simulation runs, an
    animation frame whose handle is in [raf], and none while it is paused,
    whatever is clicked and whenever: the simulation steps once per
    animation frame and never runs twice at a time. *)
Theorem demo_mode_single_loop (inp : Inputs) (es : list Event) :
  demoSized inp ->
  Forall keepsDemo es ->
  timers (reactAll (initPage inp) es) = 0%nat
  /\ (if running (sim (reactAll (initPage inp) es))
      then exists h, frames (reactAll (initPage inp) es) = [h]
                     /\ raf (reactAll (initPage inp) es) = Some h
      else frames (reactAll (initPage inp) es) = []).
Proof.
  intros Hinp Hes.
  assert (Hgen : forall q,
            ((length (agents (sim q)) <= 10)%nat /\ timers q = 0%nat
             /\ (if running (sim q)
                 then exists h, frames q = [h] /\ raf q = Some h
                 else frames q = [])) ->
            (length (agents (sim (reactAll q es))) <= 10)%nat
            /\ timers (reactAll q es) = 0%nat
            /\ (if running (sim (reactAll q es))
                then exists h, frames (reactAll q es) = [h]
                               /\ raf (reactAll q es) = Some h
                else frames (reactAll q es) = [])).
  { induction Hes as [|e es He _ IH]; intros q Hq; simpl; [exact Hq|].
    apply IH. apply demo_step; assumption. }
  apply Hgen. unfold initPage. cbn [sim timers frames raf].
  rewrite spawnAll_running. simpl.
  repeat split.
  destruct (spawnAll_counts inp init) as (La & _). rewrite La. exact Hinp.
Qed.

(** X17.  In data mode (more than 10 agents) a click on pause does not
    take back the pending timer of [loop], so that pause followed by start
    before the timer is due leaves one more timer pending than before, and
    the start steps the simulation at once; a timer that comes due while
    the simulation runs steps it and sets a new timer.  Every such pause
    and start adds a loop that steps the simulation. *)
Theorem data_mode_resume_adds_a_loop (p : Page) :
  running (sim p) = true ->
  (10 < length (agents (sim p)))%nat ->
  timers (react (react p ClickPause) ClickStart) = S (timers p)
  /\ running (sim (react (react p ClickPause) ClickStart)) = true
  /\ tick (sim (react (react p ClickPause) ClickStart)) = S (tick (sim p))
  /\ ((0 < timers p)%nat ->
      timers (react p TimerDue) = timers p
      /\ running (sim (react p TimerDue)) = true
      /\ tick (sim (react p TimerDue)) = S (tick (sim p))).
Proof.
  intros Hr Hbig.
  assert (Hloop : forall q,
            running (sim q) = true -> (10 < length (agents (sim q)))%nat ->
            timers (loopPage q) = S (timers q)
            /\ running (sim (loopPage q)) = true
            /\ tick (sim (loopPage q)) = S (tick (sim q))).
  { intros q Hq Hs. unfold loopPage. rewrite Hq.
    assert (E : Nat.leb (length (agents (loop (sim q)))) 10 = false)
      by (apply Nat.leb_gt; rewrite loop_headcount; exact Hs).
    rewrite E. cbn [sim timers].
    rewrite loop_running, (loop_tick _ Hq). auto. }
  destruct (Hloop (mkPage (start (pause (sim p))) None
                          (match raf p with
                           | Some h => cancelFrame h (frames p)
                           | None => frames p
                           end)
                          (timers p) (nextHandle p)))
    as (Ht & Hr2 & Hk); [reflexivity | exact Hbig |].
  split; [exact Ht|]. split; [exact Hr2|]. split; [exact Hk|].
  intro Hpos. simpl. destruct (timers p) as [|t] eqn:Et; [lia|].
    destruct (Hloop (mkPage (sim p) (raf p) (frames p) t (nextHandle p)))
      as (Ht' & Hr' & Hk'); simpl; auto.
Qed.

End PageProperties.

(** ** A world without resources *)

Section NoResources.
Context {host : Host}.

Lemma moved_without_food (a : Agent.t) (w : World) (k : nat) :
  w_foods w = [] -> Agent.type a = greedy -> coasted a (moved a w k).
Proof.
  intros Hf Hty. unfold moved, steer. rewrite Hf, Hty. simpl.
  unfold coasted, dampMove. simpl. repeat split.
Qed.

(** X18.  Once no resource is left, none appears again, and a tick does
    nothing to a greedy agent but damp its velocity by 0.98, move it by the
    damped velocity and clamp it: without a target it coasts to a halt. *)
Theorem greedy_coasts_without_resources (st : State) :
  foods st = [] ->
  foods (stepOnce st) = []
  /\ Forall2 (fun a a' => Agent.type a = greedy -> coasted a a')
             (agents st) (agents (stepOnce st)).
Proof.
  intro Hnone.
  pose proof (agentLoop_inv
                (fun a a' => Agent.type a = greedy -> coasted a a')
                (fun w => w_foods w = [])) as Hinv.
  assert (Hturn : forall a w k,
            w_foods w = [] ->
            (Agent.type a = greedy -> coasted a (fst (fst (agentTurn a w k))))
            /\ w_foods (snd (fst (agentTurn a w k))) = []).
  { intros a w k Hw. rewrite agentTurn_eq. cbn [fst snd w_foods]. split.
    - intro Hty. apply (moved_without_food a w k Hw Hty).
    - rewrite Hw. reflexivity. }
  specialize (Hinv Hturn (agents st)
                (mkWorld (map moveFood (foods st)) (map moveDanger (dangers st))
                         (score st)) (draws st)).
  rewrite <- stepOnce_agents, <- stepOnce_world in Hinv. cbn [w_foods] in Hinv.
  destruct Hinv as [Hags Hfoods]; [rewrite Hnone; reflexivity|].
  split; assumption.
Qed.

End NoResources.

(** ** Painting, the logo and the backdrop *)

Section Painting.
Context {host : Host}.

(** X19.  In every state of a run every resource has one of the values
    10, 6 and 2 and [drawFood] paints it in the colour of that value, and
    every hazard has one of the severities 10, 6 and 2 and [drawDanger]
    paints it in the colour of that severity: the tests against 8 and 5
    tell the three apart. *)
Theorem items_painted_by_tier (inp : Inputs) (n : nat) (st : State) :
  In st (history inp n) ->
  Forall (fun f =>
            (Food.value f = 10 /\ foodColor (Food.value f) = "#ffd54a"%string)
            \/ (Food.value f = 6 /\ foodColor (Food.value f) = "#9ee493"%string)
            \/ (Food.value f = 2 /\ foodColor (Food.value f) = "#b5e0ff"%string))
         (foods st)
  /\ Forall (fun d =>
               (Danger.severity d = 10
                /\ dangerColor (Danger.severity d) = "#ff7f50"%string)
               \/ (Danger.severity d = 6
                   /\ dangerColor (Danger.severity d) = "#ffb3a7"%string)
               \/ (Danger.severity d = 2
                   /\ dangerColor (Danger.severity d) = "#ffdfd5"%string))
            (dangers st).
Proof.
  intro Hst. destruct (history_tiers inp n st Hst) as [Hf Hd]. split.
  - eapply Forall_impl; [|exact Hf]. intros f [E|[E|E]]; rewrite E.
    + left. split; reflexivity.
    + right. left. split; reflexivity.
    + right. right. split; reflexivity.
  - eapply Forall_impl; [|exact Hd]. intros d [E|[E|E]]; rewrite E.
    + left. split; reflexivity.
    + right. left. split; reflexivity.
    + right. right. split; reflexivity.
Qed.

Lemma js_rem_360 (a : Q) :
  0 <= a ->
  0 <= js_rem a 360 < 360
  /\ js_rem a 360 == a - 360 * inject_Z (Qfloor (a / 360)).
Proof.
  intro Ha. unfold js_rem, Qtrunc.
  assert (Hq : a == 360 * (a / 360)) by field.
  assert (Hq0 : 0 <= a / 360) by lra.
  assert (E : Qltb (a / 360) 0 = false) by (apply Qltb_ge; exact Hq0).
  rewrite E.
  pose proof (Qfloor_le (a / 360)) as Hlo.
  pose proof (Qlt_floor (a / 360)) as Hhi.
  rewrite inject_Z_plus in Hhi. change (inject_Z 1) with 1 in Hhi.
  split; [split; lra | reflexivity].
Qed.

(** X20.  The angle of the logo, which a timer advances by a step that is
    not negative and takes modulo 360, is at least 0 and below 360 after
    every number of timer calls; a call adds the step, and takes off 360
    when the sum reaches 360. *)
Theorem logo_angle_in_range (step : Q) (n : nat) :
  0 <= step ->
  0 <= Nat.iter n (spin step) 0 < 360
  /\ (forall ang, 0 <= ang -> ang + step < 360 -> spin step ang == ang + step)
  /\ (forall ang, 0 <= ang -> 360 <= ang + step < 720 ->
                  spin step ang == ang + step - 360).
Proof.
  intro Hs. split; [|split].
  - induction n as [|n IH]; [simpl; split; [lra | reflexivity]|].
    change (Nat.iter (S n) (spin step) 0) with (spin step (Nat.iter n (spin step) 0)).
    unfold spin at 1 3.
    destruct (js_rem_360 (Nat.iter n (spin step) 0 + step)) as [Hr _]; [lra|].
    exact Hr.
  - intros ang Ha Hlt. unfold spin.
    destruct (js_rem_360 (ang + step)) as [_ E]; [lra|]. rewrite E.
    assert (Hz : Qfloor ((ang + step) / 360) = 0%Z).
    { assert (0 <= (ang + step) / 360 < 1) as [H0 H1].
      { assert (Hq : ang + step == 360 * ((ang + step) / 360)) by field.
        split; lra. }
      pose proof (Qfloor_resp_le _ _ H0) as Hlo. change (Qfloor 0) with 0%Z in Hlo.
      pose proof (Qfloor_le ((ang + step) / 360)) as Hle.
      assert (Hlt1 : (Qfloor ((ang + step) / 360) < 1)%Z).
      { rewrite Zlt_Qlt. change (inject_Z 1) with 1. lra. }
      lia. }
    rewrite Hz. change (inject_Z 0) with 0. lra.
  - intros ang Ha [Hge Hlt]. unfold spin.
    destruct (js_rem_360 (ang + step)) as [_ E]; [lra|]. rewrite E.
    assert (Hz : Qfloor ((ang + step) / 360) = 1%Z).
    { assert (1 <= (ang + step) / 360 < 2) as [H0 H1].
      { assert (Hq : ang + step == 360 * ((ang + step) / 360)) by field.
        split; lra. }
      pose proof (Qfloor_resp_le _ _ H0) as Hlo. change (Qfloor 1) with 1%Z in Hlo.
      pose proof (Qfloor_le ((ang + step) / 360)) as Hle.
      assert (Hlt2 : (Qfloor ((ang + step) / 360) < 2)%Z).
      { rewrite Zlt_Qlt. change (inject_Z 2) with 2. lra. }
      lia. }
    rewrite Hz. change (inject_Z 1) with 1. lra.
Qed.

End Painting.

(** ** The dots of the backdrop *)

Section BackdropDots.
Context {host : Host}.
Variable width : Q.

(** What the constructor gives a dot. *)
Lemma newDot_made (k : nat) :
  random_in_range -> 0 <= width ->
  0 <= Backdrop.x (fst (Backdrop.newDot width k)) <= width
  /\ 0 <= Backdrop.y (fst (Backdrop.newDot width k)) <= Backdrop.height
  /\ -0.6 <= Backdrop.dx (fst (Backdrop.newDot width k)) < 0.6
  /\ -0.6 <= Backdrop.dy (fst (Backdrop.newDot width k)) < 0.6
  /\ Backdrop.size (fst (Backdrop.newDot width k)) = 6
  /\ exists c, Backdrop.color (fst (Backdrop.newDot width k)) = Some c
               /\ In c Backdrop.palette.
Proof.
  intros Hr HW.
  pose proof (Hr k) as R0. pose proof (Hr (S k)) as R1.
  pose proof (Hr (S (S k))) as R2. pose proof (Hr (S (S (S k)))) as R3.
  pose proof (Hr (S (S (S (S k))))) as R4.
  assert (Hc : exists c,
             nth_error Backdrop.palette
               (Z.to_nat (Math_floor (Math_random_seq (S (S (S (S k)))) * 3)))
             = Some c /\ In c Backdrop.palette).
  { pose proof (random_index _ 3 R4 (Nat.lt_0_succ 2)) as Hidx.
    change (inject_Z (Z.of_nat 3)) with 3 in Hidx.
    destruct (nth_error Backdrop.palette _) as [c|] eqn:E.
    - exists c. split; [reflexivity | apply (nth_error_In _ _ E)].
    - apply nth_error_None in E.
      change (length Backdrop.palette) with 3%nat in E. lia. }
  assert (H : 0 <= Math_random_seq k * width)
    by (apply Qmult_le_0_compat; lra).
  assert (H0 : 0 <= (1 - Math_random_seq k) * width)
    by (apply Qmult_le_0_compat; lra).
  unfold Backdrop.newDot, bind, Math_random, ret, Backdrop.height.
  cbn [fst Backdrop.x Backdrop.y Backdrop.dx Backdrop.dy Backdrop.size
       Backdrop.color].
  split; [lra|]. clear H H0.
  split; [lra|]. split; [lra|]. split; [lra|].
  split; [reflexivity | exact Hc].
Qed.

(** X21.  With [Math.random()] in [0, 1) and a window that is not of
    negative width, the script creates 18 dots, each on the canvas, with
    velocity components from -0.6 up to 0.6, of size 6, and with one of
    the three colours of the palette: the colour index is never outside
    the array. *)
Theorem backdrop_dots_made (k : nat) :
  random_in_range -> 0 <= width ->
  length (fst (Backdrop.dots width k)) = 18%nat
  /\ Forall (fun d =>
               0 <= Backdrop.x d <= width
               /\ 0 <= Backdrop.y d <= 350
               /\ -0.6 <= Backdrop.dx d < 0.6
               /\ -0.6 <= Backdrop.dy d < 0.6
               /\ Backdrop.size d = 6
               /\ exists c, Backdrop.color d = Some c /\ In c Backdrop.palette)
            (fst (Backdrop.dots width k)).
Proof.
  intros Hr HW. unfold Backdrop.dots. split; [apply for_push_length|].
  apply for_push_Forall. intros i j. apply newDot_made; assumption.
Qed.

Lemma bounce_near (L x v : Q) :
  0 <= L -> Backdrop.near L x v ->
  Backdrop.near L (x + v) (Backdrop.bounce L (x + v) v).
Proof.
  unfold Backdrop.near, Backdrop.bounce. intros HL [Hv Hx].
  destruct (Qltb (x + v) 0) eqn:Elo; destruct (Qltb L (x + v)) eqn:Ehi;
    simpl;
    try (apply Qltb_lt in Elo); try (apply Qltb_ge in Elo);
    try (apply Qltb_lt in Ehi); try (apply Qltb_ge in Ehi);
    lra.
Qed.

Lemma move_near (d : Backdrop.Dot) :
  0 <= width ->
  Backdrop.near width (Backdrop.x d) (Backdrop.dx d)
  /\ Backdrop.near Backdrop.height (Backdrop.y d) (Backdrop.dy d) ->
  Backdrop.near width (Backdrop.x (Backdrop.move width d))
                (Backdrop.dx (Backdrop.move width d))
  /\ Backdrop.near Backdrop.height (Backdrop.y (Backdrop.move width d))
                   (Backdrop.dy (Backdrop.move width d)).
Proof.
  intros HW [Hx Hy]. unfold Backdrop.move. simpl. split.
  - apply bounce_near; assumption.
  - apply bounce_near; [unfold Backdrop.height; lra | assumption].
Qed.

Lemma near_close (L x v : Q) :
  0 <= L -> Backdrop.near L x v -> -0.6 <= x <= L + 0.6.
Proof. unfold Backdrop.near. intros HL [Hv Hx]. lra. Qed.

(** X22.  The dots stay with the canvas: after every number of frames
    there are 18 dots and none is further than 0.6 pixels, one step,
    beyond an edge of the canvas, as long as the width of the window stays
    the same. *)
Theorem backdrop_dots_stay_near (k n : nat) :
  random_in_range -> 0 <= width ->
  length (Backdrop.frame width n (fst (Backdrop.dots width k))) = 18%nat
  /\ Forall (fun d =>
               -0.6 <= Backdrop.x d <= width + 0.6
               /\ -0.6 <= Backdrop.y d <= 350 + 0.6)
            (Backdrop.frame width n (fst (Backdrop.dots width k))).
Proof.
  intros Hr HW.
  assert (Hinv : length (Backdrop.frame width n (fst (Backdrop.dots width k)))
                 = 18%nat
                 /\ Forall (fun d =>
                      Backdrop.near width (Backdrop.x d) (Backdrop.dx d)
                      /\ Backdrop.near Backdrop.height (Backdrop.y d)
                                       (Backdrop.dy d))
                    (Backdrop.frame width n (fst (Backdrop.dots width k)))).
  { induction n as [|n [IHl IHf]].
    - change (Backdrop.frame width 0 (fst (Backdrop.dots width k)))
        with (fst (Backdrop.dots width k)).
      unfold Backdrop.dots. split; [apply for_push_length|].
      apply for_push_Forall. intros i j.
      destruct (newDot_made j Hr HW) as (Hx & Hy & Hdx & Hdy & _).
      unfold Backdrop.near. split; (split; [lra | left; assumption]).
    - change (Backdrop.frame width (S n) (fst (Backdrop.dots width k)))
        with (map (Backdrop.move width)
                  (Backdrop.frame width n (fst (Backdrop.dots width k)))).
      rewrite length_map. split; [exact IHl|].
      apply Forall_map. eapply Forall_impl; [|exact IHf].
      intros d Hd. apply move_near; assumption. }
  destruct Hinv as [Hl Hf]. split; [exact Hl|].
  eapply Forall_impl; [|exact Hf]. intros d [Hx Hy].
  apply near_close in Hx; [|exact HW].
  apply near_close in Hy; [|unfold Backdrop.height; lra].
  unfold Backdrop.height in Hy. split; lra.
Qed.

Lemma bounce_off (L x v : Q) : Backdrop.off L x -> Backdrop.bounce L x v = v * -1.
Proof.
  intros Hout. unfold Backdrop.bounce.
  destruct Hout as [Hlo|Hhi].
  - apply Qltb_lt in Hlo. rewrite Hlo. reflexivity.
  - apply Qltb_lt in Hhi. rewrite Hhi, orb_true_r. reflexivity.
Qed.

(** X23.  A dot that is off the canvas on the x axis by more than its
    step, as after the window was made narrower, never comes back: it
    turns round in every frame, alternates between two positions, and is
    off the canvas after every number of frames. *)
Theorem stray_dot_never_returns (d : Backdrop.Dot) (n : nat) :
  Backdrop.off width (Backdrop.x d) ->
  Backdrop.off width (Backdrop.x d + Backdrop.dx d) ->
  Backdrop.off width (Backdrop.x (Nat.iter n (Backdrop.move width) d))
  /\ Backdrop.x (Nat.iter (2 * n) (Backdrop.move width) d) == Backdrop.x d
  /\ Backdrop.dx (Nat.iter (2 * n) (Backdrop.move width) d) == Backdrop.dx d.
Proof.
  intros H0 H1.
  assert (Hstep01 : forall e,
            Backdrop.x e == Backdrop.x d /\ Backdrop.dx e == Backdrop.dx d ->
            Backdrop.x (Backdrop.move width e) == Backdrop.x d + Backdrop.dx d
            /\ Backdrop.dx (Backdrop.move width e) == - Backdrop.dx d).
  { intros e [Ex Ev]. unfold Backdrop.move. cbn [Backdrop.x Backdrop.dx].
    rewrite bounce_off; [lra|].
    destruct H1 as [Hlo|Hhi]; [left | right]; lra. }
  assert (Hstep10 : forall e,
            Backdrop.x e == Backdrop.x d + Backdrop.dx d
            /\ Backdrop.dx e == - Backdrop.dx d ->
            Backdrop.x (Backdrop.move width e) == Backdrop.x d
            /\ Backdrop.dx (Backdrop.move width e) == Backdrop.dx d).
  { intros e [Ex Ev]. unfold Backdrop.move. cbn [Backdrop.x Backdrop.dx].
    rewrite bounce_off; [lra|].
    destruct H0 as [Hlo|Hhi]; [left | right]; lra. }
  assert (Halt : forall m,
            (Backdrop.x (Nat.iter (2 * m) (Backdrop.move width) d) == Backdrop.x d
             /\ Backdrop.dx (Nat.iter (2 * m) (Backdrop.move width) d)
                == Backdrop.dx d)
            /\ (Backdrop.x (Nat.iter (S (2 * m)) (Backdrop.move width) d)
                == Backdrop.x d + Backdrop.dx d
                /\ Backdrop.dx (Nat.iter (S (2 * m)) (Backdrop.move width) d)
                   == - Backdrop.dx d)).
  { induction m as [|m [IH0 IH1]].
    - split; [split; reflexivity|]. apply Hstep01. split; reflexivity.
    - replace (2 * S m)%nat with (S (S (2 * m))) by lia.
      assert (H2 : Backdrop.x (Nat.iter (S (S (2 * m))) (Backdrop.move width) d)
                   == Backdrop.x d
                   /\ Backdrop.dx (Nat.iter (S (S (2 * m))) (Backdrop.move width) d)
                      == Backdrop.dx d).
      { change (Nat.iter (S (S (2 * m))) (Backdrop.move width) d)
          with (Backdrop.move width (Nat.iter (S (2 * m)) (Backdrop.move width) d)).
        apply Hstep10. exact IH1. }
      split; [exact H2|].
      change (Nat.iter (S (S (S (2 * m)))) (Backdrop.move width) d)
        with (Backdrop.move width
                (Nat.iter (S (S (2 * m))) (Backdrop.move width) d)).
      apply Hstep01. exact H2. }
  split.
  - destruct (Nat.Even_or_Odd n) as [[m ->]|[m ->]].
    + destruct (Halt m) as [[Ex _] _].
      unfold Backdrop.off in *. rewrite Ex. exact H0.
    + replace (2 * m + 1)%nat with (S (2 * m)) by lia.
      destruct (Halt m) as [_ [Ex _]].
      unfold Backdrop.off in *. rewrite Ex. exact H1.
  - apply (Halt n).
Qed.

End BackdropDots.

(** ** The further properties on concrete inputs *)



Lemma demo_canvas_80 : 80 <= @canvasW demoHost /\ 80 <= @canvasH demoHost.
Proof. split; simpl; unfold Qle; simpl; lia. Qed.

Lemma spawnAll_agents_in_range_witness :
  80 <= @canvasW demoHost /\ 80 <= @canvasH demoHost
  /\ Forall (agentSpawned 400 360)
            (agents (spawnAll (host := demoHost) demoInputs init)).
Proof.
  destruct demo_canvas_80 as [HW HH].
  split; [exact HW|]. split; [exact HH|].
  exact (@spawnAll_agents_in_range demoHost demoInputs init
           demoRandom_range HW HH).
Defined.

Lemma demo_second_state :
  In (loop (host := demoHost) (start (spawnAll (host := demoHost) demoInputs init)))
     (history (host := demoHost) demoInputs 1).
Proof. right. left. reflexivity. Qed.

Lemma total_is_sum_of_agent_scores_witness :
  In (loop (host := demoHost) (start (spawnAll (host := demoHost) demoInputs init)))
     (history (host := demoHost) demoInputs 1)
  /\ score (loop (host := demoHost)
              (start (spawnAll (host := demoHost) demoInputs init)))
     == scoreSum (agents (loop (host := demoHost)
                            (start (spawnAll (host := demoHost) demoInputs init)))).
Proof.
  split; [exact demo_second_state|].
  exact (@total_is_sum_of_agent_scores demoHost demoInputs 1 _ demo_second_state).
Defined.

Lemma calm_second_state :
  In (loop (host := demoHost) (start (spawnAll (host := demoHost) calmInputs init)))
     (history (host := demoHost) calmInputs 1).
Proof. right. left. reflexivity. Qed.

Lemma score_bounded_by_resources_witness :
  In (loop (host := demoHost) (start (spawnAll (host := demoHost) calmInputs init)))
     (history (host := demoHost) calmInputs 1)
  /\ dangers (spawnAll (host := demoHost) calmInputs init) = []
  /\ score (loop (host := demoHost)
              (start (spawnAll (host := demoHost) calmInputs init)))
     + foodTotal (foods (loop (host := demoHost)
                           (start (spawnAll (host := demoHost) calmInputs init))))
     == foodTotal (foods (spawnAll (host := demoHost) calmInputs init)).
Proof.
  assert (Hnone : dangers (spawnAll (host := demoHost) calmInputs init) = [])
    by reflexivity.
  split; [exact calm_second_state|]. split; [exact Hnone|].
  exact (proj2 (proj2 (@score_bounded_by_resources demoHost calmInputs 1 _
                         calm_second_state)) Hnone).
Defined.

Lemma score_is_integer_witness :
  In (loop (host := demoHost) (start (spawnAll (host := demoHost) demoInputs init)))
     (history (host := demoHost) demoInputs 1)
  /\ exists z : Z,
      score (loop (host := demoHost)
               (start (spawnAll (host := demoHost) demoInputs init)))
      == inject_Z z
      /\ Math_round (score (loop (host := demoHost)
                              (start (spawnAll (host := demoHost) demoInputs init))))
         = z
      /\ statScore (ui (loop (host := demoHost)
                          (start (spawnAll (host := demoHost) demoInputs init))))
         = String_of_Z (Z.max 0 z).
Proof.
  split; [exact demo_second_state|].
  exact (@score_is_integer demoHost demoInputs 1 _ demo_second_state).
Defined.

Lemma crowd_is_big :
  (500 < length (agents (spawnAll (host := demoHost) crowdInputs init)))%nat.
Proof.
  destruct (@spawnAll_counts demoHost crowdInputs init) as (La & _).
  rewrite La. vm_compute. lia.
Qed.

Lemma crowd_third_state :
  In (loop (host := demoHost)
        (loop (host := demoHost)
           (start (spawnAll (host := demoHost) crowdInputs init))))
     (history (host := demoHost) crowdInputs 2).
Proof. right. right. left. reflexivity. Qed.

Lemma data_mode_run_is_frozen_witness :
  (500 < length (agents (spawnAll (host := demoHost) crowdInputs init)))%nat
  /\ In (loop (host := demoHost)
           (loop (host := demoHost)
              (start (spawnAll (host := demoHost) crowdInputs init))))
        (history (host := demoHost) crowdInputs 2)
  /\ score (loop (host := demoHost)
              (loop (host := demoHost)
                 (start (spawnAll (host := demoHost) crowdInputs init)))) = 0.
Proof.
  split; [exact crowd_is_big|]. split; [exact crowd_third_state|].
  exact (proj1 (proj2 (proj2 (proj2
           (@data_mode_run_is_frozen demoHost crowdInputs 2 _
              crowd_is_big crowd_third_state))))).
Defined.

Lemma stray_food_never_returns_witness :
  Food.mobile strayFood = true
  /\ outsideBand 400 (Food.x strayFood)
  /\ outsideBand 400 (Food.x strayFood + Food.vx strayFood)
  /\ outsideBand 400 (Food.x (Nat.iter 3 (moveFood (host := demoHost)) strayFood)).
Proof.
  assert (Hm : Food.mobile strayFood = true) by reflexivity.
  assert (H0 : outsideBand (@canvasW demoHost) (Food.x strayFood))
    by (left; reflexivity).
  assert (H1 : outsideBand (@canvasW demoHost)
                 (Food.x strayFood + Food.vx strayFood))
    by (left; reflexivity).
  split; [exact Hm|]. split; [exact H0|]. split; [exact H1|].
  exact (proj1 (@stray_food_never_returns demoHost strayFood 3 Hm H0 H1)).
Defined.

Lemma stray_danger_never_returns_witness :
  Danger.mobile strayDanger = true
  /\ outsideBand 360 (Danger.y strayDanger)
  /\ outsideBand 360 (Danger.y strayDanger + Danger.vy strayDanger)
  /\ outsideBand 360
       (Danger.y (Nat.iter 5 (moveDanger (host := demoHost)) strayDanger)).
Proof.
  assert (Hm : Danger.mobile strayDanger = true) by reflexivity.
  assert (H0 : outsideBand (@canvasH demoHost) (Danger.y strayDanger))
    by (right; reflexivity).
  assert (H1 : outsideBand (@canvasH demoHost)
                 (Danger.y strayDanger + Danger.vy strayDanger))
    by (right; reflexivity).
  split; [exact Hm|]. split; [exact H0|]. split; [exact H1|].
  exact (proj1 (proj2 (@stray_danger_never_returns demoHost strayDanger 5 Hm)
                  H0 H1)).
Defined.

Lemma mixed_second_state :
  In (loop (host := demoHost) (start (spawnAll (host := demoHost) mixedInputs init)))
     (history (host := demoHost) mixedInputs 1).
Proof. right. left. reflexivity. Qed.

Lemma explorer_pace_bounded_witness :
  explorerN mixedInputs = 2%Z
  /\ In (loop (host := demoHost)
           (start (spawnAll (host := demoHost) mixedInputs init)))
        (history (host := demoHost) mixedInputs 1)
  /\ Forall (fun a =>
               Agent.type a = explorer ->
               -0.98 <= Agent.vx a <= 0.98 /\ -0.98 <= Agent.vy a <= 0.98)
            (agents (loop (host := demoHost)
                       (start (spawnAll (host := demoHost) mixedInputs init)))).
Proof.
  split; [reflexivity|]. split; [exact mixed_second_state|].
  exact (@explorer_pace_bounded demoHost mixedInputs 1 _ demoRandom_range
           mixed_second_state).
Defined.

Lemma pause_freezes_the_simulation_witness :
  Forall isCallback [FrameDue 1; TimerDue; FrameDue 1]
  /\ sim (reactAll (host := demoHost) (react (host := demoHost) demoPage ClickPause)
            [FrameDue 1; TimerDue; FrameDue 1])
     = pause (sim demoPage).
Proof.
  assert (Hes : Forall isCallback [FrameDue 1; TimerDue; FrameDue 1])
    by (repeat constructor).
  split; [exact Hes|].
  pose proof (@pause_freezes_the_simulation demoHost demoPage
                [FrameDue 1; TimerDue; FrameDue 1] Hes) as X.
  destruct X as [Hs _]. exact Hs.
Defined.

Lemma demoInputs_demoSized : demoSized demoInputs.
Proof. unfold demoSized. vm_compute. lia. Qed.

Lemma demo_mode_single_loop_witness :
  demoSized demoInputs
  /\ Forall keepsDemo
       [ClickStart; FrameDue 1; ClickPause; ClickStart; ClickSpawn demoInputs]
  /\ timers (reactAll (host := demoHost) (initPage (host := demoHost) demoInputs)
               [ClickStart; FrameDue 1; ClickPause; ClickStart;
                ClickSpawn demoInputs]) = 0%nat.
Proof.
  assert (Hes : Forall keepsDemo
                  [ClickStart; FrameDue 1; ClickPause; ClickStart;
                   ClickSpawn demoInputs]).
  { repeat (apply Forall_cons;
             [first [exact I | exact demoInputs_demoSized]|]).
    apply Forall_nil. }
  split; [exact demoInputs_demoSized|]. split; [exact Hes|].
  pose proof (@demo_mode_single_loop demoHost demoInputs
                [ClickStart; FrameDue 1; ClickPause; ClickStart;
                 ClickSpawn demoInputs]
                demoInputs_demoSized Hes) as X.
  destruct X as [Ht _]. exact Ht.
Defined.

Lemma dataPage_runs :
  running (sim dataPage) = true /\ (10 < length (agents (sim dataPage)))%nat.
Proof. split; [reflexivity | vm_compute; lia]. Qed.

Lemma data_mode_resume_adds_a_loop_witness :
  running (sim dataPage) = true
  /\ (10 < length (agents (sim dataPage)))%nat
  /\ timers dataPage = 1%nat
  /\ timers (react (host := demoHost) (react (host := demoHost) dataPage ClickPause)
               ClickStart) = 2%nat.
Proof.
  destruct dataPage_runs as [Hr Hbig].
  split; [exact Hr|]. split; [exact Hbig|]. split; [reflexivity|].
  pose proof (@data_mode_resume_adds_a_loop demoHost dataPage Hr Hbig) as X.
  destruct X as [Ht _]. exact Ht.
Defined.

Lemma greedy_coasts_without_resources_witness :
  foods (spawnAll (host := demoHost) noFoodInputs init) = []
  /\ map Agent.type (agents (spawnAll (host := demoHost) noFoodInputs init))
     = [greedy; greedy]
  /\ foods (stepOnce (host := demoHost)
              (spawnAll (host := demoHost) noFoodInputs init)) = [].
Proof.
  assert (Hnone : foods (spawnAll (host := demoHost) noFoodInputs init) = [])
    by reflexivity.
  split; [exact Hnone|]. split; [reflexivity|].
  pose proof (@greedy_coasts_without_resources demoHost
                (spawnAll (host := demoHost) noFoodInputs init) Hnone) as X.
  destruct X as [Hf _]. exact Hf.
Defined.

Lemma items_painted_by_tier_witness :
  In (loop (host := demoHost) (start (spawnAll (host := demoHost) mixedInputs init)))
     (history (host := demoHost) mixedInputs 1)
  /\ Forall (fun d =>
               (Danger.severity d = 10
                /\ dangerColor (Danger.severity d) = "#ff7f50"%string)
               \/ (Danger.severity d = 6
                   /\ dangerColor (Danger.severity d) = "#ffb3a7"%string)
               \/ (Danger.severity d = 2
                   /\ dangerColor (Danger.severity d) = "#ffdfd5"%string))
            (dangers (loop (host := demoHost)
                        (start (spawnAll (host := demoHost) mixedInputs init)))).
Proof.
  split; [exact mixed_second_state|].
  pose proof (@items_painted_by_tier demoHost mixedInputs 1
                (loop (host := demoHost)
                   (start (spawnAll (host := demoHost) mixedInputs init)))
                mixed_second_state) as X.
  destruct X as [_ Hd]. exact Hd.
Defined.

Lemma logo_angle_in_range_witness :
  0 <= 0.6 /\ 0 <= Nat.iter 700 (spin 0.6) 0 < 360.
Proof.
  assert (Hs : 0 <= 0.6) by (unfold Qle; simpl; lia).
  split; [exact Hs|].
  pose proof (logo_angle_in_range 0.6 700 Hs) as X.
  destruct X as [Hr _]. exact Hr.
Defined.

Lemma window_1280 : 0 <= 1280.
Proof. unfold Qle; simpl; lia. Qed.

Lemma backdrop_dots_made_witness :
  0 <= 1280
  /\ length (fst (Backdrop.dots (host := demoHost) 1280 0%nat)) = 18%nat.
Proof.
  split; [exact window_1280|].
  pose proof (@backdrop_dots_made demoHost 1280 0%nat demoRandom_range
                window_1280) as X.
  destruct X as [Hl _]. exact Hl.
Defined.

Lemma backdrop_dots_stay_near_witness :
  0 <= 1280
  /\ Forall (fun d =>
               -0.6 <= Backdrop.x d <= 1280 + 0.6
               /\ -0.6 <= Backdrop.y d <= 350 + 0.6)
            (Backdrop.frame 1280 40
               (fst (Backdrop.dots (host := demoHost) 1280 0%nat))).
Proof.
  split; [exact window_1280|].
  pose proof (@backdrop_dots_stay_near demoHost 1280 0%nat 40 demoRandom_range
                window_1280) as X.
  destruct X as [_ Hf]. exact Hf.
Defined.

Lemma stray_dot_never_returns_witness :
  Backdrop.off 1280 (Backdrop.x strayDot)
  /\ Backdrop.off 1280 (Backdrop.x strayDot + Backdrop.dx strayDot)
  /\ Backdrop.off 1280 (Backdrop.x (Nat.iter 9 (Backdrop.move 1280) strayDot)).
Proof.
  assert (H0 : Backdrop.off 1280 (Backdrop.x strayDot)) by (right; reflexivity).
  assert (H1 : Backdrop.off 1280 (Backdrop.x strayDot + Backdrop.dx strayDot))
    by (right; reflexivity).
  split; [exact H0|]. split; [exact H1|].
  pose proof (stray_dot_never_returns 1280 strayDot 9 H0 H1) as X.
  destruct X as [Hoff _]. exact Hoff.
Defined.
